(** * Bucket service: storage consistency and quota accounting

    A shallow embedding of [app/main.py] and [app/auth.py].

    - Python [str] values are [string]s; each [ascii] stands for the code
      point of the same number (0..255).
    - The two MongoDB collections are lists of documents in insertion
      order; [insert_one] draws a fresh [_id] from a counter.
    - The disk is a directory tree; path strings are resolved component by
      component as the operating system does.
    - Every handler takes the state and returns a response and the new
      state.  Backend calls inside a [try] block may raise; which of them
      do is the [faults] argument of the handler.
    - The [users] collection is a store of its own, under its two unique
      indexes; [bcrypt] is a parameter of the functions that hash or check
      a password, and the rounded floating point fields of the answers of
      [get_current_user_info] and [get_admin_stats] are left out. *)

From Stdlib Require Import List String Ascii ZArith NArith Lia Bool.
From Stdlib Require Strings.Byte.
Import ListNotations.
Open Scope string_scope.
Open Scope Z_scope.

(** ** Python string primitives *)

Module Py.

(** Code point of a character. *)
Definition ord (c : ascii) : N := N_of_ascii c.

Definition in_range (lo hi : N) (c : ascii) : bool :=
  ((lo <=? ord c) && (ord c <=? hi))%N.

(** [c.isalnum()] for an ASCII character. *)
Definition ascii_alnum (c : ascii) : bool :=
  in_range 48 57 c || in_range 65 90 c || in_range 97 122 c.

(** [c.isalnum()] on the code points 128..255: the letters
    (U+00AA, U+00B5, U+00BA, U+00C0..U+00D6, U+00D8..U+00F6,
    U+00F8..U+00FF), the superscript digits (U+00B2, U+00B3, U+00B9) and
    the vulgar fractions (U+00BC..U+00BE). *)
Definition latin1_alnum (c : ascii) : bool :=
  (ord c =? 170)%N || (ord c =? 181)%N || (ord c =? 186)%N
  || in_range 192 214 c || in_range 216 246 c || in_range 248 255 c
  || (ord c =? 178)%N || (ord c =? 179)%N || (ord c =? 185)%N
  || in_range 188 190 c.

Definition char_isalnum (c : ascii) : bool := ascii_alnum c || latin1_alnum c.

(** [c.isspace()]: TAB..CR, FS..US, SPACE, NEL (U+0085), NBSP (U+00A0). *)
Definition char_isspace (c : ascii) : bool :=
  in_range 9 13 c || in_range 28 32 c || (ord c =? 133)%N || (ord c =? 160)%N.

Fixpoint all_chars (p : ascii -> bool) (s : string) : bool :=
  match s with
  | EmptyString => true
  | String c s' => p c && all_chars p s'
  end.

(** [s.isalnum()]: at least one character and all of them alphanumeric. *)
Definition isalnum (s : string) : bool :=
  match s with
  | EmptyString => false
  | _ => all_chars char_isalnum s
  end.

(** [s.replace(c, "")] for a one-character pattern. *)
Fixpoint remove_char (c : ascii) (s : string) : string :=
  match s with
  | EmptyString => EmptyString
  | String d s' =>
      if Ascii.eqb d c then remove_char c s' else String d (remove_char c s')
  end.

Fixpoint lstrip (s : string) : string :=
  match s with
  | EmptyString => EmptyString
  | String c s' => if char_isspace c then lstrip s' else s
  end.

Fixpoint rev_onto (s acc : string) : string :=
  match s with
  | EmptyString => acc
  | String c s' => rev_onto s' (String c acc)
  end.

Definition rev (s : string) : string := rev_onto s EmptyString.

(** [s.strip()] *)
Definition strip (s : string) : string := rev (lstrip (rev (lstrip s))).

(** [not s]: the empty string is falsy. *)
Definition falsy (s : string) : bool :=
  match s with EmptyString => true | _ => false end.

(** [s.startswith("/")] *)
Definition starts_with_sep (s : string) : bool :=
  match s with
  | String c _ => Ascii.eqb c "/"
  | EmptyString => false
  end.

(** [s.endswith("/")] *)
Fixpoint ends_with_sep (s : string) : bool :=
  match s with
  | EmptyString => false
  | String c EmptyString => Ascii.eqb c "/"
  | String _ s' => ends_with_sep s'
  end.

(** [os.path.join(a, b)] of posixpath. *)
Definition path_join (a b : string) : string :=
  if starts_with_sep b then b
  else if falsy a || ends_with_sep a then a ++ b
  else a ++ "/" ++ b.

(** [s.split("/")] *)
Fixpoint split_sep (s : string) : list string :=
  match s with
  | EmptyString => [EmptyString]
  | String c s' =>
      if Ascii.eqb c "/" then EmptyString :: split_sep s'
      else match split_sep s' with
           | h :: t => String c h :: t
           | [] => [String c EmptyString]
           end
  end.

(** Characters other than the path separator. *)
Definition not_sep (c : ascii) : bool := negb (Ascii.eqb c "/").

End Py.

(** ** BSON object ids *)

Definition ObjectId := N.

(** A 12-byte id. *)
Definition valid_oid (o : ObjectId) : Prop := (o < 2 ^ 96)%N.

Definition hex_digit (d : N) : ascii :=
  ascii_of_N (if (d <? 10)%N then 48 + d else 87 + d).

Fixpoint hex_of (k : nat) (n : N) : string :=
  match k with
  | O => EmptyString
  | S k' => hex_of k' (n / 16) ++ String (hex_digit (n mod 16)) EmptyString
  end.

(** [str(oid)]: 24 lower-case hexadecimal digits. *)
Definition str_oid (o : ObjectId) : string := hex_of 24 o.

Definition hex_value (c : ascii) : option N :=
  let n := Py.ord c in
  if Py.in_range 48 57 c then Some (n - 48)%N
  else if Py.in_range 97 102 c then Some (n - 87)%N
  else if Py.in_range 65 70 c then Some (n - 55)%N
  else None.

Fixpoint hex_parse (acc : N) (s : string) : option N :=
  match s with
  | EmptyString => Some acc
  | String c s' =>
      match hex_value c with
      | Some d => hex_parse (16 * acc + d)%N s'
      | None => None
      end
  end.

(** The digits [str(oid)] is made of. *)
Definition is_hex (c : ascii) : bool :=
  Py.in_range 48 57 c || Py.in_range 97 102 c.

(** [ObjectId(s)] for a string [s]: 24 hexadecimal digits, [None] when the
    constructor raises [InvalidId]. *)
Definition oid_of_str (s : string) : option ObjectId :=
  if Nat.eqb (String.length s) 24 then hex_parse 0%N s else None.

(** ** The disk

    A tree of directories and regular files.  A location is the list of
    component names from the tree root; path strings are resolved to
    locations by [resolve].  There are no symbolic links, and the working
    directory is the tree root (every path the handlers build is
    absolute). *)

Module Fs.

#[local] Set Warnings "-register-all".

Inductive node : Type :=
| File (data : list Byte.byte)
| Dir (entries : list (string * node)).

Definition location := list string.

Fixpoint assoc (k : string) (es : list (string * node)) : option node :=
  match es with
  | [] => None
  | (k', v) :: es' => if String.eqb k k' then Some v else assoc k es'
  end.

Fixpoint put (k : string) (v : node) (es : list (string * node))
  : list (string * node) :=
  match es with
  | [] => [(k, v)]
  | (k', v') :: es' =>
      if String.eqb k k' then (k, v) :: es' else (k', v') :: put k v es'
  end.

Fixpoint drop (k : string) (es : list (string * node))
  : list (string * node) :=
  match es with
  | [] => []
  | (k', v') :: es' =>
      if String.eqb k k' then drop k es' else (k', v') :: drop k es'
  end.

Fixpoint lookup (n : node) (p : location) : option node :=
  match p with
  | [] => Some n
  | c :: p' =>
      match n with
      | Dir es =>
          match assoc c es with
          | Some m => lookup m p'
          | None => None
          end
      | File _ => None
      end
  end.

(** Bind ([Some v]) or unbind ([None]) the entry at location [p]; nothing
    happens unless the parent of [p] is a directory.  The tree root itself
    is never replaced. *)
Fixpoint set_at (n : node) (p : location) (v : option node) : node :=
  match p with
  | [] => n
  | c :: p' =>
      match n with
      | File _ => n
      | Dir es =>
          match p' with
          | [] =>
              match v with
              | Some x => Dir (put c x es)
              | None => Dir (drop c es)
              end
          | _ :: _ =>
              match assoc c es with
              | Some m => Dir (put c (set_at m p' v) es)
              | None => n
              end
          end
      end
  end.

Definition is_dir (root : node) (p : location) : bool :=
  match lookup root p with
  | Some (Dir _) => true
  | _ => false
  end.

Definition is_file (root : node) (p : location) : bool :=
  match lookup root p with
  | Some (File _) => true
  | _ => false
  end.

Definition present (root : node) (p : location) : bool :=
  match lookup root p with
  | Some _ => true
  | None => false
  end.

Definition is_dot (c : string) : bool := String.eqb c "" || String.eqb c ".".
Definition is_dotdot (c : string) : bool := String.eqb c "..".

(** Path resolution: every component is looked up in a directory that
    exists; [""] and ["."] stay, [".."] goes to the parent. *)
Fixpoint walk (root : node) (cur : location) (comps : list string)
  : option location :=
  match comps with
  | [] => Some cur
  | c :: rest =>
      if is_dir root cur then
        if is_dot c then walk root cur rest
        else if is_dotdot c then walk root (removelast cur) rest
        else walk root (cur ++ [c])%list rest
      else None
  end.

Definition resolve (root : node) (s : string) : option location :=
  if Py.falsy s then None else walk root [] (Py.split_sep s).

(** [os.path.exists(s)] *)
Definition exists_ (root : node) (s : string) : bool :=
  match resolve root s with
  | Some q => present root q
  | None => false
  end.

(** [os.path.getsize(s)]; the size of a directory entry is taken to be
    4096.  [None] when [os.stat] raises. *)
Definition getsize (root : node) (s : string) : option Z :=
  match resolve root s with
  | Some q =>
      match lookup root q with
      | Some (File data) => Some (Z.of_nat (List.length data))
      | Some (Dir _) => Some 4096
      | None => None
      end
  | None => None
  end.

(** [open(s, "wb")] followed by [write(data)] and close: creates or
    truncates a regular file; [None] when [open] raises. *)
Definition write_file (root : node) (s : string) (data : list Byte.byte)
  : option node :=
  match resolve root s with
  | Some q =>
      match lookup root q with
      | Some (Dir _) => None
      | _ => Some (set_at root q (Some (File data)))
      end
  | None => None
  end.

(** The bytes a [FileResponse] streams; [None] when there is no regular
    file at [s]. *)
Definition read_file (root : node) (s : string) : option (list Byte.byte) :=
  match resolve root s with
  | Some q =>
      match lookup root q with
      | Some (File data) => Some data
      | _ => None
      end
  | None => None
  end.

(** [os.remove(s)]: unlinks a regular file, raises on anything else. *)
Definition remove (root : node) (s : string) : option node :=
  match resolve root s with
  | Some q => if is_file root q then Some (set_at root q None) else None
  | None => None
  end.

(** [shutil.rmtree(s)]: removes a directory with everything below it;
    raises when [s] is missing or is not a directory.  The tree root is
    not removable. *)
Definition rmtree (root : node) (s : string) : option node :=
  match resolve root s with
  | Some [] => None
  | Some q => if is_dir root q then Some (set_at root q None) else None
  | None => None
  end.

(** [os.makedirs(s, exist_ok=False)]: creates the missing directories
    along [s]; raises when the leaf exists or a component is a regular
    file.  A raise leaves the tree as it was: once one directory had to be
    created, everything after it is missing too. *)
Fixpoint makedirs_from (root : node) (cur : location) (comps : list string)
  : option node :=
  match comps with
  | [] => None
  | c :: rest =>
      if is_dir root cur then
        let next :=
          if is_dot c then cur
          else if is_dotdot c then removelast cur
          else (cur ++ [c])%list in
        let leaf := forallb is_dot rest in
        match lookup root next with
        | Some (Dir _) => if leaf then None else makedirs_from root next rest
        | Some (File _) => None
        | None =>
            let root' := set_at root next (Some (Dir [])) in
            if leaf then Some root' else makedirs_from root' next rest
        end
      else None
  end.

Definition makedirs (root : node) (s : string) : option node :=
  if Py.falsy s then None else makedirs_from root [] (Py.split_sep s).

(** Anything but a directory: a regular file or nothing. *)
Definition not_dir (v : option node) : Prop :=
  match v with
  | Some (Dir _) => False
  | _ => True
  end.

End Fs.

(** ** Documents, collections and the state of the service *)

(** A document of the [buckets] collection. *)
Record BucketDoc : Type := mkBucketDoc {
  b_id : ObjectId;
  b_name : string;
  b_description : option string;
  b_user_id : ObjectId;
  b_created_at : string;
  b_file_count : Z;
  b_total_size : Z
}.

(** A document of the [files] collection. *)
Record FileDoc : Type := mkFileDoc {
  f_id : ObjectId;
  f_filename : string;
  f_bucket_id : ObjectId;
  f_bucket_name : string;
  f_user_id : ObjectId;
  f_size : Z;
  f_content_type : string;
  f_uploaded_at : string;
  f_file_path : string
}.

Record State : Type := mkState {
  buckets_collection : list BucketDoc;
  files_collection : list FileDoc;
  disk : Fs.node;
  next_oid : ObjectId
}.

Definition set_disk (st : State) (d : Fs.node) : State :=
  mkState (buckets_collection st) (files_collection st) d (next_oid st).

Definition set_buckets (st : State) (bs : list BucketDoc) : State :=
  mkState bs (files_collection st) (disk st) (next_oid st).

Definition set_files (st : State) (fs : list FileDoc) : State :=
  mkState (buckets_collection st) fs (disk st) (next_oid st).

(** Which backend calls of one request raise for a reason of their own
    (lost connection, full disk, permissions).  [write_raises = Some k]:
    [buffer.write] raises after [k] bytes reached the file. *)
Record faults : Type := mkFaults {
  makedirs_raises : bool;
  rmtree_raises : bool;
  open_raises : bool;
  write_raises : option nat;
  remove_raises : bool;
  insert_one_raises : bool;
  update_one_raises : bool;
  delete_one_raises : bool;
  delete_many_raises : bool
}.

Definition no_faults : faults :=
  mkFaults false false false None false false false false false.

(** The [HTTPException]s of [main.py]; [InternalServerError] is an
    exception that leaves the handler uncaught. *)
Inductive error : Type :=
| BucketNameRequired
| BucketNameInvalid
| BucketAlreadyExists
| BucketNotFound
| StorageLimitExceeded
| FileAlreadyExists
| FileNotFound
| FileNotFoundOnDisk
| ErrorCreatingBucket
| ErrorDeletingBucket
| ErrorUploadingFile
| ErrorDeletingFile
| InternalServerError.

Definition status_code (e : error) : Z :=
  match e with
  | BucketNameRequired | BucketNameInvalid => 400
  | BucketAlreadyExists | FileAlreadyExists => 409
  | BucketNotFound | FileNotFound | FileNotFoundOnDisk => 404
  | StorageLimitExceeded => 413
  | ErrorCreatingBucket | ErrorDeletingBucket
  | ErrorUploadingFile | ErrorDeletingFile | InternalServerError => 500
  end.

Inductive response (A : Type) : Type :=
| Success (status : Z) (body : A)
| Failure (e : error).

Arguments Success {A} status body.
Arguments Failure {A} e.

Definition http_status {A} (r : response A) : Z :=
  match r with
  | Success s _ => s
  | Failure e => status_code e
  end.

Definition succeeded {A} (r : response A) : bool :=
  match r with
  | Success _ _ => true
  | Failure _ => false
  end.

(** ** Collection primitives *)

(** [buckets_collection.find_one({"name": name, "user_id": user_id})] *)
Definition find_bucket (bs : list BucketDoc) (name : string)
  (user_id : ObjectId) : option BucketDoc :=
  find (fun b => String.eqb (b_name b) name && N.eqb (b_user_id b) user_id) bs.

(** [files_collection.find_one({"bucket_id": .., "filename": ..})] *)
Definition find_file (fs : list FileDoc) (bucket_id : ObjectId)
  (filename : string) : option FileDoc :=
  find (fun f => N.eqb (f_bucket_id f) bucket_id
                 && String.eqb (f_filename f) filename) fs.

(** [delete_one({"_id": id})]: the first matching document goes. *)
Fixpoint delete_file_by_id (id : ObjectId) (fs : list FileDoc)
  : list FileDoc :=
  match fs with
  | [] => []
  | f :: fs' => if N.eqb (f_id f) id then fs' else f :: delete_file_by_id id fs'
  end.

Fixpoint delete_bucket_by_id (id : ObjectId) (bs : list BucketDoc)
  : list BucketDoc :=
  match bs with
  | [] => []
  | b :: bs' =>
      if N.eqb (b_id b) id then bs' else b :: delete_bucket_by_id id bs'
  end.

(** [delete_many({"bucket_id": id})] *)
Definition delete_files_of_bucket (id : ObjectId) (fs : list FileDoc)
  : list FileDoc :=
  filter (fun f => negb (N.eqb (f_bucket_id f) id)) fs.

(** [update_one({"_id": id}, {"$inc": {"file_count": dc, "total_size": ds}})]:
    the first matching document is updated, none when there is no match. *)
Fixpoint inc_bucket_stats (id : ObjectId) (dc ds : Z) (bs : list BucketDoc)
  : list BucketDoc :=
  match bs with
  | [] => []
  | b :: bs' =>
      if N.eqb (b_id b) id then
        mkBucketDoc (b_id b) (b_name b) (b_description b) (b_user_id b)
          (b_created_at b) (b_file_count b + dc) (b_total_size b + ds) :: bs'
      else b :: inc_bucket_stats id dc ds bs'
  end.

(** The calls as the handlers see them: [None] is a raised exception. *)

Definition db_insert_bucket (flt : faults) (st : State)
  (name : string) (description : option string) (user_id : ObjectId)
  (created_at : string) : option (BucketDoc * State) :=
  if insert_one_raises flt then None
  else
    let doc := mkBucketDoc (next_oid st) name description user_id
                 created_at 0 0 in
    Some (doc, mkState (buckets_collection st ++ [doc]) (files_collection st)
                 (disk st) (N.succ (next_oid st))).

Definition db_insert_file (flt : faults) (st : State)
  (filename : string) (bucket_id : ObjectId) (bucket_name : string)
  (user_id : ObjectId) (size : Z) (content_type uploaded_at file_path : string)
  : option (FileDoc * State) :=
  if insert_one_raises flt then None
  else
    let doc := mkFileDoc (next_oid st) filename bucket_id bucket_name user_id
                 size content_type uploaded_at file_path in
    Some (doc, mkState (buckets_collection st) (files_collection st ++ [doc])
                 (disk st) (N.succ (next_oid st))).

Definition db_inc_bucket_stats (flt : faults) (st : State)
  (bucket_id : ObjectId) (dc ds : Z) : option State :=
  if update_one_raises flt then None
  else Some (set_buckets st
               (inc_bucket_stats bucket_id dc ds (buckets_collection st))).

Definition db_delete_file (flt : faults) (st : State) (id : ObjectId)
  : option State :=
  if delete_one_raises flt then None
  else Some (set_files st (delete_file_by_id id (files_collection st))).

Definition db_delete_bucket (flt : faults) (st : State) (id : ObjectId)
  : option State :=
  if delete_one_raises flt then None
  else Some (set_buckets st (delete_bucket_by_id id (buckets_collection st))).

Definition db_delete_files_of_bucket (flt : faults) (st : State)
  (bucket_id : ObjectId) : option State :=
  if delete_many_raises flt then None
  else Some (set_files st
               (delete_files_of_bucket bucket_id (files_collection st))).

Definition os_makedirs (flt : faults) (st : State) (path : string)
  : option State :=
  if makedirs_raises flt then None
  else option_map (set_disk st) (Fs.makedirs (disk st) path).

Definition os_rmtree (flt : faults) (st : State) (path : string)
  : option State :=
  if rmtree_raises flt then None
  else option_map (set_disk st) (Fs.rmtree (disk st) path).

Definition os_remove (flt : faults) (st : State) (path : string)
  : option State :=
  if remove_raises flt then None
  else option_map (set_disk st) (Fs.remove (disk st) path).

(** [with open(path, "wb") as buffer: buffer.write(data)].  The state is
    returned also when the block raises: a failing [write] leaves the
    bytes written so far. *)
Definition os_write (flt : faults) (st : State) (path : string)
  (data : list Byte.byte) : State * bool :=
  if open_raises flt then (st, false)
  else
    match write_raises flt with
    | Some k =>
        match Fs.write_file (disk st) path (firstn k data) with
        | Some d => (set_disk st d, false)
        | None => (st, false)
        end
    | None =>
        match Fs.write_file (disk st) path data with
        | Some d => (set_disk st d, true)
        | None => (st, false)
        end
    end.

(** ** [app/auth.py]: the quota ledger *)

Definition STORAGE_LIMIT_GB : Z := 1.
Definition STORAGE_LIMIT_BYTES : Z := STORAGE_LIMIT_GB * 1024 * 1024 * 1024.

(** The aggregation pipeline [$match user_id], [$group $sum size]. *)
Definition sum_sizes_of_user (fs : list FileDoc) (user_id : ObjectId) : Z :=
  fold_left (fun acc f => acc + f_size f)
    (filter (fun f => N.eqb (f_user_id f) user_id) fs) 0.

(** [get_user_storage_usage(user_id)] for a [str] argument, which is how
    [upload_file] calls it through [check_storage_limit]: the string is
    converted back with [ObjectId(user_id)]; [None] when that raises. *)
Definition get_user_storage_usage (fs : list FileDoc) (user_id : string)
  : option Z :=
  match oid_of_str user_id with
  | Some oid => Some (sum_sizes_of_user fs oid)
  | None => None
  end.

Definition check_storage_limit (fs : list FileDoc) (user_id : string)
  (file_size : Z) : option bool :=
  match get_user_storage_usage fs user_id with
  | Some current_usage =>
      Some (current_usage + file_size <=? STORAGE_LIMIT_BYTES)
  | None => None
  end.

(** ** [app/main.py]: the handlers *)

(** [os.getenv("STORAGE_PATH", "/app/storage")], at its default. *)
Definition STORAGE_PATH : string := "/app/storage".

(** [os.path.join(STORAGE_PATH, str(user_id), name)] *)
Definition bucket_dir (user_id : ObjectId) (name : string) : string :=
  Py.path_join (Py.path_join STORAGE_PATH (str_oid user_id)) name.

(** The [except Exception] block of [create_bucket], entered in state
    [st]: the directory is removed if it is there, then 500 is raised.  An
    exception of [shutil.rmtree] itself leaves the handler uncaught. *)
Definition create_bucket_except (flt : faults) (st : State)
  (bucket_path : string) : response BucketDoc * State :=
  if Fs.exists_ (disk st) bucket_path then
    match os_rmtree flt st bucket_path with
    | Some st' => (Failure ErrorCreatingBucket, st')
    | None => (Failure InternalServerError, st)
    end
  else (Failure ErrorCreatingBucket, st).

Definition create_bucket (flt : faults) (now : string) (st : State)
  (current_user : ObjectId) (name : string) (description : option string)
  : response BucketDoc * State :=
  if Py.falsy name || Py.falsy (Py.strip name) then
    (Failure BucketNameRequired, st)
  else if negb (Py.isalnum (Py.remove_char "_" (Py.remove_char "-" name))) then
    (Failure BucketNameInvalid, st)
  else
    let user_id := current_user in
    let bucket_path := bucket_dir user_id name in
    match find_bucket (buckets_collection st) name user_id with
    | Some _ => (Failure BucketAlreadyExists, st)
    | None =>
        match os_makedirs flt st bucket_path with
        | None => create_bucket_except flt st bucket_path
        | Some st1 =>
            match db_insert_bucket flt st1 name description user_id now with
            | None => create_bucket_except flt st1 bucket_path
            | Some (doc, st2) => (Success 201 doc, st2)
            end
        end
    end.

Definition delete_bucket (flt : faults) (st : State)
  (current_user : ObjectId) (bucket_name : string)
  : response unit * State :=
  let user_id := current_user in
  match find_bucket (buckets_collection st) bucket_name user_id with
  | None => (Failure BucketNotFound, st)
  | Some bucket =>
      let bucket_id := b_id bucket in
      let bucket_path := bucket_dir user_id bucket_name in
      match db_delete_files_of_bucket flt st bucket_id with
      | None => (Failure ErrorDeletingBucket, st)
      | Some st1 =>
          let removed :=
            if Fs.exists_ (disk st1) bucket_path
            then os_rmtree flt st1 bucket_path
            else Some st1 in
          match removed with
          | None => (Failure ErrorDeletingBucket, st1)
          | Some st2 =>
              match db_delete_bucket flt st2 bucket_id with
              | None => (Failure ErrorDeletingBucket, st2)
              | Some st3 => (Success 200 tt, st3)
              end
          end
      end
  end.

(** [file.content_type or "application/octet-stream"] *)
Definition stored_content_type (content_type : option string) : string :=
  match content_type with
  | Some ct => if Py.falsy ct then "application/octet-stream" else ct
  | None => "application/octet-stream"
  end.

(** The [except Exception] block of [upload_file], entered in state [st]:
    the file is removed if it is there, then 500 is raised.  An exception
    of [os.remove] itself leaves the handler uncaught. *)
Definition upload_file_except (flt : faults) (st : State)
  (file_path : string) : response FileDoc * State :=
  if Fs.exists_ (disk st) file_path then
    match os_remove flt st file_path with
    | Some st' => (Failure ErrorUploadingFile, st')
    | None => (Failure InternalServerError, st)
    end
  else (Failure ErrorUploadingFile, st).

(** [os.path.join(bucket_path, file.filename)] *)
Definition upload_path (user_id : ObjectId) (bucket_name filename : string)
  : string :=
  Py.path_join (bucket_dir user_id bucket_name) filename.

Definition upload_file (flt : faults) (now : string) (st : State)
  (current_user : ObjectId) (bucket_name filename : string)
  (content_type : option string) (file_content : list Byte.byte)
  : response FileDoc * State :=
  let user_id := current_user in
  match find_bucket (buckets_collection st) bucket_name user_id with
  | None => (Failure BucketNotFound, st)
  | Some bucket =>
      let file_size := Z.of_nat (List.length file_content) in
      match check_storage_limit (files_collection st) (str_oid user_id)
              file_size with
      | None => (Failure InternalServerError, st)
      | Some false => (Failure StorageLimitExceeded, st)
      | Some true =>
          let bucket_id := b_id bucket in
          let file_path := upload_path user_id bucket_name filename in
          if Fs.exists_ (disk st) file_path then
            (Failure FileAlreadyExists, st)
          else
            match os_write flt st file_path file_content with
            | (st1, false) => upload_file_except flt st1 file_path
            | (st1, true) =>
                match db_insert_file flt st1 filename bucket_id bucket_name
                        user_id file_size
                        (stored_content_type content_type) now file_path with
                | None => upload_file_except flt st1 file_path
                | Some (doc, st2) =>
                    match db_inc_bucket_stats flt st2 bucket_id 1 file_size with
                    | None => upload_file_except flt st2 file_path
                    | Some st3 => (Success 200 doc, st3)
                    end
                end
            end
      end
  end.

(** The path both [download_file] and [delete_file] use:
    [file_doc.get("file_path") or os.path.join(...)]. *)
Definition stored_path (file_doc : FileDoc) (user_id : ObjectId)
  (bucket_name filename : string) : string :=
  if Py.falsy (f_file_path file_doc)
  then Py.path_join (bucket_dir user_id bucket_name) filename
  else f_file_path file_doc.

(** The body is what the [FileResponse] streams from [file_path]. *)
Definition download_file (st : State) (current_user : ObjectId)
  (bucket_name filename : string) : response (list Byte.byte) :=
  let user_id := current_user in
  match find_bucket (buckets_collection st) bucket_name user_id with
  | None => Failure BucketNotFound
  | Some bucket =>
      let bucket_id := b_id bucket in
      match find_file (files_collection st) bucket_id filename with
      | None => Failure FileNotFound
      | Some file_doc =>
          let file_path := stored_path file_doc user_id bucket_name filename in
          if negb (Fs.exists_ (disk st) file_path) then
            Failure FileNotFoundOnDisk
          else
            match Fs.read_file (disk st) file_path with
            | Some data => Success 200 data
            | None => Failure InternalServerError
            end
      end
  end.

Definition delete_file (flt : faults) (st : State)
  (current_user : ObjectId) (bucket_name filename : string)
  : response unit * State :=
  let user_id := current_user in
  match find_bucket (buckets_collection st) bucket_name user_id with
  | None => (Failure BucketNotFound, st)
  | Some bucket =>
      let bucket_id := b_id bucket in
      match find_file (files_collection st) bucket_id filename with
      | None => (Failure FileNotFound, st)
      | Some file_doc =>
          let file_path := stored_path file_doc user_id bucket_name filename in
          let from_disk : option (Z * State) :=
            if Fs.exists_ (disk st) file_path then
              match Fs.getsize (disk st) file_path with
              | Some file_size =>
                  match os_remove flt st file_path with
                  | Some st1 => Some (file_size, st1)
                  | None => None
                  end
              | None => None
              end
            else Some (f_size file_doc, st) in
          match from_disk with
          | None => (Failure ErrorDeletingFile, st)
          | Some (file_size, st1) =>
              match db_delete_file flt st1 (f_id file_doc) with
              | None => (Failure ErrorDeletingFile, st1)
              | Some st2 =>
                  match db_inc_bucket_stats flt st2 bucket_id (-1)
                          (- file_size) with
                  | None => (Failure ErrorDeletingFile, st2)
                  | Some st3 => (Success 200 tt, st3)
                  end
              end
          end
      end
  end.

(** An installation before its first request: empty collections, and the
    storage directory that [Path(STORAGE_PATH).mkdir(parents=True,
    exist_ok=True)] made when the module was loaded. *)
Definition initial_disk : Fs.node :=
  Fs.Dir [("app", Fs.Dir [("storage", Fs.Dir [])])].

Definition initial_state : State := mkState [] [] initial_disk 0%N.

(** ** Notions the properties are stated with *)

(** The owner's current usage: the sizes of the file records of
    [user_id], added up. *)
Fixpoint current_usage (fs : list FileDoc) (user_id : ObjectId) : Z :=
  match fs with
  | [] => 0
  | f :: fs' =>
      (if N.eqb (f_user_id f) user_id then f_size f else 0)
      + current_usage fs' user_id
  end.

(** The quota: 1 GiB. *)
Definition QUOTA_BYTES : Z := 1073741824.

(** [InvalidName]: either of the two 400 answers of [create_bucket]. *)
Definition invalid_name {A} (r : response A) : bool :=
  match r with
  | Failure BucketNameRequired | Failure BucketNameInvalid => true
  | _ => false
  end.

(** A character of the class [[A-Za-z0-9_-]]. *)
Definition pattern_char (c : ascii) : bool :=
  Py.ascii_alnum c || Ascii.eqb c "-" || Ascii.eqb c "_".

(** The name matches [[A-Za-z0-9_-]+]. *)
Definition matches_name_pattern (s : string) : bool :=
  negb (Py.falsy s) && Py.all_chars pattern_char s.

(** A character [create_bucket] lets through: alphanumeric in the sense of
    [str.isalnum], hyphen or underscore. *)
Definition name_char (c : ascii) : bool :=
  Py.char_isalnum c || Ascii.eqb c "-" || Ascii.eqb c "_".

Fixpoint any_char (p : ascii -> bool) (s : string) : bool :=
  match s with
  | EmptyString => false
  | String c s' => p c || any_char p s'
  end.

(** The one-character name U+00E9 (e with acute accent). *)
Definition e_acute : string := String (ascii_of_N 233) EmptyString.

(** What is left of a name once hyphens and underscores are taken out. *)
Definition stripped (name : string) : string :=
  Py.remove_char "_" (Py.remove_char "-" name).

(** The two checks at the head of [create_bucket]. *)
Definition name_rejected (name : string) : bool :=
  (Py.falsy name || Py.falsy (Py.strip name))
  || negb (Py.isalnum (stripped name)).

(** ** Requests and runs *)

Inductive request : Type :=
| CreateBucket (user : ObjectId) (name : string) (description : option string)
| DeleteBucket (user : ObjectId) (bucket_name : string)
| UploadFile (user : ObjectId) (bucket_name filename : string)
    (content_type : option string) (content : list Byte.byte)
| DeleteFile (user : ObjectId) (bucket_name filename : string).

Definition request_user (r : request) : ObjectId :=
  match r with
  | CreateBucket u _ _ | DeleteBucket u _
  | UploadFile u _ _ _ _ | DeleteFile u _ _ => u
  end.

(** The state after request [r], served at time [now] with the backend
    failures [flt]. *)
Definition serve (flt : faults) (now : string) (st : State) (r : request)
  : State :=
  match r with
  | CreateBucket u name d => snd (create_bucket flt now st u name d)
  | DeleteBucket u b => snd (delete_bucket flt st u b)
  | UploadFile u b f ct data => snd (upload_file flt now st u b f ct data)
  | DeleteFile u b f => snd (delete_file flt st u b f)
  end.

(** The states the service can be in: any requests, any backend failures. *)
Inductive reachable : State -> Prop :=
| reachable_initial : reachable initial_state
| reachable_serve (flt : faults) (now : string) (st : State) (r : request) :
    reachable st -> reachable (serve flt now st r).

(** What the handlers keep true of the two collections, whatever fails:
    ids are below the counter, a bucket id stands for one (name, owner),
    and a file record carries the path [upload_file] computes from its
    owner, bucket name and filename, and agrees with its bucket. *)
Definition consistent (bs : list BucketDoc) (fs : list FileDoc)
  (n : ObjectId) : Prop :=
  (forall b, In b bs -> (b_id b < n)%N) /\
  (forall b1 b2, In b1 bs -> In b2 bs -> b_id b1 = b_id b2 ->
                 b_name b1 = b_name b2 /\ b_user_id b1 = b_user_id b2) /\
  (forall f, In f fs ->
     (f_bucket_id f < n)%N /\
     f_file_path f = upload_path (f_user_id f) (f_bucket_name f) (f_filename f) /\
     forall b, In b bs -> b_id b = f_bucket_id f ->
               b_name b = f_bucket_name f /\ b_user_id b = f_user_id f).

Definition same_key (b b' : BucketDoc) : Prop :=
  b_id b' = b_id b /\ b_name b' = b_name b /\ b_user_id b' = b_user_id b.

Definition consistent_state (st : State) : Prop :=
  consistent (buckets_collection st) (files_collection st) (next_oid st).

(** ** The counters of a bucket and the records that refer to it *)

(** The number of file records whose [bucket_id] is [id]. *)
Fixpoint count_files (fs : list FileDoc) (id : ObjectId) : Z :=
  match fs with
  | [] => 0
  | f :: fs' => (if N.eqb (f_bucket_id f) id then 1 else 0) + count_files fs' id
  end.

(** The sum of their [size] fields. *)
Fixpoint sum_sizes (fs : list FileDoc) (id : ObjectId) : Z :=
  match fs with
  | [] => 0
  | f :: fs' =>
      (if N.eqb (f_bucket_id f) id then f_size f else 0) + sum_sizes fs' id
  end.

(** Invariant I1. *)
Definition I1 (st : State) : Prop :=
  forall b, In b (buckets_collection st) ->
    b_file_count b = count_files (files_collection st) (b_id b) /\
    b_total_size b = sum_sizes (files_collection st) (b_id b).

(** The requests I1 is claimed for. *)
Definition create_upload_delete (r : request) : bool :=
  match r with
  | DeleteBucket _ _ => false
  | _ => true
  end.

(** The backend failures the handlers clean up after: any but a failing
    [os.remove], [shutil.rmtree], [update_one] or [delete_one]. *)
Definition compensated (flt : faults) : Prop :=
  rmtree_raises flt = false /\ remove_raises flt = false /\
  update_one_raises flt = false /\ delete_one_raises flt = false.

(** A request together with the time it is served at and the backend
    failures that hit it. *)
Record served : Type := mkServed {
  sv_faults : faults;
  sv_now : string;
  sv_request : request
}.

Definition run (st : State) (rs : list served) : State :=
  fold_left (fun s x => serve (sv_faults x) (sv_now x) s (sv_request x)) rs st.

(** The runs I1 is proved for: [create_bucket], [upload_file] and
    [delete_file] requests by owners with 12-byte ids, under failures the
    handlers clean up after. *)
Definition admissible (x : served) : Prop :=
  create_upload_delete (sv_request x) = true /\
  valid_oid (request_user (sv_request x)) /\
  compensated (sv_faults x).

(** Location of [STORAGE_PATH]. *)
Definition storage_loc : Fs.location := ["app"; "storage"].

(** Location of the directory of bucket [name] of owner [u]. *)
Definition bucket_loc (u : ObjectId) (name : string) : Fs.location :=
  (storage_loc ++ [str_oid u; name])%list.

(** The location a file record's path resolves to. *)
Definition record_loc (d : Fs.node) (f : FileDoc) : option Fs.location :=
  Fs.resolve d (f_file_path f).

(** What an admissible run keeps true, besides I1: ids are fresh and unique;
    every record has its blob, of the recorded size; no two records share
    a blob; and every bucket directory has its bucket document. *)
Record healthy (st : State) : Prop := mkHealthy {
  h_counters : I1 st;
  h_bucket_ids : NoDup (map b_id (buckets_collection st));
  h_bucket_fresh : forall b, In b (buckets_collection st) ->
                             (b_id b < next_oid st)%N;
  h_file_ids : NoDup (map f_id (files_collection st));
  h_file_fresh : forall f, In f (files_collection st) ->
                   (f_id f < next_oid st)%N /\ (f_bucket_id f < next_oid st)%N;
  h_blobs : forall f, In f (files_collection st) ->
              exists data, Fs.read_file (disk st) (f_file_path f) = Some data /\
                           Z.of_nat (List.length data) = f_size f;
  h_distinct : NoDup (map (record_loc (disk st)) (files_collection st));
  h_dirs : forall u name,
             valid_oid u -> name_rejected name = false ->
             Fs.is_dir (disk st) (bucket_loc u name) = true ->
             find_bucket (buckets_collection st) name u <> None
}.

(** A path component that is a plain name: not [""], ["."] or [".."]. *)
Definition plain (c : string) : Prop :=
  Fs.is_dot c = false /\ Fs.is_dotdot c = false.

(** ** Runs used as examples *)

Definition alice : ObjectId := 1%N.

Definition bytes_of (s : string) : list Byte.byte := list_byte_of_string s.

Definition update_one_fails : faults :=
  mkFaults false false false None false false true false false.

Definition insert_one_fails : faults :=
  mkFaults false false false None false true false false false.

(** [alice] has created the bucket ["docs"]. *)
Definition with_bucket : State :=
  snd (create_bucket no_faults "t0" initial_state alice "docs" None).

(** ... then uploaded five bytes as ["a.txt"]. *)
Definition with_upload : State :=
  snd (upload_file no_faults "t1" with_bucket alice "docs" "a.txt" None
         (bytes_of "hello")).

(** [with_bucket] with the five bytes of ["a.txt"] on disk and no record
    yet. *)
Definition with_upload_written : State :=
  set_disk with_bucket (disk with_upload).

(** From [with_bucket]: [alice] uploaded five bytes as ["a.txt"] while
    [update_one] raised. *)
Definition with_orphan_record : State :=
  snd (upload_file update_one_fails "t1" with_bucket alice "docs" "a.txt"
         None (bytes_of "hello")).

(** ... then uploaded ten bytes as ["a.txt"] again, this time undisturbed. *)
Definition with_second_record : State :=
  snd (upload_file no_faults "t2" with_orphan_record alice "docs" "a.txt"
         None (bytes_of "0123456789")).

(** From [with_orphan_record]: [alice] created the bucket ["other"] and
    uploaded ten bytes into it under the filename ["../docs/a.txt"]. *)
Definition with_crossing_record : State :=
  snd (upload_file no_faults "t3"
         (snd (create_bucket no_faults "t2" with_orphan_record alice "other"
                 None))
         alice "other" "../docs/a.txt" None (bytes_of "0123456789")).

(** ** [app/main.py]: the handlers that only read *)

(** What [list_buckets] and [get_bucket] answer for a bucket document. *)
Record BucketInfo : Type := mkBucketInfo {
  bi_id : string;
  bi_name : string;
  bi_description : option string;
  bi_created_at : string;
  bi_file_count : Z;
  bi_total_size : Z
}.

Definition bucket_info (bucket : BucketDoc) : BucketInfo :=
  mkBucketInfo (str_oid (b_id bucket)) (b_name bucket) (b_description bucket)
    (b_created_at bucket) (b_file_count bucket) (b_total_size bucket).

(** [buckets_collection.find({"user_id": user_id})] *)
Definition buckets_of_user (bs : list BucketDoc) (user_id : ObjectId)
  : list BucketDoc :=
  filter (fun b => N.eqb (b_user_id b) user_id) bs.

Record BucketList : Type := mkBucketList {
  bl_buckets : list BucketInfo;
  bl_count : Z
}.

Definition list_buckets (st : State) (current_user : ObjectId)
  : response BucketList :=
  let user_id := current_user in
  let buckets :=
    map bucket_info (buckets_of_user (buckets_collection st) user_id) in
  Success 200 (mkBucketList buckets (Z.of_nat (List.length buckets))).

Definition get_bucket (st : State) (current_user : ObjectId)
  (bucket_name : string) : response BucketInfo :=
  let user_id := current_user in
  match find_bucket (buckets_collection st) bucket_name user_id with
  | None => Failure BucketNotFound
  | Some bucket => Success 200 (bucket_info bucket)
  end.

(** What [list_files] answers for a file record of the bucket
    [bucket_id]. *)
Record FileInfo : Type := mkFileInfo {
  fi_id : string;
  fi_filename : string;
  fi_bucket_id : string;
  fi_size : Z;
  fi_content_type : string;
  fi_uploaded_at : string
}.

Definition file_info (bucket_id : ObjectId) (file : FileDoc) : FileInfo :=
  mkFileInfo (str_oid (f_id file)) (f_filename file) (str_oid bucket_id)
    (f_size file) (f_content_type file) (f_uploaded_at file).

(** [files_collection.find({"bucket_id": bucket_id})] *)
Definition files_of_bucket (fs : list FileDoc) (bucket_id : ObjectId)
  : list FileDoc :=
  filter (fun f => N.eqb (f_bucket_id f) bucket_id) fs.

Record FileList : Type := mkFileList {
  fl_files : list FileInfo;
  fl_count : Z
}.

Definition list_files (st : State) (current_user : ObjectId)
  (bucket_name : string) : response FileList :=
  let user_id := current_user in
  match find_bucket (buckets_collection st) bucket_name user_id with
  | None => Failure BucketNotFound
  | Some bucket =>
      let bucket_id := b_id bucket in
      let files :=
        map (file_info bucket_id)
          (files_of_bucket (files_collection st) bucket_id) in
      Success 200 (mkFileList files (Z.of_nat (List.length files)))
  end.

(** ** Users, registration and the admin endpoints *)

(** A document of the [users] collection. *)
Record UserDoc : Type := mkUserDoc {
  usr_id : ObjectId;
  usr_username : string;
  usr_email : string;
  usr_hashed_password : string;
  usr_is_admin : bool;
  usr_created_at : string;
  usr_full_name : string
}.

(** The [users] collection and the id its next document gets. *)
Record UserStore : Type := mkUserStore {
  users_collection : list UserDoc;
  next_user_oid : ObjectId
}.

Definition no_users : UserStore := mkUserStore [] 0%N.

(** The [HTTPException]s of registration, authentication and the admin
    endpoints; [UncaughtException] is an exception no handler catches. *)
Inductive auth_error : Type :=
| UsernameAlreadyRegistered
| EmailAlreadyRegistered
| UserAlreadyExists
| IncorrectUsernameOrPassword
| NotEnoughPermissions
| UncaughtException.

Definition auth_status_code (e : auth_error) : Z :=
  match e with
  | UsernameAlreadyRegistered | EmailAlreadyRegistered
  | UserAlreadyExists => 400
  | IncorrectUsernameOrPassword => 401
  | NotEnoughPermissions => 403
  | UncaughtException => 500
  end.

Inductive auth_response (A : Type) : Type :=
| Granted (status : Z) (body : A)
| Denied (e : auth_error).

Arguments Granted {A} status body.
Arguments Denied {A} e.

Definition auth_http_status {A} (r : auth_response A) : Z :=
  match r with
  | Granted s _ => s
  | Denied e => auth_status_code e
  end.

(** [users_collection.find_one({"username": username})] *)
Definition get_user_by_username (us : list UserDoc) (username : string)
  : option UserDoc :=
  find (fun x => String.eqb (usr_username x) username) us.

(** [users_collection.find_one({"email": email})] *)
Definition get_user_by_email (us : list UserDoc) (email : string)
  : option UserDoc :=
  find (fun x => String.eqb (usr_email x) email) us.

(** What [users_collection.insert_one] does under the two unique indexes
    [create_index("username", unique=True)] and
    [create_index("email", unique=True)]. *)
Inductive users_insert_result : Type :=
| UserInserted (doc : UserDoc) (us : UserStore)
| DuplicateKeyError
| InsertRaised.

Definition users_insert_one (flt : faults) (us : UserStore)
  (username email hashed_password : string) (is_admin : bool)
  (created_at full_name : string) : users_insert_result :=
  if insert_one_raises flt then InsertRaised
  else
    match get_user_by_username (users_collection us) username,
          get_user_by_email (users_collection us) email with
    | None, None =>
        let doc := mkUserDoc (next_user_oid us) username email hashed_password
                     is_admin created_at full_name in
        UserInserted doc
          (mkUserStore (users_collection us ++ [doc])
             (N.succ (next_user_oid us)))
    | _, _ => DuplicateKeyError
    end.

(** [get_current_admin_user]: the 403 of the admin endpoints. *)
Definition get_current_admin_user (current_user : UserDoc)
  : auth_error + UserDoc :=
  if negb (usr_is_admin current_user) then inl NotEnoughPermissions
  else inr current_user.

(** The body of [register]'s 201 answer. *)
Record Registered : Type := mkRegistered {
  rg_user_id : string;
  rg_username : string
}.

(** [full_name or username] *)
Definition stored_full_name (full_name : option string) (username : string)
  : string :=
  match full_name with
  | Some n => if Py.falsy n then username else n
  | None => username
  end.

Section Bcrypt.

(** [bcrypt.hashpw(password, salt)] and [bcrypt.checkpw(password, hashed)],
    on the UTF-8 encodings; [checkpw] is [false] where the library
    raises. *)
Variable hashpw : string -> string -> string.
Variable checkpw : string -> string -> bool.

Definition verify_password (plain_password hashed_password : string) : bool :=
  checkpw plain_password hashed_password.

(** [salt] is what [bcrypt.gensalt()] returns in this call. *)
Definition get_password_hash (salt : string) (password : string) : string :=
  hashpw password salt.

(** [None] is the [False] of the source. *)
Definition authenticate_user (us : list UserDoc) (username password : string)
  : option UserDoc :=
  match get_user_by_username us username with
  | None => None
  | Some user =>
      if negb (verify_password password (usr_hashed_password user)) then None
      else Some user
  end.

(** The startup hook; [None] when [insert_one] raises, which nothing
    catches. *)
Definition init_admin (flt : faults) (now salt : string) (us : UserStore)
  : option UserStore :=
  match get_user_by_username (users_collection us) "admin" with
  | Some _ => Some us
  | None =>
      match users_insert_one flt us "admin" "admin@example.com"
              (get_password_hash salt "admin123") true now
              "Administrator" with
      | UserInserted _ us' => Some us'
      | DuplicateKeyError | InsertRaised => None
      end
  end.

Definition register (flt : faults) (now salt : string) (us : UserStore)
  (username email password : string) (full_name : option string)
  : auth_response Registered * UserStore :=
  match get_user_by_username (users_collection us) username with
  | Some _ => (Denied UsernameAlreadyRegistered, us)
  | None =>
      match get_user_by_email (users_collection us) email with
      | Some _ => (Denied EmailAlreadyRegistered, us)
      | None =>
          match users_insert_one flt us username email
                  (get_password_hash salt password) false now
                  (stored_full_name full_name username) with
          | UserInserted doc us' =>
              (Granted 201 (mkRegistered (str_oid (usr_id doc)) username), us')
          | DuplicateKeyError => (Denied UserAlreadyExists, us)
          | InsertRaised => (Denied UncaughtException, us)
          end
      end
  end.

(** What the users collection goes through: the startup hook and
    registrations. *)
Inductive user_request : Type :=
| Startup
| Register (username email password : string) (full_name : option string).

Definition serve_user (flt : faults) (now salt : string) (us : UserStore)
  (r : user_request) : UserStore :=
  match r with
  | Startup =>
      match init_admin flt now salt us with
      | Some us' => us'
      | None => us
      end
  | Register username email password full_name =>
      snd (register flt now salt us username email password full_name)
  end.

Inductive reachable_users : UserStore -> Prop :=
| reachable_no_users : reachable_users no_users
| reachable_serve_user flt now salt us r :
    reachable_users us -> reachable_users (serve_user flt now salt us r).

End Bcrypt.

(** The fields of [get_current_user_info]'s answer that are not floating
    point numbers. *)
Record UserInfo : Type := mkUserInfo {
  ui_id : string;
  ui_username : string;
  ui_email : string;
  ui_is_admin : bool;
  ui_full_name : string;
  ui_storage_used : Z;
  ui_storage_limit : Z
}.

Definition get_current_user_info (st : State) (current_user : UserDoc)
  : auth_response UserInfo :=
  match get_user_storage_usage (files_collection st)
          (str_oid (usr_id current_user)) with
  | None => Denied UncaughtException
  | Some storage_used =>
      Granted 200
        (mkUserInfo (str_oid (usr_id current_user)) (usr_username current_user)
           (usr_email current_user) (usr_is_admin current_user)
           (usr_full_name current_user) storage_used STORAGE_LIMIT_BYTES)
  end.

(** The integer fields of [get_admin_stats]'s answer. *)
Record AdminStats : Type := mkAdminStats {
  total_users : Z;
  total_buckets : Z;
  total_files : Z;
  total_storage_bytes : Z
}.

(** The pipeline [$group _id: None, $sum size] over the whole collection,
    [0] when it has no result. *)
Definition sum_all_sizes (fs : list FileDoc) : Z :=
  fold_left (fun acc f => acc + f_size f) fs 0.

Definition get_admin_stats (us : UserStore) (st : State)
  (current_user : UserDoc) : auth_response AdminStats :=
  match get_current_admin_user current_user with
  | inl e => Denied e
  | inr _ =>
      Granted 200
        (mkAdminStats
           (Z.of_nat (List.length (users_collection us)))
           (Z.of_nat (List.length (buckets_collection st)))
           (Z.of_nat (List.length (files_collection st)))
           (sum_all_sizes (files_collection st)))
  end.

(** ** Notions the further properties are stated with *)

Definition sum_Z (l : list Z) : Z := fold_right Z.add 0 l.

(** What identifies a bucket to its owner, and a file within a bucket. *)
Definition bucket_key (b : BucketDoc) : ObjectId * string :=
  (b_user_id b, b_name b).

Definition file_key (f : FileDoc) : ObjectId * string :=
  (f_bucket_id f, f_filename f).

(** The documents of the two collections that belong to other owners
    than [u]. *)
Definition buckets_of_others (u : ObjectId) (bs : list BucketDoc)
  : list BucketDoc :=
  filter (fun b => negb (N.eqb (b_user_id b) u)) bs.

Definition files_of_others (u : ObjectId) (fs : list FileDoc)
  : list FileDoc :=
  filter (fun f => negb (N.eqb (f_user_id f) u)) fs.

(** The statuses by which a handler turns a request down. *)
Definition client_error (s : Z) : bool :=
  (s =? 400) || (s =? 404) || (s =? 409) || (s =? 413).

(** A request of an owner with a 12-byte id. *)
Definition valid_request (x : served) : Prop :=
  valid_oid (request_user (sv_request x)).

(** Every file record has its bucket document. *)
Definition records_have_buckets (st : State) : Prop :=
  forall f, In f (files_collection st) ->
    exists b, In b (buckets_collection st) /\ b_id b = f_bucket_id f.

(** What every reachable state satisfies, besides [consistent_state]:
    ids are unique and below the counter, no owner has two buckets of one
    name, sizes are not negative, and every file record has its bucket
    document. *)
Record wellformed (st : State) : Prop := mkWellformed {
  wf_consistent : consistent_state st;
  wf_bucket_ids : NoDup (map b_id (buckets_collection st));
  wf_file_ids : NoDup (map f_id (files_collection st));
  wf_file_fresh : forall f, In f (files_collection st) ->
                            (f_id f < next_oid st)%N;
  wf_names : NoDup (map bucket_key (buckets_collection st));
  wf_sizes : forall f, In f (files_collection st) -> 0 <= f_size f;
  wf_buckets : records_have_buckets st
}.

(** The status a request is answered with. *)
Definition answer (flt : faults) (now : string) (st : State) (r : request)
  : Z :=
  match r with
  | CreateBucket u name d => http_status (fst (create_bucket flt now st u name d))
  | DeleteBucket u b => http_status (fst (delete_bucket flt st u b))
  | UploadFile u b f ct data =>
      http_status (fst (upload_file flt now st u b f ct data))
  | DeleteFile u b f => http_status (fst (delete_file flt st u b f))
  end.

(** ** Stores and stand-ins used as examples *)

Definition bob : ObjectId := 2%N.

(** A stand-in for [bcrypt] in examples: the hash is the salt followed by
    the password, and a password matches a hash that ends with it. *)
Definition example_hashpw (password salt : string) : string :=
  (salt ++ password)%string.

Definition example_checkpw (password hashed : string) : bool :=
  String.eqb
    (substring (String.length hashed - String.length password)
       (String.length password) hashed)
    password.

(** The users collection after startup and the registration of ["carol"]. *)
Definition with_admin : UserStore :=
  serve_user example_hashpw no_faults "t0" "s0" no_users Startup.

Definition with_carol : UserStore :=
  serve_user example_hashpw no_faults "t1" "s1" with_admin
    (Register "carol" "carol@example.com" "secret" None).

(** [alice] creates ["docs"] and uploads ["a.txt"]; [bob] creates ["pics"]
    and uploads ["x.png"], first with a failing [insert_one], then
    undisturbed, and ["y.png"]. *)
Definition example_run : list served :=
  [mkServed no_faults "t0" (CreateBucket alice "docs" None);
   mkServed no_faults "t1"
     (UploadFile alice "docs" "a.txt" None (bytes_of "hello"));
   mkServed no_faults "t2" (CreateBucket bob "pics" (Some "pictures"));
   mkServed insert_one_fails "t3"
     (UploadFile bob "pics" "x.png" (Some "image/png") (bytes_of "png"));
   mkServed no_faults "t4"
     (UploadFile bob "pics" "x.png" (Some "image/png") (bytes_of "png"));
   mkServed no_faults "t5"
     (UploadFile bob "pics" "y.png" None (bytes_of "0123456789"))].

Definition after_example_run : State := run initial_state example_run.

Definition bob_doc : UserDoc :=
  mkUserDoc bob "bob" "bob@example.com" "s2secret" false "t0" "bob".

Definition admin_doc : UserDoc :=
  mkUserDoc 0%N "admin" "admin@example.com" "s0admin123" true "t0"
    "Administrator".

(** * Properties *)

(** ** Lemmas on the disk *)

Module FsFacts.
Import Fs.
#[local] Open Scope list_scope.

Lemma assoc_put_same k v es : assoc k (put k v es) = Some v.
Proof.
  induction es as [|[k' v'] es IH]; simpl.
  - now rewrite String.eqb_refl.
  - destruct (String.eqb k k') eqn:E; simpl; rewrite ?String.eqb_refl, ?E; auto.
Qed.

Lemma assoc_put_other k k' v es :
  k' <> k -> assoc k' (put k v es) = assoc k' es.
Proof.
  intros Hne. induction es as [|[k0 v0] es IH]; simpl.
  - destruct (String.eqb_spec k' k); congruence.
  - destruct (String.eqb_spec k k0) as [->|Hk]; simpl.
    + destruct (String.eqb_spec k' k0); congruence.
    + destruct (String.eqb_spec k' k0); auto.
Qed.

Lemma assoc_drop_same k es : assoc k (drop k es) = None.
Proof.
  induction es as [|[k' v'] es IH]; simpl; auto.
  destruct (String.eqb k k') eqn:E; simpl; rewrite ?E; auto.
Qed.

Lemma assoc_drop_other k k' es :
  k' <> k -> assoc k' (drop k es) = assoc k' es.
Proof.
  intros Hne. induction es as [|[k0 v0] es IH]; simpl; auto.
  destruct (String.eqb_spec k k0) as [->|Hk]; simpl.
  - destruct (String.eqb_spec k' k0); congruence.
  - destruct (String.eqb_spec k' k0); auto.
Qed.

Lemma lookup_app root p r :
  lookup root (p ++ r) =
  match lookup root p with
  | Some n => lookup n r
  | None => None
  end.
Proof.
  revert root. induction p as [|c p IH]; intros root; simpl; auto.
  destruct root as [d|es]; auto.
  destruct (assoc c es); auto.
Qed.

Lemma lookup_app_none root p r :
  lookup root p = None -> lookup root (p ++ r) = None.
Proof. intros H. now rewrite lookup_app, H. Qed.

Lemma lookup_below_file root p d r :
  lookup root p = Some (File d) -> r <> [] -> lookup root (p ++ r) = None.
Proof.
  intros H Hr. rewrite lookup_app, H. destruct r; [congruence | reflexivity].
Qed.

Lemma set_at_cons es c t v :
  t <> [] ->
  set_at (Dir es) (c :: t) v =
  match assoc c es with
  | Some m => Dir (put c (set_at m t v) es)
  | None => Dir es
  end.
Proof. destruct t; [congruence | reflexivity]. Qed.

(** What [set_at] leaves at the location it was asked to change. *)
Lemma lookup_set_at_same root p c v :
  is_dir root p = true ->
  lookup (set_at root (p ++ [c]) v) (p ++ [c]) = v.
Proof.
  revert root. induction p as [|c0 p IH]; intros root Hd.
  - unfold is_dir in Hd. simpl in Hd. destruct root as [d|es]; [discriminate|].
    simpl. destruct v as [x|]; simpl.
    + now rewrite assoc_put_same.
    + now rewrite assoc_drop_same.
  - unfold is_dir in Hd. simpl in Hd. destruct root as [d|es]; [discriminate|].
    destruct (assoc c0 es) as [m|] eqn:Em; [|discriminate].
    change ((c0 :: p) ++ [c]) with (c0 :: (p ++ [c])).
    rewrite set_at_cons by (destruct p; discriminate).
    rewrite Em. simpl lookup at 1. rewrite assoc_put_same.
    apply IH. unfold is_dir. exact Hd.
Qed.

Lemma lookup_set_at_none root q :
  q <> [] -> lookup (set_at root q None) q = None.
Proof.
  revert root. induction q as [|c q IH]; intros root Hq; [congruence|].
  destruct root as [d|es]; simpl; auto.
  destruct q as [|c1 t].
  - simpl. now rewrite assoc_drop_same.
  - destruct (assoc c es) as [m|] eqn:Em.
    + simpl. rewrite assoc_put_same. apply IH. discriminate.
    + simpl. now rewrite Em.
Qed.

(** A regular file that does not lie at or below [q] is untouched. *)
Lemma lookup_set_at_file root q v q' d :
  lookup root q' = Some (File d) ->
  (forall r, q' <> q ++ r) ->
  lookup (set_at root q v) q' = Some (File d).
Proof.
  revert root q. induction q' as [|c' t' IH]; intros root q Hl Hpre.
  - simpl in Hl. injection Hl as ->. destruct q; reflexivity.
  - destruct root as [d0|es]; [discriminate|].
    simpl in Hl. destruct (assoc c' es) as [m|] eqn:Em; [|discriminate].
    destruct q as [|c t].
    + exfalso. apply (Hpre (c' :: t')). reflexivity.
    + destruct t as [|c1 t1].
      * assert (c' <> c) as Hne.
        { intros ->. apply (Hpre t'). reflexivity. }
        destruct v as [x|]; simpl.
        -- rewrite assoc_put_other by exact Hne. now rewrite Em.
        -- rewrite assoc_drop_other by exact Hne. now rewrite Em.
      * rewrite set_at_cons by discriminate.
        destruct (assoc c es) as [m0|] eqn:Em0.
        -- cbn [lookup]. destruct (String.eqb_spec c' c) as [->|Hne].
           ++ rewrite assoc_put_same.
              assert (m0 = m) as -> by congruence.
              apply IH; auto.
              intros r Hr. apply (Hpre r). simpl. now rewrite Hr.
           ++ rewrite assoc_put_other by exact Hne. now rewrite Em.
        -- cbn [lookup]. now rewrite Em.
Qed.

(** Creating, truncating or unlinking a regular file changes no
    directory. *)
Lemma is_dir_set_at_file root q v p :
  not_dir (lookup root q) -> not_dir v ->
  is_dir (set_at root q v) p = is_dir root p.
Proof.
  revert root p. induction q as [|c t IH]; intros root p Hq Hv; [reflexivity|].
  destruct root as [d|es]; [reflexivity|].
  destruct t as [|c1 t1].
  - simpl in Hq. simpl set_at.
    destruct p as [|c' p'].
    + destruct v; reflexivity.
    + unfold is_dir.
      destruct (String.eqb_spec c' c) as [->|Hne].
      * destruct v as [x|]; simpl.
        -- rewrite assoc_put_same.
           destruct x as [dx|ex]; [|contradiction].
           destruct (assoc c es) as [[d0|e0]|]; try contradiction;
             destruct p'; reflexivity.
        -- rewrite assoc_drop_same.
           destruct (assoc c es) as [[d0|e0]|]; try contradiction;
             destruct p'; reflexivity.
      * destruct v as [x|]; simpl.
        -- now rewrite assoc_put_other.
        -- now rewrite assoc_drop_other.
  - rewrite set_at_cons by discriminate.
    cbn [lookup] in Hq.
    destruct (assoc c es) as [m|] eqn:Em; [|reflexivity].
    destruct p as [|c' p']; [reflexivity|].
    unfold is_dir. cbn [lookup].
    destruct (String.eqb_spec c' c) as [->|Hne].
    + rewrite assoc_put_same, Em.
      specialize (IH m p' Hq Hv). unfold is_dir in IH. exact IH.
    + now rewrite assoc_put_other.
Qed.

(** Binding a missing location keeps every directory. *)
Lemma is_dir_set_at_new root q v p :
  lookup root q = None ->
  is_dir root p = true -> is_dir (set_at root q v) p = true.
Proof.
  revert root p. induction q as [|c t IH]; intros root p Hq Hp; [exact Hp|].
  destruct root as [d|es]; [exact Hp|].
  destruct t as [|c1 t1].
  - simpl in Hq. simpl set_at.
    destruct p as [|c' p'].
    + destruct v; reflexivity.
    + unfold is_dir in *. simpl in Hp.
      destruct (String.eqb_spec c' c) as [->|Hne].
      * destruct (assoc c es); discriminate.
      * destruct v as [x|]; simpl.
        -- now rewrite assoc_put_other.
        -- now rewrite assoc_drop_other.
  - rewrite set_at_cons by discriminate.
    cbn [lookup] in Hq.
    destruct (assoc c es) as [m|] eqn:Em; [|exact Hp].
    destruct p as [|c' p']; [reflexivity|].
    unfold is_dir in *. cbn [lookup] in *.
    destruct (String.eqb_spec c' c) as [->|Hne].
    + rewrite assoc_put_same. rewrite Em in Hp.
      exact (IH m p' Hq Hp).
    + now rewrite assoc_put_other.
Qed.

Lemma is_dir_removelast root p :
  is_dir root p = true -> is_dir root (removelast p) = true.
Proof.
  unfold is_dir. destruct p as [|c p] using rev_ind; [auto|].
  rewrite removelast_last, lookup_app.
  destruct (lookup root p) as [[d|es]|]; simpl; auto; discriminate.
Qed.

Lemma walk_ext root root' cur comps :
  (forall p, is_dir root' p = is_dir root p) ->
  walk root' cur comps = walk root cur comps.
Proof.
  intros H. revert cur. induction comps as [|c rest IH]; intros cur; simpl; auto.
  rewrite H. destruct (is_dir root cur); auto.
  destruct (is_dot c); auto. destruct (is_dotdot c); auto.
Qed.

Lemma walk_mono root root' cur comps q :
  (forall p, is_dir root p = true -> is_dir root' p = true) ->
  walk root cur comps = Some q -> walk root' cur comps = Some q.
Proof.
  intros H. revert cur. induction comps as [|c rest IH]; intros cur; simpl; auto.
  destruct (is_dir root cur) eqn:E; [|discriminate].
  rewrite (H _ E). destruct (is_dot c); auto. destruct (is_dotdot c); auto.
Qed.

(** Where a walk can end: on a directory, or on a name inside one. *)
Lemma walk_end root cur comps q :
  comps <> [] -> walk root cur comps = Some q ->
  is_dir root q = true \/
  exists p c, q = p ++ [c] /\ is_dir root p = true.
Proof.
  revert cur. induction comps as [|c rest IH]; intros cur Hne Hw; [congruence|].
  simpl in Hw. destruct (is_dir root cur) eqn:Ed; [|discriminate].
  destruct rest as [|c1 rest1].
  - destruct (is_dot c); [|destruct (is_dotdot c)]; simpl in Hw;
      injection Hw as <-.
    + now left.
    + left. now apply is_dir_removelast.
    + right. now exists cur, c.
  - destruct (is_dot c); [|destruct (is_dotdot c)];
      (eapply IH; [discriminate | exact Hw]).
Qed.

Lemma split_sep_nonempty s : Py.split_sep s <> [].
Proof.
  destruct s as [|c s]; simpl; [discriminate|].
  destruct (Ascii.eqb c "/"); [discriminate|].
  destruct (Py.split_sep s); discriminate.
Qed.

Lemma resolve_end root s q :
  resolve root s = Some q ->
  is_dir root q = true \/
  exists p c, q = p ++ [c] /\ is_dir root p = true.
Proof.
  unfold resolve. destruct (Py.falsy s); [discriminate|].
  apply walk_end, split_sep_nonempty.
Qed.

Lemma resolve_ext root root' s :
  (forall p, is_dir root' p = is_dir root p) ->
  resolve root' s = resolve root s.
Proof.
  intros H. unfold resolve. destruct (Py.falsy s); auto. now apply walk_ext.
Qed.

Lemma resolve_mono root root' s q :
  (forall p, is_dir root p = true -> is_dir root' p = true) ->
  resolve root s = Some q -> resolve root' s = Some q.
Proof.
  intros H. unfold resolve. destruct (Py.falsy s); [discriminate|].
  now apply walk_mono.
Qed.

End FsFacts.

(** ** The disk calls of the handlers *)

Module DiskCalls.
Import Fs FsFacts.
#[local] Open Scope list_scope.

Lemma exists_false_lookup root s q :
  exists_ root s = false -> resolve root s = Some q -> lookup root q = None.
Proof.
  unfold exists_, present. intros H Hr. rewrite Hr in H.
  destruct (lookup root q); [discriminate | reflexivity].
Qed.

(** A successful [open(s, "wb")] binds a name inside a directory. *)
Lemma write_file_inv root s data root' :
  write_file root s data = Some root' ->
  exists p c,
    resolve root s = Some (p ++ [c]) /\ is_dir root p = true /\
    not_dir (lookup root (p ++ [c])) /\
    root' = set_at root (p ++ [c]) (Some (File data)).
Proof.
  unfold write_file. intros H.
  destruct (resolve root s) as [q|] eqn:Hr; [|discriminate].
  destruct (resolve_end _ _ _ Hr) as [Hd | (p & c & -> & Hp)].
  - unfold is_dir in Hd. destruct (lookup root q) as [[d|es]|]; discriminate.
  - exists p, c. repeat split; auto.
    + destruct (lookup root (p ++ [c])) as [[d|es]|]; simpl; auto; discriminate.
    + destruct (lookup root (p ++ [c])) as [[d|es]|]; congruence.
Qed.

Lemma write_file_resolve root s data root' s' :
  write_file root s data = Some root' -> resolve root' s' = resolve root s'.
Proof.
  intros H. destruct (write_file_inv _ _ _ _ H) as (p & c & Hr & Hp & Hn & ->).
  apply resolve_ext. intros p0. now apply is_dir_set_at_file.
Qed.

Lemma write_file_read root s data root' :
  write_file root s data = Some root' -> read_file root' s = Some data.
Proof.
  intros H. unfold read_file. rewrite (write_file_resolve _ _ _ _ s H).
  destruct (write_file_inv _ _ _ _ H) as (p & c & Hr & Hp & Hn & ->).
  rewrite Hr, lookup_set_at_same by exact Hp. reflexivity.
Qed.

Lemma read_file_exists root s data :
  read_file root s = Some data -> exists_ root s = true.
Proof.
  unfold read_file, exists_, present.
  destruct (resolve root s) as [q|]; [|discriminate].
  destruct (lookup root q); [reflexivity | discriminate].
Qed.

Lemma write_file_exists root s data root' :
  write_file root s data = Some root' -> exists_ root' s = true.
Proof. intros H. eapply read_file_exists, write_file_read, H. Qed.

(** The blob of a record elsewhere on the disk keeps its bytes. *)
Lemma write_file_read_other root s data root' s' data' :
  write_file root s data = Some root' ->
  exists_ root s = false ->
  read_file root s' = Some data' -> read_file root' s' = Some data'.
Proof.
  intros H He Hrd. unfold read_file in *.
  rewrite (write_file_resolve _ _ _ _ s' H).
  destruct (write_file_inv _ _ _ _ H) as (p & c & Hr & Hp & Hn & ->).
  destruct (resolve root s') as [q'|]; [|discriminate].
  destruct (lookup root q') as [[d|es]|] eqn:Hl; try discriminate.
  injection Hrd as ->.
  rewrite (lookup_set_at_file _ _ _ _ data' Hl); [reflexivity|].
  intros r ->. rewrite lookup_app_none in Hl; [discriminate|].
  eapply exists_false_lookup; eauto.
Qed.

Lemma remove_inv root s root' :
  remove root s = Some root' ->
  exists q d, resolve root s = Some q /\ lookup root q = Some (File d) /\
              q <> [] /\ root' = set_at root q None.
Proof.
  unfold remove, is_file. intros H.
  destruct (resolve root s) as [q|] eqn:Hr; [|discriminate].
  destruct (lookup root q) as [[d|es]|] eqn:Hl; try discriminate.
  injection H as <-. exists q, d. repeat split; auto.
  intros ->. destruct (resolve_end _ _ _ Hr) as [Hd | (p & c & Hq & _)].
  - unfold is_dir in Hd. rewrite Hl in Hd. discriminate.
  - destruct p; discriminate.
Qed.

Lemma remove_resolve root s root' s' :
  remove root s = Some root' -> resolve root' s' = resolve root s'.
Proof.
  intros H. destruct (remove_inv _ _ _ H) as (q & d & Hr & Hl & Hq & ->).
  apply resolve_ext. intros p. apply is_dir_set_at_file; simpl; auto.
  now rewrite Hl.
Qed.

Lemma remove_exists root s root' :
  remove root s = Some root' -> exists_ root' s = false.
Proof.
  intros H. unfold exists_, present. rewrite (remove_resolve _ _ _ s H).
  destruct (remove_inv _ _ _ H) as (q & d & Hr & Hl & Hq & ->).
  rewrite Hr, lookup_set_at_none by exact Hq. reflexivity.
Qed.

(** A regular file can always be unlinked. *)
Lemma remove_of_file root s data :
  read_file root s = Some data -> remove root s <> None.
Proof.
  unfold read_file, remove, is_file.
  destruct (resolve root s) as [q|]; [|discriminate].
  destruct (lookup root q) as [[d|es]|]; discriminate.
Qed.

Lemma remove_read_other root s root' s' data' :
  remove root s = Some root' ->
  read_file root s' = Some data' ->
  resolve root s' <> resolve root s ->
  read_file root' s' = Some data'.
Proof.
  intros H Hrd Hne. unfold read_file in *.
  rewrite (remove_resolve _ _ _ s' H).
  destruct (remove_inv _ _ _ H) as (q & d & Hr & Hl & Hq & ->).
  destruct (resolve root s') as [q'|]; [|discriminate].
  destruct (lookup root q') as [[d'|es]|] eqn:Hl'; try discriminate.
  injection Hrd as ->.
  rewrite (lookup_set_at_file _ _ _ _ data' Hl'); [reflexivity|].
  intros r ->. destruct r as [|c r].
  - rewrite app_nil_r in Hne. congruence.
  - rewrite (lookup_below_file _ _ _ _ Hl) in Hl'; discriminate.
Qed.

Lemma getsize_of_file root s data :
  read_file root s = Some data ->
  getsize root s = Some (Z.of_nat (List.length data)).
Proof.
  unfold read_file, getsize.
  destruct (resolve root s) as [q|]; [|discriminate].
  destruct (lookup root q) as [[d|es]|]; try discriminate.
  now intros [= ->].
Qed.

End DiskCalls.

(** ** Lemmas on strings and object ids *)

Module StrFacts.

Lemma length_app (s t : string) :
  String.length (s ++ t) = (String.length s + String.length t)%nat.
Proof. induction s as [|c s IH]; simpl; auto. Qed.

Lemma append_assoc (s t r : string) : ((s ++ t) ++ r = s ++ (t ++ r))%string.
Proof. induction s as [|c s IH]; simpl; congruence. Qed.

Lemma all_chars_app p (s t : string) :
  Py.all_chars p (s ++ t) = Py.all_chars p s && Py.all_chars p t.
Proof.
  induction s as [|c s IH]; simpl; auto. rewrite IH. now rewrite andb_assoc.
Qed.

Lemma all_chars_impl (p q : ascii -> bool) s :
  (forall c, p c = true -> q c = true) ->
  Py.all_chars p s = true -> Py.all_chars q s = true.
Proof.
  intros Hpq. induction s as [|c s IH]; simpl; auto.
  intros H. apply andb_prop in H as [H1 H2]. rewrite (Hpq _ H1). auto.
Qed.

(** A string without a slash is one path component. *)
Lemma split_sep_plain s :
  Py.all_chars Py.not_sep s = true -> Py.split_sep s = [s].
Proof.
  induction s as [|c s IH]; simpl; auto.
  intros H. apply andb_prop in H as [H1 H2]. unfold Py.not_sep in H1.
  destruct (Ascii.eqb c "/"); [discriminate|]. now rewrite IH.
Qed.

Lemma split_sep_app (s t : string) :
  Py.split_sep (s ++ String "/" t) = (Py.split_sep s ++ Py.split_sep t)%list.
Proof.
  induction s as [|c s IH]; simpl; auto.
  destruct (Ascii.eqb c "/").
  - now rewrite IH.
  - rewrite IH. destruct (Py.split_sep s) eqn:E; [|reflexivity].
    now destruct (FsFacts.split_sep_nonempty s).
Qed.

Lemma ends_with_sep_app (s t : string) :
  t <> EmptyString -> Py.ends_with_sep (s ++ t) = Py.ends_with_sep t.
Proof.
  intros Ht. induction s as [|c s IH]; simpl; auto.
  rewrite IH. destruct (s ++ t) eqn:E; auto.
  destruct s; simpl in E; [congruence | discriminate].
Qed.

Lemma ends_with_sep_plain s :
  Py.all_chars Py.not_sep s = true -> Py.ends_with_sep s = false.
Proof.
  induction s as [|c s IH]; simpl; auto.
  intros H. apply andb_prop in H as [H1 H2]. unfold Py.not_sep in H1.
  destruct s; [now destruct (Ascii.eqb c "/") | auto].
Qed.

Lemma starts_with_sep_plain s :
  Py.all_chars Py.not_sep s = true -> Py.starts_with_sep s = false.
Proof.
  destruct s as [|c s]; simpl; auto.
  intros H. apply andb_prop in H as [H1 _]. unfold Py.not_sep in H1.
  now destruct (Ascii.eqb c "/").
Qed.

(** *** Hexadecimal rendering of object ids *)

Lemma lt_16_cases (d : N) :
  (d < 16)%N ->
  In d [0; 1; 2; 3; 4; 5; 6; 7; 8; 9; 10; 11; 12; 13; 14; 15]%N.
Proof.
  intros H. simpl.
  destruct d as [|p]; [auto|].
  do 4 (destruct p as [p|p|]; try lia; auto 20).
Qed.

Lemma hex_digit_spec d :
  (d < 16)%N ->
  hex_value (hex_digit d) = Some d /\ is_hex (hex_digit d) = true.
Proof.
  intros H. apply lt_16_cases in H. simpl in H.
  repeat (destruct H as [<-|H]; [split; reflexivity|]). contradiction.
Qed.

Lemma length_hex_of k n : String.length (hex_of k n) = k.
Proof.
  revert n. induction k as [|k IH]; intros n; simpl; auto.
  rewrite length_app, IH. simpl. lia.
Qed.

Lemma hex_of_is_hex k n : Py.all_chars is_hex (hex_of k n) = true.
Proof.
  revert n. induction k as [|k IH]; intros n; simpl; auto.
  rewrite all_chars_app, IH. simpl.
  destruct (hex_digit_spec (n mod 16)) as [_ ->]; auto.
  apply N.mod_lt. discriminate.
Qed.

Lemma hex_parse_app acc (s t : string) :
  hex_parse acc (s ++ t) =
  match hex_parse acc s with
  | Some a => hex_parse a t
  | None => None
  end.
Proof.
  revert acc. induction s as [|c s IH]; intros acc; simpl; auto.
  destruct (hex_value c); auto.
Qed.

Lemma hex_parse_hex_of k n acc :
  hex_parse acc (hex_of k n) = Some (acc * 16 ^ N.of_nat k + n mod 16 ^ N.of_nat k)%N.
Proof.
  revert n acc. induction k as [|k IH]; intros n acc.
  - simpl. f_equal. rewrite N.mod_1_r. lia.
  - cbn [hex_of]. rewrite hex_parse_app, IH. cbn [hex_parse].
    destruct (hex_digit_spec (n mod 16)) as [-> _].
    { apply N.mod_lt. discriminate. }
    f_equal. rewrite Nnat.Nat2N.inj_succ, N.pow_succ_r'.
    rewrite (N.Div0.mod_mul_r n 16 (16 ^ N.of_nat k)). lia.
Qed.

(** [ObjectId(str(oid)) == oid] *)
Lemma oid_of_str_oid (o : ObjectId) :
  valid_oid o -> oid_of_str (str_oid o) = Some o.
Proof.
  unfold valid_oid, oid_of_str, str_oid. intros H.
  rewrite length_hex_of. cbn [Nat.eqb]. rewrite hex_parse_hex_of.
  f_equal. change (16 ^ N.of_nat 24)%N with (2 ^ 96)%N.
  rewrite N.mod_small by exact H. lia.
Qed.

Lemma str_oid_inj (o1 o2 : ObjectId) :
  valid_oid o1 -> valid_oid o2 -> str_oid o1 = str_oid o2 -> o1 = o2.
Proof.
  intros H1 H2 E. apply oid_of_str_oid in H1, H2. congruence.
Qed.

Lemma is_hex_no_sep c : is_hex c = true -> Py.not_sep c = true.
Proof.
  unfold is_hex, Py.not_sep. intros H.
  destruct (Ascii.eqb_spec c "/") as [->|]; [discriminate | reflexivity].
Qed.

Lemma str_oid_plain o : Py.all_chars Py.not_sep (str_oid o) = true.
Proof.
  eapply all_chars_impl; [apply is_hex_no_sep | apply hex_of_is_hex].
Qed.

End StrFacts.

(** ** Quota admission *)

Lemma fold_left_sizes (fs : list FileDoc) (acc : Z) :
  fold_left (fun a f => a + f_size f) fs acc
  = acc + fold_left (fun a f => a + f_size f) fs 0.
Proof.
  revert acc. induction fs as [|f fs IH]; intros acc; simpl; [lia|].
  rewrite IH, (IH (f_size f)). lia.
Qed.

Lemma sum_sizes_of_user_usage (fs : list FileDoc) (u : ObjectId) :
  sum_sizes_of_user fs u = current_usage fs u.
Proof.
  unfold sum_sizes_of_user. induction fs as [|f fs IH]; simpl; auto.
  destruct (N.eqb (f_user_id f) u); simpl; [|lia].
  rewrite fold_left_sizes. lia.
Qed.

Lemma check_storage_limit_spec (fs : list FileDoc) (u : ObjectId) (n : Z) :
  valid_oid u ->
  check_storage_limit fs (str_oid u) n
  = Some (current_usage fs u + n <=? QUOTA_BYTES).
Proof.
  intros Hu. unfold check_storage_limit, get_user_storage_usage.
  rewrite (StrFacts.oid_of_str_oid u Hu), sum_sizes_of_user_usage.
  reflexivity.
Qed.

(** C2.  For an owner [u] and [n] more bytes, [check_storage_limit] answers
    true exactly when the owner's current usage plus [n] is at most 1 GiB;
    an upload into an existing bucket for which it answers false is
    answered with 413 (storage limit exceeded) and changes nothing; and
    every accepted upload had [usage + size <= QUOTA_BYTES] beforehand. *)
Theorem quota_admission (st : State) (u : ObjectId) (Hu : valid_oid u) :
  (forall n,
      check_storage_limit (files_collection st) (str_oid u) n = Some true
      <-> current_usage (files_collection st) u + n <= QUOTA_BYTES) /\
  (forall n,
      check_storage_limit (files_collection st) (str_oid u) n = Some false
      <-> current_usage (files_collection st) u + n > QUOTA_BYTES) /\
  (forall flt now b f ct data,
      find_bucket (buckets_collection st) b u <> None ->
      check_storage_limit (files_collection st) (str_oid u)
        (Z.of_nat (List.length data)) = Some false ->
      upload_file flt now st u b f ct data
      = (Failure StorageLimitExceeded, st)) /\
  (forall flt now b f ct data,
      succeeded (fst (upload_file flt now st u b f ct data)) = true ->
      current_usage (files_collection st) u + Z.of_nat (List.length data)
      <= QUOTA_BYTES).
Proof.
  repeat split.
  - rewrite check_storage_limit_spec by exact Hu.
    intros [= H]. now apply Z.leb_le.
  - intros H. rewrite check_storage_limit_spec by exact Hu.
    f_equal. now apply Z.leb_le.
  - rewrite check_storage_limit_spec by exact Hu.
    intros [= H]. apply Z.leb_gt in H. lia.
  - intros H. rewrite check_storage_limit_spec by exact Hu.
    f_equal. apply Z.leb_gt. lia.
  - intros flt now b f ct data Hb Hc. unfold upload_file.
    destruct (find_bucket (buckets_collection st) b u); [|congruence].
    now rewrite Hc.
  - intros flt now b f ct data. unfold upload_file.
    destruct (find_bucket (buckets_collection st) b u); [|discriminate].
    rewrite check_storage_limit_spec by exact Hu.
    destruct (_ <=? QUOTA_BYTES) eqn:E; [|discriminate].
    intros _. now apply Z.leb_le.
Qed.

(** ** Bucket names *)

Module NameFacts.

Lemma any_char_nonempty p s : any_char p s = true -> Py.falsy s = false.
Proof. destruct s; [discriminate | reflexivity]. Qed.

Lemma any_char_rev_onto p s acc :
  any_char p (Py.rev_onto s acc) = any_char p s || any_char p acc.
Proof.
  revert acc. induction s as [|c s IH]; intros acc; simpl; auto.
  rewrite IH. simpl. destruct (p c), (any_char p s); auto.
Qed.

Lemma any_char_rev p s : any_char p (Py.rev s) = any_char p s.
Proof. unfold Py.rev. rewrite any_char_rev_onto. simpl. apply orb_false_r. Qed.

Lemma any_char_lstrip s :
  any_char (fun c => negb (Py.char_isspace c)) (Py.lstrip s)
  = any_char (fun c => negb (Py.char_isspace c)) s.
Proof.
  induction s as [|c s IH]; simpl; auto.
  destruct (Py.char_isspace c) eqn:E; simpl; rewrite ?E; auto.
Qed.

Lemma any_char_strip s :
  any_char (fun c => negb (Py.char_isspace c)) (Py.strip s)
  = any_char (fun c => negb (Py.char_isspace c)) s.
Proof.
  unfold Py.strip.
  now rewrite any_char_rev, any_char_lstrip, any_char_rev, any_char_lstrip.
Qed.

Lemma alnum_not_space c :
  Py.char_isalnum c = true -> Py.char_isspace c = false.
Proof.
  destruct c as [[] [] [] [] [] [] [] []]; vm_compute; congruence.
Qed.

Lemma any_char_impl (p q : ascii -> bool) s :
  (forall c, p c = true -> q c = true) ->
  any_char p s = true -> any_char q s = true.
Proof.
  intros Hpq. induction s as [|c s IH]; simpl; auto.
  intros H. apply orb_prop in H as [H|H].
  - now rewrite (Hpq _ H).
  - rewrite (IH H). apply orb_true_r.
Qed.

Lemma all_chars_stripped name :
  Py.all_chars Py.char_isalnum (stripped name) = Py.all_chars name_char name.
Proof.
  unfold stripped, name_char. induction name as [|c s IH]; simpl; auto.
  destruct (Ascii.eqb_spec c "-") as [->|H1]; simpl.
  - rewrite IH. reflexivity.
  - destruct (Ascii.eqb_spec c "_") as [->|H2]; simpl.
    + rewrite IH. reflexivity.
    + rewrite IH. now rewrite !orb_false_r.
Qed.

Lemma any_char_stripped name :
  any_char Py.char_isalnum (stripped name) = any_char Py.char_isalnum name.
Proof.
  unfold stripped. induction name as [|c s IH]; simpl; auto.
  destruct (Ascii.eqb_spec c "-") as [->|H1]; simpl.
  - rewrite IH. reflexivity.
  - destruct (Ascii.eqb_spec c "_") as [->|H2]; simpl.
    + rewrite IH. reflexivity.
    + now rewrite IH.
Qed.

Lemma isalnum_all_chars s :
  Py.isalnum s = negb (Py.falsy s) && Py.all_chars Py.char_isalnum s.
Proof. destruct s; reflexivity. Qed.

Lemma create_bucket_invalid_name flt now st u name d :
  invalid_name (fst (create_bucket flt now st u name d)) = name_rejected name.
Proof.
  unfold create_bucket, name_rejected, stripped.
  destruct (Py.falsy name || Py.falsy (Py.strip name)); [reflexivity|].
  destruct (Py.isalnum _); simpl; [|reflexivity].
  destruct (find_bucket _ _ _); [reflexivity|].
  unfold create_bucket_except.
  destruct (os_makedirs _ _ _) as [st1|].
  - destruct (db_insert_bucket _ _ _ _ _ _) as [[doc st2]|]; [reflexivity|].
    destruct (Fs.exists_ _ _); [|reflexivity].
    destruct (os_rmtree _ _ _); reflexivity.
  - destruct (Fs.exists_ _ _); [|reflexivity].
    destruct (os_rmtree _ _ _); reflexivity.
Qed.

Lemma name_rejected_bad_char name :
  Py.all_chars name_char name = false -> name_rejected name = true.
Proof.
  intros H. unfold name_rejected.
  rewrite isalnum_all_chars, all_chars_stripped, H, andb_false_r.
  apply orb_true_r.
Qed.

Lemma name_accepted name :
  Py.all_chars name_char name = true ->
  any_char Py.char_isalnum name = true ->
  name_rejected name = false.
Proof.
  intros Hall Hany. unfold name_rejected.
  rewrite isalnum_all_chars, all_chars_stripped, Hall.
  assert (Py.falsy (stripped name) = false) as ->.
  { apply (any_char_nonempty Py.char_isalnum).
    now rewrite any_char_stripped. }
  rewrite (any_char_nonempty _ _ Hany).
  assert (Py.falsy (Py.strip name) = false) as ->; [|reflexivity].
  apply (any_char_nonempty (fun c => negb (Py.char_isspace c))).
  rewrite any_char_strip.
  apply (any_char_impl Py.char_isalnum); [|exact Hany].
  intros c Hc. now rewrite (alnum_not_space c Hc).
Qed.

End NameFacts.

(** C6, as the code has it.  [create_bucket] answers 400 (invalid name)
    whenever the name is empty or holds a character that is neither
    alphanumeric in the sense of [str.isalnum] (which takes letters and
    digits beyond ASCII), nor a hyphen, nor an underscore; and a name made
    of such characters only, at least one of them alphanumeric, is never
    answered with 400. *)
Theorem create_bucket_name_validation
  (flt : faults) (now : string) (st : State) (u : ObjectId)
  (name : string) (d : option string) :
  (name = EmptyString \/ Py.all_chars name_char name = false ->
   invalid_name (fst (create_bucket flt now st u name d)) = true) /\
  (Py.all_chars name_char name = true ->
   any_char Py.char_isalnum name = true ->
   invalid_name (fst (create_bucket flt now st u name d)) = false).
Proof.
  rewrite NameFacts.create_bucket_invalid_name. split.
  - intros [-> | H]; [reflexivity|]. now apply NameFacts.name_rejected_bad_char.
  - apply NameFacts.name_accepted.
Qed.

(** C6 as stated fails: the name U+00E9 is outside [[A-Za-z0-9_-]+], yet
    [create_bucket] accepts it and creates the bucket. *)
Lemma create_bucket_accepts_non_ascii_letter :
  matches_name_pattern e_acute = false /\
  http_status (fst (create_bucket no_faults "t0" initial_state 1%N e_acute None))
  = 201 /\
  ~ (invalid_name
       (fst (create_bucket no_faults "t0" initial_state 1%N e_acute None))
     = true
     <-> (e_acute = EmptyString \/ matches_name_pattern e_acute = false)).
Proof.
  split; [reflexivity|]. split; [reflexivity|].
  intros [_ H]. specialize (H (or_intror eq_refl)). discriminate H.
Qed.

(** A name of hyphens only matches [[A-Za-z0-9_-]+] and is answered with
    400 all the same: nothing is left for [isalnum] once the hyphens are
    taken out. *)
Lemma create_bucket_rejects_hyphen_only :
  matches_name_pattern "-" = true /\
  create_bucket no_faults "t0" initial_state 1%N "-" None
  = (Failure BucketNameInvalid, initial_state).
Proof. split; reflexivity. Qed.

(** ** The write path of [upload_file] *)

Module UploadFacts.
Import DiskCalls.

Lemma os_write_inv flt st path data st1 ok :
  os_write flt st path data = (st1, ok) ->
  (st1 = st /\ ok = false) \/
  (exists d data',
      Fs.write_file (disk st) path data' = Some d /\ st1 = set_disk st d /\
      (ok = true -> data' = data)).
Proof.
  unfold os_write. destruct (open_raises flt).
  { intros [= <- <-]. now left. }
  destruct (write_raises flt) as [k|].
  - destruct (Fs.write_file _ _ _) as [d|] eqn:E; intros [= <- <-].
    + right. exists d, (firstn k data). repeat split; auto. discriminate.
    + now left.
  - destruct (Fs.write_file _ _ _) as [d|] eqn:E; intros [= <- <-].
    + right. exists d, data. repeat split; auto.
    + now left.
Qed.

(** The [except] block leaves no file behind, provided [os.remove] does
    not raise for a reason of its own. *)
Lemma upload_file_except_spec flt st path :
  remove_raises flt = false ->
  Fs.exists_ (disk st) path = false \/
  (exists data, Fs.read_file (disk st) path = Some data) ->
  exists st',
    upload_file_except flt st path = (Failure ErrorUploadingFile, st') /\
    Fs.exists_ (disk st') path = false /\
    buckets_collection st' = buckets_collection st /\
    files_collection st' = files_collection st /\
    next_oid st' = next_oid st.
Proof.
  intros Hr H. unfold upload_file_except.
  destruct (Fs.exists_ (disk st) path) eqn:He.
  - destruct H as [H | [data Hd]]; [discriminate|].
    unfold os_remove. rewrite Hr.
    destruct (Fs.remove (disk st) path) as [d|] eqn:Erm.
    + simpl. eexists. split; [reflexivity|]. simpl.
      split; [eapply remove_exists, Erm | auto].
    + now destruct (remove_of_file _ _ _ Hd).
  - exists st. auto.
Qed.

End UploadFacts.

(** C4.  When an upload got past its checks, the blob write went through
    and [insert_one] then raises, the written blob is deleted before the
    error is reported: the blob is on disk after the write, the answer is
    500, and afterwards nothing exists at the target path (and neither
    collection has changed).  The compensating [os.remove] is taken not to
    fail for a reason of its own. *)
Theorem upload_compensation
  (flt : faults) (now : string) (st : State) (u : ObjectId)
  (b f : string) (ct : option string) (data : list Byte.byte)
  (bucket : BucketDoc) (st1 : State) :
  find_bucket (buckets_collection st) b u = Some bucket ->
  check_storage_limit (files_collection st) (str_oid u)
    (Z.of_nat (List.length data)) = Some true ->
  Fs.exists_ (disk st) (upload_path u b f) = false ->
  os_write flt st (upload_path u b f) data = (st1, true) ->
  insert_one_raises flt = true ->
  remove_raises flt = false ->
  Fs.read_file (disk st1) (upload_path u b f) = Some data /\
  exists st',
    upload_file flt now st u b f ct data = (Failure ErrorUploadingFile, st') /\
    Fs.exists_ (disk st') (upload_path u b f) = false /\
    buckets_collection st' = buckets_collection st /\
    files_collection st' = files_collection st.
Proof.
  intros Hb Hq He Hw Hi Hr.
  destruct (UploadFacts.os_write_inv _ _ _ _ _ _ Hw)
    as [[_ ?] | (d & data' & Hwf & -> & Hd)]; [discriminate|].
  rewrite (Hd eq_refl) in Hwf. clear Hd data'.
  pose proof (DiskCalls.write_file_read _ _ _ _ Hwf) as Hrd.
  split; [exact Hrd|].
  destruct (UploadFacts.upload_file_except_spec flt (set_disk st d)
              (upload_path u b f) Hr) as (st' & Hx & Hgone & Hbs & Hfs & _).
  { right. now exists data. }
  exists st'. unfold upload_file. rewrite Hb, Hq, He, Hw.
  unfold db_insert_file. rewrite Hi. auto.
Qed.

(** ** Errors of [upload_file] and the collections *)

Module UploadErrors.

Lemma upload_file_except_collections flt st path :
  buckets_collection (snd (upload_file_except flt st path))
  = buckets_collection st /\
  files_collection (snd (upload_file_except flt st path))
  = files_collection st.
Proof.
  unfold upload_file_except, os_remove.
  destruct (Fs.exists_ (disk st) path); [|auto].
  destruct (remove_raises flt); [auto|].
  destruct (Fs.remove (disk st) path); simpl; auto.
Qed.

Lemma os_write_collections flt st path data :
  buckets_collection (fst (os_write flt st path data)) = buckets_collection st /\
  files_collection (fst (os_write flt st path data)) = files_collection st.
Proof.
  unfold os_write. destruct (open_raises flt); [auto|].
  destruct (write_raises flt);
    destruct (Fs.write_file _ _ _); simpl; auto.
Qed.

(** As long as [update_one] does not raise, a failed upload leaves both
    collections as they were, whichever earlier step failed. *)
Lemma upload_error_keeps_collections flt now st u b f ct data :
  update_one_raises flt = false ->
  succeeded (fst (upload_file flt now st u b f ct data)) = false ->
  buckets_collection (snd (upload_file flt now st u b f ct data))
  = buckets_collection st /\
  files_collection (snd (upload_file flt now st u b f ct data))
  = files_collection st.
Proof.
  intros Hu. unfold upload_file.
  destruct (find_bucket _ _ _) as [bucket|]; [|auto].
  destruct (check_storage_limit _ _ _) as [[|]|]; auto.
  destruct (Fs.exists_ _ _); [auto|].
  pose proof (os_write_collections flt st (upload_path u b f) data) as [Hb Hf].
  destruct (os_write flt st (upload_path u b f) data) as [st1 [|]];
    simpl in Hb, Hf.
  - unfold db_insert_file. destruct (insert_one_raises flt).
    + intros _. rewrite <- Hb, <- Hf. apply upload_file_except_collections.
    + unfold db_inc_bucket_stats. rewrite Hu. discriminate.
  - intros _. rewrite <- Hb, <- Hf. apply upload_file_except_collections.
Qed.

(** Whichever step of the write path fails, a failed upload that got
    past the name check leaves nothing at its blob path, provided
    [os.remove] does not raise for a reason of its own. *)
Lemma upload_failure_leaves_no_blob flt now st u b f ct data e st' :
  remove_raises flt = false ->
  Fs.exists_ (disk st) (upload_path u b f) = false ->
  upload_file flt now st u b f ct data = (Failure e, st') ->
  Fs.exists_ (disk st') (upload_path u b f) = false.
Proof.
  intros Hrm He. unfold upload_file.
  destruct (find_bucket _ _ _) as [bucket|]; [|now intros [= _ <-]].
  destruct (check_storage_limit _ _ _) as [[|]|]; try now intros [= _ <-].
  rewrite He.
  assert (forall st1,
            Fs.exists_ (disk st1) (upload_path u b f) = false \/
            (exists dat, Fs.read_file (disk st1) (upload_path u b f) = Some dat) ->
            upload_file_except flt st1 (upload_path u b f) = (Failure e, st') ->
            Fs.exists_ (disk st') (upload_path u b f) = false) as Hexc.
  { intros st1 H1 Hx.
    destruct (UploadFacts.upload_file_except_spec flt st1 _ Hrm H1)
      as (st2 & Hx2 & Hgone & _). congruence. }
  destruct (os_write flt st (upload_path u b f) data) as [st1 ok] eqn:Hw.
  assert (Fs.exists_ (disk st1) (upload_path u b f) = false \/
          (exists dat, Fs.read_file (disk st1) (upload_path u b f) = Some dat))
    as H1.
  { destruct (UploadFacts.os_write_inv _ _ _ _ _ _ Hw)
      as [[-> _] | (d & data' & Hwf & -> & _)]; [now left|].
    right. exists data'. eapply DiskCalls.write_file_read, Hwf. }
  destruct ok; [|now apply Hexc].
  unfold db_insert_file. destruct (insert_one_raises flt); [now apply Hexc|].
  unfold db_inc_bucket_stats. destruct (update_one_raises flt); [|discriminate].
  now apply Hexc.
Qed.

End UploadErrors.

(** C10 at a failing run: [update_one] raises after [insert_one] went
    through.  The upload is answered with 500 and its blob is removed, but
    the new file record stays in the collection, with the counters of the
    bucket untouched. *)
Lemma upload_update_failure_keeps_record :
  fst (upload_file update_one_fails "t1" with_bucket alice "docs" "a.txt"
         None (bytes_of "hello")) = Failure ErrorUploadingFile /\
  files_collection with_bucket = [] /\
  map f_filename (files_collection with_orphan_record) = ["a.txt"] /\
  map f_size (files_collection with_orphan_record) = [5] /\
  map (fun b => (b_file_count b, b_total_size b))
    (buckets_collection with_orphan_record) = [(0, 0)] /\
  Fs.exists_ (disk with_orphan_record) (upload_path alice "docs" "a.txt")
  = false.
Proof. repeat split; reflexivity. Qed.

(** ** Successful uploads *)

Module UploadSuccess.
Import DiskCalls.

Lemma upload_file_except_not_success flt st path s doc st' :
  upload_file_except flt st path <> (Success s doc, st').
Proof.
  unfold upload_file_except.
  destruct (Fs.exists_ (disk st) path); [|discriminate].
  destruct (os_remove flt st path); discriminate.
Qed.

(** What a 200 answer of [upload_file] tells about the run. *)
Lemma upload_success_inv flt now st u b f ct data s doc st' :
  upload_file flt now st u b f ct data = (Success s doc, st') ->
  exists bucket d,
    find_bucket (buckets_collection st) b u = Some bucket /\
    check_storage_limit (files_collection st) (str_oid u)
      (Z.of_nat (List.length data)) = Some true /\
    Fs.exists_ (disk st) (upload_path u b f) = false /\
    Fs.write_file (disk st) (upload_path u b f) data = Some d /\
    s = 200 /\
    doc = mkFileDoc (next_oid st) f (b_id bucket) b u
            (Z.of_nat (List.length data)) (stored_content_type ct) now
            (upload_path u b f) /\
    st' = mkState
            (inc_bucket_stats (b_id bucket) 1 (Z.of_nat (List.length data))
               (buckets_collection st))
            (files_collection st ++ [doc]) d (N.succ (next_oid st)).
Proof.
  unfold upload_file.
  destruct (find_bucket _ _ _) as [bucket|]; [|discriminate].
  destruct (check_storage_limit _ _ _) as [[|]|]; try discriminate.
  destruct (Fs.exists_ _ _) eqn:He; [discriminate|].
  destruct (os_write flt st (upload_path u b f) data) as [st1 [|]] eqn:Hw.
  2:{ intros H. now apply upload_file_except_not_success in H. }
  unfold db_insert_file. destruct (insert_one_raises flt).
  { intros H. now apply upload_file_except_not_success in H. }
  unfold db_inc_bucket_stats. destruct (update_one_raises flt).
  { intros H. now apply upload_file_except_not_success in H. }
  intros [= <- <- <-].
  destruct (UploadFacts.os_write_inv _ _ _ _ _ _ Hw)
    as [[_ ?] | (d & data' & Hwf & -> & Hd)]; [discriminate|].
  rewrite (Hd eq_refl) in Hwf.
  exists bucket, d. repeat split; auto.
Qed.

Lemma find_bucket_inc id dc ds bs name u :
  option_map b_id (find_bucket (inc_bucket_stats id dc ds bs) name u)
  = option_map b_id (find_bucket bs name u).
Proof.
  unfold find_bucket. induction bs as [|b bs IH]; simpl; auto.
  destruct (N.eqb (b_id b) id); simpl.
  - destruct (String.eqb (b_name b) name && N.eqb (b_user_id b) u); auto.
  - destruct (String.eqb (b_name b) name && N.eqb (b_user_id b) u); auto.
Qed.

Lemma find_bucket_inc_some id dc ds bs name u bucket :
  find_bucket bs name u = Some bucket ->
  exists bucket',
    find_bucket (inc_bucket_stats id dc ds bs) name u = Some bucket' /\
    b_id bucket' = b_id bucket.
Proof.
  intros H. pose proof (find_bucket_inc id dc ds bs name u) as E.
  rewrite H in E. simpl in E.
  destruct (find_bucket (inc_bucket_stats id dc ds bs) name u) as [b'|];
    [|discriminate].
  exists b'. split; [reflexivity|]. simpl in E. congruence.
Qed.

(** The name check of [upload_file]: a blob path that exists stops the
    upload before anything is written. *)
Lemma upload_refused_when_blob_exists flt now st u b f ct data :
  Fs.exists_ (disk st) (upload_path u b f) = true ->
  succeeded (fst (upload_file flt now st u b f ct data)) = false /\
  snd (upload_file flt now st u b f ct data) = st /\
  (find_bucket (buckets_collection st) b u <> None ->
   check_storage_limit (files_collection st) (str_oid u)
     (Z.of_nat (List.length data)) = Some true ->
   fst (upload_file flt now st u b f ct data) = Failure FileAlreadyExists).
Proof.
  intros He. unfold upload_file.
  destruct (find_bucket _ _ _) as [bucket|].
  - destruct (check_storage_limit _ _ _) as [[|]|]; rewrite ?He;
      repeat split; auto; discriminate.
  - repeat split; auto. congruence.
Qed.

End UploadSuccess.

(** C3, as the code has it.  The check is [os.path.exists] on the blob
    path, and it comes after the bucket lookup and the quota check.  An
    upload whose blob path exists is always refused and changes nothing; it
    is refused with 409 (file already exists) once the bucket is found and
    the quota check passes.  In particular, after a successful upload any
    further upload of the same filename into the same bucket is refused
    and leaves the record and the blob of the first one as they are. *)
Theorem upload_never_overwrites
  (flt : faults) (now : string) (st : State) (u : ObjectId)
  (b f : string) (ct : option string) (data : list Byte.byte) :
  (Fs.exists_ (disk st) (upload_path u b f) = true ->
   succeeded (fst (upload_file flt now st u b f ct data)) = false /\
   snd (upload_file flt now st u b f ct data) = st /\
   (find_bucket (buckets_collection st) b u <> None ->
    check_storage_limit (files_collection st) (str_oid u)
      (Z.of_nat (List.length data)) = Some true ->
    fst (upload_file flt now st u b f ct data) = Failure FileAlreadyExists)) /\
  (forall s doc st',
      upload_file flt now st u b f ct data = (Success s doc, st') ->
      In doc (files_collection st') /\
      Fs.read_file (disk st') (upload_path u b f) = Some data /\
      forall flt' now' ct' data',
        succeeded (fst (upload_file flt' now' st' u b f ct' data')) = false /\
        snd (upload_file flt' now' st' u b f ct' data') = st' /\
        (check_storage_limit (files_collection st') (str_oid u)
           (Z.of_nat (List.length data')) = Some true ->
         fst (upload_file flt' now' st' u b f ct' data')
         = Failure FileAlreadyExists)).
Proof.
  pose proof (fun flt now st ct data =>
                UploadSuccess.upload_refused_when_blob_exists flt now st u b f
                  ct data) as Hexists.
  split; [apply Hexists|].
  intros s doc st' Hup.
  destruct (UploadSuccess.upload_success_inv _ _ _ _ _ _ _ _ _ _ _ Hup)
    as (bucket & d & Hb & Hq & He & Hw & -> & Hdoc & ->).
  cbn [files_collection disk buckets_collection].
  split; [apply in_or_app; right; now left|].
  split; [eapply DiskCalls.write_file_read, Hw|].
  intros flt' now' ct' data'.
  match goal with |- context [upload_file _ _ ?S _ _ _ _ _] => set (st1 := S) end.
  assert (Fs.exists_ (disk st1) (upload_path u b f) = true) as He1.
  { eapply DiskCalls.write_file_exists, Hw. }
  destruct (Hexists flt' now' st1 ct' data' He1) as (H1 & H2 & H3).
  repeat split; auto. apply H3.
  destruct (UploadSuccess.find_bucket_inc_some (b_id bucket) 1
              (Z.of_nat (List.length data)) _ _ _ _ Hb) as (b' & Hb' & _).
  subst st1. cbn [buckets_collection]. congruence.
Qed.

(** C3 as stated fails: ["a.txt"] has a file record in the bucket, its
    blob is missing, and the upload of ["a.txt"] is answered with 200; the
    bucket then holds two records of that name. *)
Lemma upload_with_existing_record_accepted :
  find_file (files_collection with_orphan_record) 0%N "a.txt" <> None /\
  http_status
    (fst (upload_file no_faults "t2" with_orphan_record alice "docs" "a.txt"
            None (bytes_of "0123456789"))) = 200 /\
  map f_filename (files_collection with_second_record) = ["a.txt"; "a.txt"] /\
  map f_bucket_id (files_collection with_second_record) = [0%N; 0%N].
Proof. repeat split; try reflexivity. discriminate. Qed.

(** The quota check comes first: a second upload of ["a.txt"] that is
    over quota is answered with 413, not with 409. *)
Lemma upload_over_quota_before_name_check :
  find_file (files_collection with_upload) 0%N "a.txt" <> None /\
  upload_file no_faults "t2" with_upload alice "docs" "a.txt" None
    (List.repeat Byte.x00 (Z.to_nat QUOTA_BYTES))
  = (Failure StorageLimitExceeded, with_upload).
Proof.
  split; [discriminate|].
  assert (forall data, Z.of_nat (List.length data) = QUOTA_BYTES ->
            upload_file no_faults "t2" with_upload alice "docs" "a.txt" None data
            = (Failure StorageLimitExceeded, with_upload)) as H.
  { intros data Hlen. unfold upload_file.
    assert (exists b, find_bucket (buckets_collection with_upload) "docs" alice
            = Some b) as [b ->] by (eexists; reflexivity).
    rewrite check_storage_limit_spec by reflexivity.
    rewrite Hlen.
    assert (current_usage (files_collection with_upload) alice = 5) as ->
      by reflexivity.
    reflexivity. }
  apply H. rewrite List.repeat_length. apply Z2Nat.id. discriminate.
Qed.

(** ** [delete_file] and the counters *)

Module DeleteFacts.
Import DiskCalls.

(** What a 200 answer of [delete_file] tells about the run: [size] is the
    number the counters are decremented by. *)
Lemma delete_success_inv flt st u b f s st' :
  delete_file flt st u b f = (Success s tt, st') ->
  exists bucket file_doc size d,
    find_bucket (buckets_collection st) b u = Some bucket /\
    find_file (files_collection st) (b_id bucket) f = Some file_doc /\
    (if Fs.exists_ (disk st) (stored_path file_doc u b f)
     then Fs.getsize (disk st) (stored_path file_doc u b f) = Some size /\
          Fs.remove (disk st) (stored_path file_doc u b f) = Some d
     else size = f_size file_doc /\ d = disk st) /\
    st' = mkState
            (inc_bucket_stats (b_id bucket) (-1) (- size)
               (buckets_collection st))
            (delete_file_by_id (f_id file_doc) (files_collection st))
            d (next_oid st).
Proof.
  unfold delete_file.
  destruct (find_bucket _ _ _) as [bucket|] eqn:Hb; [|discriminate].
  destruct (find_file _ _ _) as [file_doc|] eqn:Hf; [|discriminate].
  intros H. exists bucket, file_doc.
  destruct (Fs.exists_ (disk st) (stored_path file_doc u b f)) eqn:He.
  - destruct (Fs.getsize (disk st) _) as [size|] eqn:Hs; [|discriminate].
    unfold os_remove in H. destruct (remove_raises flt); [discriminate|].
    destruct (Fs.remove (disk st) _) as [d|] eqn:Hr; [|discriminate].
    cbn [option_map] in H. unfold db_delete_file in H.
    destruct (delete_one_raises flt); [discriminate|].
    unfold db_inc_bucket_stats in H.
    destruct (update_one_raises flt); [discriminate|].
    injection H as <- <-. exists size, d. repeat split; auto.
  - unfold db_delete_file in H.
    destruct (delete_one_raises flt); [discriminate|].
    unfold db_inc_bucket_stats in H.
    destruct (update_one_raises flt); [discriminate|].
    injection H as <- <-. exists (f_size file_doc), (disk st).
    repeat split; auto.
Qed.

End DeleteFacts.

(** *** What a deletion changes in the two collections *)

Module DeleteChanges.
#[local] Open Scope list_scope.

(** Among documents with distinct ids, [update_one] changes the bucket it
    is aimed at, in place, and nothing else. *)
Lemma inc_bucket_stats_at dc ds l1 bucket l2 :
  NoDup (map b_id (l1 ++ bucket :: l2)) ->
  inc_bucket_stats (b_id bucket) dc ds (l1 ++ bucket :: l2)
  = l1 ++ mkBucketDoc (b_id bucket) (b_name bucket) (b_description bucket)
            (b_user_id bucket) (b_created_at bucket)
            (b_file_count bucket + dc) (b_total_size bucket + ds) :: l2.
Proof.
  induction l1 as [|x l1 IH]; cbn [app map inc_bucket_stats]; intros Hnd.
  - now rewrite N.eqb_refl.
  - inversion Hnd as [|y l Hnot Hd]; subst.
    destruct (N.eqb_spec (b_id x) (b_id bucket)) as [E|E].
    + exfalso. apply Hnot. rewrite E, map_app. apply in_or_app. right.
      now left.
    + now rewrite IH.
Qed.

(** ... and [delete_one] removes the record it is aimed at. *)
Lemma delete_file_by_id_at m1 fd m2 :
  NoDup (map f_id (m1 ++ fd :: m2)) ->
  delete_file_by_id (f_id fd) (m1 ++ fd :: m2) = m1 ++ m2.
Proof.
  induction m1 as [|x m1 IH]; cbn [app map delete_file_by_id]; intros Hnd.
  - now rewrite N.eqb_refl.
  - inversion Hnd as [|y l Hnot Hd]; subst.
    destruct (N.eqb_spec (f_id x) (f_id fd)) as [E|E].
    + exfalso. apply Hnot. rewrite E, map_app. apply in_or_app. right.
      now left.
    + now rewrite IH.
Qed.

Lemma not_in_rest {A B} (g : A -> B) l1 x l2 :
  NoDup (map g (l1 ++ x :: l2)) -> ~ In x (l1 ++ l2).
Proof.
  rewrite map_app. cbn [map]. intros Hnd Hin.
  apply NoDup_remove_2 in Hnd. apply Hnd. rewrite <- map_app.
  now apply in_map.
Qed.

Lemma count_files_at m1 fd m2 i :
  count_files (m1 ++ fd :: m2) i
  = count_files (m1 ++ m2) i + (if N.eqb (f_bucket_id fd) i then 1 else 0).
Proof.
  induction m1 as [|x m1 IH]; cbn [app count_files]; [lia|].
  rewrite IH. lia.
Qed.

(** [find_one] returns the changed bucket in place of the old one. *)
Lemma find_bucket_at l1 bucket bucket' l2 name u :
  NoDup (map b_id (l1 ++ bucket :: l2)) ->
  find_bucket (l1 ++ bucket :: l2) name u = Some bucket ->
  b_name bucket' = b_name bucket -> b_user_id bucket' = b_user_id bucket ->
  find_bucket (l1 ++ bucket' :: l2) name u = Some bucket'.
Proof.
  unfold find_bucket. intros Hnd Hfind En Eu.
  induction l1 as [|x l1 IH]; cbn [app map find] in *.
  - rewrite En, Eu.
    destruct (String.eqb (b_name bucket) name
              && N.eqb (b_user_id bucket) u) eqn:Ep; [reflexivity|].
    apply find_some in Hfind as [Hin _].
    inversion Hnd as [|y l Hnot Hd]; subst.
    exfalso. apply Hnot. now apply in_map.
  - inversion Hnd as [|y l Hnot Hd]; subst.
    destruct (String.eqb (b_name x) name && N.eqb (b_user_id x) u).
    + injection Hfind as ->. exfalso. apply Hnot.
      rewrite map_app. apply in_or_app. right. now left.
    + now apply IH.
Qed.

End DeleteChanges.

(** C5, as the code has it.  Where [_id]s are unique, as MongoDB keeps
    them, a successful [delete_file] takes [1] off the [file_count] and
    [size] off the [total_size] of the bucket and leaves every other bucket
    document as it was, where [size] is the length of the blob on disk when
    a blob is there, and the size recorded in the file record only when the
    blob is missing; [get_bucket] answers the lowered counters.  The
    record that [find_one] returned is gone from the [files] collection,
    which is otherwise unchanged, so the bucket has one record less; and
    afterwards nothing exists at the blob path. *)
Theorem delete_file_decrement
  (flt : faults) (st : State) (u : ObjectId) (b f : string)
  (s : Z) (st' : State) :
  NoDup (map b_id (buckets_collection st)) ->
  NoDup (map f_id (files_collection st)) ->
  delete_file flt st u b f = (Success s tt, st') ->
  exists bucket file_doc,
    find_bucket (buckets_collection st) b u = Some bucket /\
    find_file (files_collection st) (b_id bucket) f = Some file_doc /\
    let path := stored_path file_doc u b f in
    let size :=
      match Fs.read_file (disk st) path with
      | Some data => Z.of_nat (List.length data)
      | None => f_size file_doc
      end in
    let bucket' :=
      mkBucketDoc (b_id bucket) (b_name bucket) (b_description bucket)
        (b_user_id bucket) (b_created_at bucket)
        (b_file_count bucket - 1) (b_total_size bucket - size) in
    (exists l1 l2,
        buckets_collection st = (l1 ++ bucket :: l2)%list /\
        buckets_collection st' = (l1 ++ bucket' :: l2)%list) /\
    find_bucket (buckets_collection st') b u = Some bucket' /\
    get_bucket st' u b
    = Success 200
        (mkBucketInfo (str_oid (b_id bucket)) (b_name bucket)
           (b_description bucket) (b_created_at bucket)
           (b_file_count bucket - 1) (b_total_size bucket - size)) /\
    (exists m1 m2,
        files_collection st = (m1 ++ file_doc :: m2)%list /\
        files_collection st' = (m1 ++ m2)%list) /\
    ~ In file_doc (files_collection st') /\
    count_files (files_collection st') (b_id bucket)
    = count_files (files_collection st) (b_id bucket) - 1 /\
    Fs.exists_ (disk st') path = false.
Proof.
  intros Hbids Hfids H.
  destruct (DeleteFacts.delete_success_inv _ _ _ _ _ _ _ H)
    as (bucket & file_doc & size & d & Hb & Hf & Hd & ->).
  exists bucket, file_doc. split; [exact Hb|]. split; [exact Hf|].
  cbn [buckets_collection files_collection disk].
  (* the size taken off is the measured one when the blob is there *)
  assert (Hsize : size
                  = match Fs.read_file (disk st) (stored_path file_doc u b f) with
                    | Some data => Z.of_nat (List.length data)
                    | None => f_size file_doc
                    end /\
                  Fs.exists_ d (stored_path file_doc u b f) = false).
  { destruct (Fs.exists_ (disk st) (stored_path file_doc u b f)) eqn:He.
    - destruct Hd as [Hs Hr].
      destruct (DiskCalls.remove_inv _ _ _ Hr) as (q & dat & Hq & Hl & _ & _).
      assert (Fs.read_file (disk st) (stored_path file_doc u b f) = Some dat)
        as Hrd.
      { unfold Fs.read_file. now rewrite Hq, Hl. }
      rewrite Hrd. rewrite (DiskCalls.getsize_of_file _ _ _ Hrd) in Hs.
      injection Hs as <-. split; [reflexivity|].
      eapply DiskCalls.remove_exists, Hr.
    - destruct Hd as [-> ->].
      destruct (Fs.read_file (disk st) (stored_path file_doc u b f)) as [dat|]
        eqn:Hrd.
      + apply DiskCalls.read_file_exists in Hrd. congruence.
      + auto. }
  destruct Hsize as [Hsize Hgone]. rewrite <- Hsize. clear Hsize Hd.
  (* where the bucket and the record sit in their collections *)
  assert (Hbin : In bucket (buckets_collection st)).
  { unfold find_bucket in Hb. now apply find_some in Hb. }
  assert (Hfin : In file_doc (files_collection st) /\
                 f_bucket_id file_doc = b_id bucket).
  { unfold find_file in Hf. apply find_some in Hf as [Hin Hp].
    apply andb_prop in Hp as [Hp _]. apply N.eqb_eq in Hp. auto. }
  destruct Hfin as [Hfin Efb].
  destruct (in_split _ _ Hbin) as (l1 & l2 & El).
  destruct (in_split _ _ Hfin) as (m1 & m2 & Em).
  rewrite El in Hbids, Hb |- *. rewrite Em in Hfids |- *.
  rewrite (DeleteChanges.inc_bucket_stats_at (-1) (- size) l1 bucket l2 Hbids).
  rewrite (DeleteChanges.delete_file_by_id_at m1 file_doc m2 Hfids).
  replace (b_file_count bucket + -1) with (b_file_count bucket - 1) by lia.
  replace (b_total_size bucket + - size) with (b_total_size bucket - size)
    by lia.
  assert (Hb' : find_bucket
                  (l1 ++ mkBucketDoc (b_id bucket) (b_name bucket)
                           (b_description bucket) (b_user_id bucket)
                           (b_created_at bucket) (b_file_count bucket - 1)
                           (b_total_size bucket - size) :: l2)%list b u
                = Some (mkBucketDoc (b_id bucket) (b_name bucket)
                          (b_description bucket) (b_user_id bucket)
                          (b_created_at bucket) (b_file_count bucket - 1)
                          (b_total_size bucket - size))).
  { now apply (DeleteChanges.find_bucket_at l1 bucket _ l2 b u Hbids Hb). }
  split; [now exists l1, l2|]. split; [exact Hb'|]. split.
  { unfold get_bucket. cbn [buckets_collection]. now rewrite Hb'. }
  split; [now exists m1, m2|]. split.
  { now apply (DeleteChanges.not_in_rest f_id m1 file_doc m2). }
  split; [|exact Hgone].
  rewrite (DeleteChanges.count_files_at m1 file_doc m2), Efb, N.eqb_refl. lia.
Qed.

(** C5 as stated fails: the record that [delete_file] finds and deletes
    has the size 5, the blob on disk has 10 bytes, and the counter
    [total_size] goes from 10 to 0, not to 5. *)
Lemma delete_file_uses_measured_size :
  option_map f_size
    (find_file (files_collection with_second_record) 0%N "a.txt") = Some 5 /\
  map b_total_size (buckets_collection with_second_record) = [10] /\
  fst (delete_file no_faults with_second_record alice "docs" "a.txt")
  = Success 200 tt /\
  map b_total_size
    (buckets_collection
       (snd (delete_file no_faults with_second_record alice "docs" "a.txt")))
  = [0] /\
  map f_size
    (files_collection
       (snd (delete_file no_faults with_second_record alice "docs" "a.txt")))
  = [10].
Proof. repeat split; reflexivity. Qed.

(** The same with a single record of that name in the bucket: the blob of
    the record ["a.txt"] of ["docs"] (size 5) is missing, an upload into
    ["other"] under ["../docs/a.txt"] puts ten bytes at its path, and
    deleting ["a.txt"] from ["docs"] takes 10 off [total_size]. *)
Lemma delete_file_uses_measured_size_single_record :
  map (fun f => (f_bucket_id f, f_filename f, f_size f))
    (files_collection with_crossing_record)
  = [(0%N, "a.txt", 5); (2%N, "../docs/a.txt", 10)] /\
  map (fun b => (b_id b, b_total_size b))
    (buckets_collection with_crossing_record) = [(0%N, 0); (2%N, 10)] /\
  fst (delete_file no_faults with_crossing_record alice "docs" "a.txt")
  = Success 200 tt /\
  map (fun b => (b_id b, b_total_size b))
    (buckets_collection
       (snd (delete_file no_faults with_crossing_record alice "docs" "a.txt")))
  = [(0%N, -10); (2%N, 10)].
Proof. repeat split; reflexivity. Qed.

(** ** [delete_bucket] *)

Module DeleteBucketFacts.
Import Fs FsFacts DiskCalls.
#[local] Open Scope list_scope.

(** Unbinding a location creates no directory. *)
Lemma is_dir_set_at_none root q p :
  is_dir (set_at root q None) p = true -> is_dir root p = true.
Proof.
  revert root p. induction q as [|c t IH]; intros root p; [auto|].
  destruct root as [d|es]; [auto|].
  destruct t as [|c1 t1].
  - simpl set_at. destruct p as [|c' p']; [auto|].
    unfold is_dir. cbn [lookup].
    destruct (String.eqb_spec c' c) as [->|Hne].
    + rewrite assoc_drop_same. discriminate.
    + now rewrite assoc_drop_other.
  - rewrite set_at_cons by discriminate.
    destruct (assoc c es) as [m|] eqn:Em; [|auto].
    destruct p as [|c' p']; [auto|].
    unfold is_dir. cbn [lookup].
    destruct (String.eqb_spec c' c) as [->|Hne].
    + rewrite assoc_put_same, Em. apply IH.
    + now rewrite assoc_put_other.
Qed.

Lemma rmtree_inv root s root' :
  rmtree root s = Some root' ->
  exists q, resolve root s = Some q /\ q <> [] /\ is_dir root q = true /\
            root' = set_at root q None.
Proof.
  unfold rmtree. destruct (resolve root s) as [[|c q]|]; try discriminate.
  destruct (is_dir root (c :: q)) eqn:E; [|discriminate].
  intros [= <-]. exists (c :: q). repeat split; auto. discriminate.
Qed.

(** After [shutil.rmtree] nothing is left at or below the directory. *)
Lemma rmtree_gone root s root' :
  rmtree root s = Some root' ->
  exists_ root' s = false /\
  forall q rest, resolve root s = Some q -> lookup root' (q ++ rest) = None.
Proof.
  intros H. destruct (rmtree_inv _ _ _ H) as (q & Hr & Hq & Hd & ->).
  split.
  - unfold exists_, present.
    destruct (resolve (set_at root q None) s) as [q'|] eqn:Hr'; [|reflexivity].
    assert (resolve root s = Some q') as Hr2.
    { eapply resolve_mono; [|exact Hr']. apply is_dir_set_at_none. }
    assert (q' = q) as -> by congruence.
    now rewrite lookup_set_at_none.
  - intros q0 rest Hq0. assert (q0 = q) as -> by congruence.
    apply lookup_app_none. now apply lookup_set_at_none.
Qed.

Lemma not_exists_nothing_below root s :
  exists_ root s = false ->
  forall q rest, resolve root s = Some q -> lookup root (q ++ rest) = None.
Proof.
  intros He q rest Hq. apply lookup_app_none.
  eapply exists_false_lookup; eauto.
Qed.

Lemma delete_bucket_by_id_gone id bs :
  NoDup (map b_id bs) ->
  forall b, In b (delete_bucket_by_id id bs) -> b_id b <> id.
Proof.
  induction bs as [|b0 bs IH]; simpl; intros Hnd b Hin; [contradiction|].
  inversion Hnd as [|? ? Hnotin Hnd']; subst.
  destruct (N.eqb_spec (b_id b0) id) as [E|E].
  - intros Hb. apply Hnotin. rewrite E, <- Hb. now apply in_map.
  - destruct Hin as [<-|Hin]; auto.
Qed.

Lemma delete_files_of_bucket_gone id fs :
  forall f, In f (delete_files_of_bucket id fs) -> f_bucket_id f <> id.
Proof.
  unfold delete_files_of_bucket. intros f Hin.
  apply filter_In in Hin as [_ H].
  destruct (N.eqb_spec (f_bucket_id f) id); [discriminate | assumption].
Qed.

End DeleteBucketFacts.

(** C7.  [delete_bucket] on an existing bucket (object ids being unique in
    the collection).  When it answers 200: no file record refers to the
    bucket's id, nothing exists at the bucket's directory nor below it,
    and no bucket document with that id is left.  The three deletions are
    done in the order records, directory, bucket document: if
    [delete_many] raises nothing has changed; if [rmtree] raises only the
    records are gone; if [delete_one] raises the records and the directory
    are gone and the bucket document is still there. *)
Theorem delete_bucket_cascade
  (flt : faults) (st : State) (u : ObjectId) (b : string) (bucket : BucketDoc) :
  find_bucket (buckets_collection st) b u = Some bucket ->
  NoDup (map b_id (buckets_collection st)) ->
  let r := delete_bucket flt st u b in
  let records_gone := delete_files_of_bucket (b_id bucket) (files_collection st) in
  (fst r = Success 200 tt ->
   (forall f, In f (files_collection (snd r)) -> f_bucket_id f <> b_id bucket) /\
   files_collection (snd r) = records_gone /\
   Fs.exists_ (disk (snd r)) (bucket_dir u b) = false /\
   (forall q rest, Fs.resolve (disk st) (bucket_dir u b) = Some q ->
                   Fs.lookup (disk (snd r)) (q ++ rest)%list = None) /\
   (forall b', In b' (buckets_collection (snd r)) -> b_id b' <> b_id bucket)) /\
  (delete_many_raises flt = true ->
   r = (Failure ErrorDeletingBucket, st)) /\
  (delete_many_raises flt = false -> rmtree_raises flt = true ->
   Fs.exists_ (disk st) (bucket_dir u b) = true ->
   r = (Failure ErrorDeletingBucket, set_files st records_gone)) /\
  (delete_many_raises flt = false -> rmtree_raises flt = false ->
   delete_one_raises flt = true ->
   forall d, Fs.rmtree (disk st) (bucket_dir u b) = Some d ->
   r = (Failure ErrorDeletingBucket, set_disk (set_files st records_gone) d) /\
   Fs.exists_ d (bucket_dir u b) = false /\
   In bucket (buckets_collection (snd r))).
Proof.
  intros Hb Hnd r records_gone. subst r. unfold delete_bucket. rewrite Hb.
  unfold db_delete_files_of_bucket.
  destruct (delete_many_raises flt) eqn:Hdm.
  { repeat split; try discriminate; auto. }
  fold records_gone.
  set (st1 := set_files st records_gone).
  assert (disk st1 = disk st) as Hd1 by reflexivity.
  rewrite Hd1. unfold os_rmtree, db_delete_bucket. rewrite Hd1.
  split; [|split; [discriminate|split]].
  - destruct (Fs.exists_ (disk st) (bucket_dir u b)) eqn:He.
    + destruct (rmtree_raises flt); [discriminate|].
      destruct (Fs.rmtree (disk st) (bucket_dir u b)) as [d|] eqn:Hrm;
        cbn [option_map]; [|discriminate].
      destruct (DeleteBucketFacts.rmtree_gone _ _ _ Hrm) as [Hg1 Hg2].
      destruct (delete_one_raises flt); [discriminate|].
      intros _. cbn [fst snd]. repeat split; auto.
      * intros f. apply DeleteBucketFacts.delete_files_of_bucket_gone.
      * intros b'. cbn [buckets_collection set_buckets set_disk].
        now apply DeleteBucketFacts.delete_bucket_by_id_gone.
    + destruct (delete_one_raises flt); [discriminate|].
      intros _. cbn [fst snd]. repeat split; auto.
      * intros f. apply DeleteBucketFacts.delete_files_of_bucket_gone.
      * intros q rest. now apply DeleteBucketFacts.not_exists_nothing_below.
      * intros b'. cbn [buckets_collection set_buckets].
        now apply DeleteBucketFacts.delete_bucket_by_id_gone.
  - intros _ Hrt He. now rewrite He, Hrt.
  - intros _ Hrt Hdo d Hrm. rewrite Hrt, Hdo, Hrm.
    destruct (DeleteBucketFacts.rmtree_inv _ _ _ Hrm) as (q & Hq & _ & Hdir & _).
    assert (Fs.exists_ (disk st) (bucket_dir u b) = true) as ->.
    { unfold Fs.exists_, Fs.present. rewrite Hq. unfold Fs.is_dir in Hdir.
      destruct (Fs.lookup (disk st) q); [reflexivity | discriminate]. }
    cbn [option_map fst snd]. split; [reflexivity|].
    split; [apply (DeleteBucketFacts.rmtree_gone _ _ _ Hrm)|].
    cbn [buckets_collection set_disk]. subst st1. cbn [buckets_collection set_files].
    unfold find_bucket in Hb. apply find_some in Hb. apply Hb.
Qed.

(** ** Where the blob goes *)

(** C9 at a failing input: the filename ["../escaped.txt"].  The upload
    into ["docs"] is answered with 200, and the blob is the file
    [escaped.txt] of the owner's directory: outside the directory of the
    bucket, which stays empty. *)
Lemma upload_escapes_bucket_directory :
  let r := upload_file no_faults "t1" with_bucket alice "docs"
             "../escaped.txt" None (bytes_of "hello") in
  http_status (fst r) = 200 /\
  Fs.resolve (disk (snd r)) (bucket_dir alice "docs")
  = Some ["app"; "storage"; "000000000000000000000001"; "docs"] /\
  Fs.resolve (disk (snd r)) (upload_path alice "docs" "../escaped.txt")
  = Some ["app"; "storage"; "000000000000000000000001"; "escaped.txt"] /\
  Fs.lookup (disk (snd r))
    ["app"; "storage"; "000000000000000000000001"; "escaped.txt"]
  = Some (Fs.File (bytes_of "hello")) /\
  Fs.lookup (disk (snd r))
    ["app"; "storage"; "000000000000000000000001"; "docs"]
  = Some (Fs.Dir []).
Proof. repeat split; reflexivity. Qed.

(** An absolute filename leaves the storage directory altogether:
    [os.path.join] drops everything before it. *)
Lemma upload_absolute_filename :
  let r := upload_file no_faults "t1" with_bucket alice "docs"
             "/app/leak.txt" None (bytes_of "hello") in
  http_status (fst r) = 200 /\
  upload_path alice "docs" "/app/leak.txt" = "/app/leak.txt" /\
  Fs.lookup (disk (snd r)) ["app"; "leak.txt"]
  = Some (Fs.File (bytes_of "hello")).
Proof. repeat split; reflexivity. Qed.

(** ** What every reachable state satisfies *)

Module Reach.

Lemma find_bucket_some bs name u bucket :
  find_bucket bs name u = Some bucket ->
  In bucket bs /\ b_name bucket = name /\ b_user_id bucket = u.
Proof.
  unfold find_bucket. intros H. apply find_some in H as [Hin Hp].
  apply andb_prop in Hp as [H1 H2].
  apply String.eqb_eq in H1. apply N.eqb_eq in H2. auto.
Qed.

Lemma find_file_some fs id name f :
  find_file fs id name = Some f ->
  In f fs /\ f_bucket_id f = id /\ f_filename f = name.
Proof.
  unfold find_file. intros H. apply find_some in H as [Hin Hp].
  apply andb_prop in Hp as [H1 H2].
  apply String.eqb_eq in H2. apply N.eqb_eq in H1. auto.
Qed.

Lemma inc_bucket_stats_keys id dc ds bs b' :
  In b' (inc_bucket_stats id dc ds bs) ->
  exists b, In b bs /\ same_key b b'.
Proof.
  induction bs as [|b0 bs IH]; simpl; [contradiction|].
  destruct (N.eqb (b_id b0) id).
  - intros [E|Hin].
    + exists b0. split; [now left|]. subst b'. repeat split.
    + exists b'. split; [now right|]. repeat split.
  - intros [E|Hin].
    + exists b'. split; [now left|]. repeat split.
    + destruct (IH Hin) as (b & Hb & Hk). exists b. split; [now right | exact Hk].
Qed.

Lemma delete_bucket_by_id_incl id bs b :
  In b (delete_bucket_by_id id bs) -> In b bs.
Proof.
  induction bs as [|b0 bs IH]; simpl; [auto|].
  destruct (N.eqb (b_id b0) id); [now right|].
  intros [<-|H]; [now left | right; auto].
Qed.

Lemma delete_file_by_id_incl id fs f :
  In f (delete_file_by_id id fs) -> In f fs.
Proof.
  induction fs as [|f0 fs IH]; simpl; [auto|].
  destruct (N.eqb (f_id f0) id); [now right|].
  intros [<-|H]; [now left | right; auto].
Qed.

Lemma delete_files_of_bucket_incl id fs f :
  In f (delete_files_of_bucket id fs) -> In f fs.
Proof. unfold delete_files_of_bucket. intros H. now apply filter_In in H. Qed.

(** Fewer documents, counters changed, a larger id counter: still
    consistent. *)
Lemma consistent_weaken bs fs n bs' fs' n' :
  consistent bs fs n ->
  (forall b', In b' bs' -> exists b, In b bs /\ same_key b b') ->
  (forall f, In f fs' -> In f fs) ->
  (n <= n')%N ->
  consistent bs' fs' n'.
Proof.
  intros (K1 & K2 & K3) Hbs Hfs Hn. split; [|split].
  - intros b' Hb'. destruct (Hbs _ Hb') as (b & Hb & (E & _)).
    specialize (K1 _ Hb). lia.
  - intros b1 b2 H1 H2 E.
    destruct (Hbs _ H1) as (c1 & Hc1 & (E1 & N1 & U1)).
    destruct (Hbs _ H2) as (c2 & Hc2 & (E2 & N2 & U2)).
    destruct (K2 c1 c2 Hc1 Hc2) as [Hn' Hu']; [congruence|].
    split; congruence.
  - intros f Hf. destruct (K3 _ (Hfs _ Hf)) as (Hlt & Hp & Hm).
    split; [lia|]. split; [exact Hp|].
    intros b' Hb' E. destruct (Hbs _ Hb') as (c & Hc & (E1 & N1 & U1)).
    destruct (Hm c Hc) as [Hn' Hu']; [congruence|]. split; congruence.
Qed.

Lemma same_key_refl bs b : In b bs -> exists b0, In b0 bs /\ same_key b0 b.
Proof. intros H. exists b. split; [exact H | repeat split]. Qed.

Lemma consistent_add_bucket bs fs n name d u now :
  consistent bs fs n ->
  consistent (bs ++ [mkBucketDoc n name d u now 0 0]) fs (N.succ n).
Proof.
  intros (K1 & K2 & K3). split; [|split].
  - intros b Hb. apply in_app_or in Hb as [Hb | [<-|[]]].
    + specialize (K1 _ Hb). lia.
    + simpl. lia.
  - intros b1 b2 H1 H2 E.
    apply in_app_or in H1 as [H1 | [<-|[]]];
      apply in_app_or in H2 as [H2 | [<-|[]]]; simpl in *; auto.
    + specialize (K1 _ H1). lia.
    + specialize (K1 _ H2). lia.
  - intros f Hf. destruct (K3 _ Hf) as (Hlt & Hp & Hm).
    split; [lia|]. split; [exact Hp|].
    intros b Hb E. apply in_app_or in Hb as [Hb | [<-|[]]]; [now apply Hm|].
    simpl in E. lia.
Qed.

Lemma consistent_add_file bs fs n bucket f ct now size :
  consistent bs fs n ->
  In bucket bs ->
  consistent bs
    (fs ++ [mkFileDoc n f (b_id bucket) (b_name bucket) (b_user_id bucket)
              size ct now
              (upload_path (b_user_id bucket) (b_name bucket) f)])
    (N.succ n).
Proof.
  intros (K1 & K2 & K3) Hin. split; [|split].
  - intros b Hb. specialize (K1 _ Hb). lia.
  - exact K2.
  - intros f0 Hf. apply in_app_or in Hf as [Hf | [<-|[]]].
    + destruct (K3 _ Hf) as (Hlt & Hp & Hm).
      split; [lia|]. split; [exact Hp | exact Hm].
    + simpl. split; [specialize (K1 _ Hin); lia|]. split; [reflexivity|].
      intros b Hb E. now apply (K2 b bucket).
Qed.

End Reach.

(** ** The collections after each handler, whatever fails *)

Module Meta.
#[local] Open Scope list_scope.

Ltac meta_done :=
  cbn; split; [reflexivity|split];
  first [left; reflexivity | right; eexists; reflexivity].

Lemma create_bucket_meta flt now st u name d :
  let st' := snd (create_bucket flt now st u name d) in
  (buckets_collection st' = buckets_collection st /\
   files_collection st' = files_collection st /\
   next_oid st' = next_oid st) \/
  (buckets_collection st'
   = buckets_collection st ++ [mkBucketDoc (next_oid st) name d u now 0 0] /\
   files_collection st' = files_collection st /\
   next_oid st' = N.succ (next_oid st)).
Proof.
  unfold create_bucket, create_bucket_except, os_makedirs, os_rmtree,
    db_insert_bucket.
  destruct (Py.falsy name || Py.falsy (Py.strip name)); [now left|].
  destruct (negb _); [now left|].
  destruct (find_bucket _ _ _); [now left|].
  destruct (makedirs_raises flt).
  { destruct (Fs.exists_ _ _); [|now left].
    destruct (rmtree_raises flt); [now left|].
    destruct (Fs.rmtree _ _); now left. }
  destruct (Fs.makedirs _ _) as [d1|]; cbn [option_map].
  - destruct (insert_one_raises flt); [|now right].
    cbn [disk set_disk].
    destruct (Fs.exists_ _ _); [|now left].
    destruct (rmtree_raises flt); [now left|].
    destruct (Fs.rmtree _ _); now left.
  - destruct (Fs.exists_ _ _); [|now left].
    destruct (rmtree_raises flt); [now left|].
    destruct (Fs.rmtree _ _); now left.
Qed.

Lemma upload_file_meta flt now st u b f ct data :
  let st' := snd (upload_file flt now st u b f ct data) in
  (buckets_collection st' = buckets_collection st /\
   files_collection st' = files_collection st /\
   next_oid st' = next_oid st) \/
  (exists bucket,
      find_bucket (buckets_collection st) b u = Some bucket /\
      (buckets_collection st' = buckets_collection st \/
       buckets_collection st'
       = inc_bucket_stats (b_id bucket) 1 (Z.of_nat (List.length data))
           (buckets_collection st)) /\
      files_collection st'
      = files_collection st
        ++ [mkFileDoc (next_oid st) f (b_id bucket) b u
              (Z.of_nat (List.length data)) (stored_content_type ct) now
              (upload_path u b f)] /\
      next_oid st' = N.succ (next_oid st)).
Proof.
  unfold upload_file.
  destruct (find_bucket _ _ _) as [bucket|] eqn:Hb; [|now left].
  destruct (check_storage_limit _ _ _) as [[|]|]; try (now left).
  destruct (Fs.exists_ _ _); [now left|].
  assert (forall st1,
    buckets_collection (snd (upload_file_except flt st1 (upload_path u b f)))
    = buckets_collection st1 /\
    files_collection (snd (upload_file_except flt st1 (upload_path u b f)))
    = files_collection st1 /\
    next_oid (snd (upload_file_except flt st1 (upload_path u b f)))
    = next_oid st1) as Hex.
  { intros st1. unfold upload_file_except, os_remove.
    destruct (Fs.exists_ _ _); [|auto].
    destruct (remove_raises flt); [auto|].
    destruct (Fs.remove _ _); cbn; auto. }
  assert (buckets_collection (fst (os_write flt st (upload_path u b f) data))
          = buckets_collection st /\
          files_collection (fst (os_write flt st (upload_path u b f) data))
          = files_collection st /\
          next_oid (fst (os_write flt st (upload_path u b f) data))
          = next_oid st) as Hw.
  { unfold os_write. destruct (open_raises flt); [auto|].
    destruct (write_raises flt); destruct (Fs.write_file _ _ _); cbn; auto. }
  destruct (os_write flt st (upload_path u b f) data) as [st1 [|]];
    cbn [fst] in Hw; destruct Hw as (W1 & W2 & W3).
  - unfold db_insert_file. destruct (insert_one_raises flt).
    + left. destruct (Hex st1) as (E1 & E2 & E3). repeat split; congruence.
    + unfold db_inc_bucket_stats. destruct (update_one_raises flt).
      * right. exists bucket. split; [reflexivity|].
        match goal with |- context [upload_file_except flt ?S _] =>
          destruct (Hex S) as (E1 & E2 & E3) end.
        rewrite E1, E2, E3. cbn. rewrite W1, W2, W3. auto.
      * right. exists bucket. split; [reflexivity|].
        cbn. rewrite W1, W2, W3. auto.
  - left. destruct (Hex st1) as (E1 & E2 & E3). repeat split; congruence.
Qed.

Lemma delete_file_meta flt st u b f :
  let st' := snd (delete_file flt st u b f) in
  next_oid st' = next_oid st /\
  (buckets_collection st' = buckets_collection st \/
   exists id dc ds,
     buckets_collection st' = inc_bucket_stats id dc ds (buckets_collection st)) /\
  (files_collection st' = files_collection st \/
   exists id,
     files_collection st' = delete_file_by_id id (files_collection st)).
Proof.
  unfold delete_file, os_remove, db_delete_file, db_inc_bucket_stats.
  destruct (find_bucket _ _ _); [|cbn; auto].
  destruct (find_file _ _ _); [|cbn; auto].
  destruct (Fs.exists_ _ _).
  - destruct (Fs.getsize _ _); [|cbn; auto].
    destruct (remove_raises flt); [cbn; auto|].
    destruct (Fs.remove _ _); cbn [option_map]; [|cbn; auto].
    destruct (delete_one_raises flt); [cbn; auto|].
    destruct (update_one_raises flt); cbn;
      (split; [reflexivity|split; [|right; eexists; reflexivity]]);
      [now left | right; do 3 eexists; reflexivity].
  - destruct (delete_one_raises flt); [cbn; auto|].
    destruct (update_one_raises flt); cbn;
      (split; [reflexivity|split; [|right; eexists; reflexivity]]);
      [now left | right; do 3 eexists; reflexivity].
Qed.

Lemma delete_bucket_meta flt st u b :
  let st' := snd (delete_bucket flt st u b) in
  next_oid st' = next_oid st /\
  (buckets_collection st' = buckets_collection st \/
   exists id,
     buckets_collection st' = delete_bucket_by_id id (buckets_collection st)) /\
  (files_collection st' = files_collection st \/
   exists id,
     files_collection st' = delete_files_of_bucket id (files_collection st)).
Proof.
  unfold delete_bucket, os_rmtree, db_delete_bucket, db_delete_files_of_bucket.
  destruct (find_bucket _ _ _); [|cbn; auto].
  destruct (delete_many_raises flt); [cbn; auto|].
  cbn [disk set_files].
  destruct (Fs.exists_ (disk st) (bucket_dir u b)).
  - destruct (rmtree_raises flt); [meta_done|].
    destruct (Fs.rmtree (disk st) (bucket_dir u b)); cbn [option_map];
      [|meta_done].
    destruct (delete_one_raises flt); meta_done.
  - destruct (delete_one_raises flt); meta_done.
Qed.

End Meta.

(** ** Reachable states are consistent *)

Lemma serve_consistent flt now st r :
  consistent_state st -> consistent_state (serve flt now st r).
Proof.
  unfold consistent_state. intros Hc. destruct r as [u name d|u b|u b f ct data|u b f];
    cbn [serve].
  - destruct (Meta.create_bucket_meta flt now st u name d)
      as [(-> & -> & ->) | (-> & -> & ->)]; [exact Hc|].
    now apply Reach.consistent_add_bucket.
  - destruct (Meta.delete_bucket_meta flt st u b) as (-> & Hb & Hf).
    eapply Reach.consistent_weaken; [exact Hc| | |lia].
    + destruct Hb as [-> | [id ->]]; intros b' Hb'.
      * now apply Reach.same_key_refl.
      * apply Reach.same_key_refl. eapply Reach.delete_bucket_by_id_incl, Hb'.
    + destruct Hf as [-> | [id ->]]; intros f' Hf'; auto.
      eapply Reach.delete_files_of_bucket_incl, Hf'.
  - destruct (Meta.upload_file_meta flt now st u b f ct data)
      as [(-> & -> & ->) | (bucket & Hfind & Hb & -> & ->)]; [exact Hc|].
    destruct (Reach.find_bucket_some _ _ _ _ Hfind) as (Hin & <- & <-).
    pose proof (Reach.consistent_add_file _ _ _ bucket f
                  (stored_content_type ct) now
                  (Z.of_nat (List.length data)) Hc Hin) as Hc'.
    destruct Hb as [-> | ->]; [exact Hc'|].
    eapply Reach.consistent_weaken; [exact Hc'| |auto|lia].
    intros b'. apply Reach.inc_bucket_stats_keys.
  - destruct (Meta.delete_file_meta flt st u b f) as (-> & Hb & Hf).
    eapply Reach.consistent_weaken; [exact Hc| | |lia].
    + destruct Hb as [-> | (id & dc & ds & ->)]; intros b' Hb'.
      * now apply Reach.same_key_refl.
      * eapply Reach.inc_bucket_stats_keys, Hb'.
    + destruct Hf as [-> | [id ->]]; intros f' Hf'; auto.
      eapply Reach.delete_file_by_id_incl, Hf'.
Qed.

Lemma reachable_consistent st : reachable st -> consistent_state st.
Proof.
  induction 1 as [|flt now st r _ IH].
  - repeat split; simpl; intros; contradiction.
  - now apply serve_consistent.
Qed.

Lemma run_reachable rs st : reachable st -> reachable (run st rs).
Proof.
  revert st. induction rs as [|x rs IH]; intros st H; [exact H|].
  cbn [run fold_left]. apply IH. now constructor.
Qed.

(** ** Round trip *)

(** C8.  In every state the service can reach, a successful upload of
    [data] as [f] into bucket [b] followed by the download of [f] from [b]
    answers 200 with exactly [data]; the record the upload inserted is in
    the collection and its size is the length of [data]. *)
Theorem upload_download_roundtrip
  (st : State) (flt : faults) (now : string) (u : ObjectId) (b f : string)
  (ct : option string) (data : list Byte.byte)
  (s : Z) (doc : FileDoc) (st' : State) :
  reachable st ->
  upload_file flt now st u b f ct data = (Success s doc, st') ->
  download_file st' u b f = Success 200 data /\
  In doc (files_collection st') /\
  f_filename doc = f /\
  f_size doc = Z.of_nat (List.length data).
Proof.
  intros Hreach Hup.
  destruct (reachable_consistent _ Hreach) as (K1 & K2 & K3).
  destruct (UploadSuccess.upload_success_inv _ _ _ _ _ _ _ _ _ _ _ Hup)
    as (bucket & d & Hb & Hq & He & Hw & -> & Hdoc & ->).
  destruct (Reach.find_bucket_some _ _ _ _ Hb) as (Hin & Hname & Huser).
  assert (In doc (files_collection st ++ [doc])) as Hdin.
  { apply in_or_app. right. now left. }
  split; [|subst doc; repeat split; auto].
  unfold download_file. cbn [buckets_collection files_collection disk].
  destruct (UploadSuccess.find_bucket_inc_some (b_id bucket) 1
              (Z.of_nat (List.length data)) _ _ _ _ Hb) as (b' & -> & ->).
  destruct (find_file (files_collection st ++ [doc]) (b_id bucket) f)
    as [f'|] eqn:Hf.
  2:{ unfold find_file in Hf. pose proof (find_none _ _ Hf doc Hdin) as Hn.
      subst doc. cbn in Hn. now rewrite N.eqb_refl, String.eqb_refl in Hn. }
  destruct (Reach.find_file_some _ _ _ _ Hf) as (Hf'in & Hf'b & Hf'n).
  assert (stored_path f' u b f = upload_path u b f) as ->.
  { unfold stored_path. destruct (Py.falsy (f_file_path f')); [reflexivity|].
    apply in_app_or in Hf'in as [Hold | [<-|[]]].
    - destruct (K3 _ Hold) as (_ & -> & Hm).
      destruct (Hm bucket Hin (eq_sym Hf'b)) as [<- <-]. congruence.
    - subst doc. reflexivity. }
  rewrite (DiskCalls.write_file_exists _ _ _ _ Hw).
  rewrite (DiskCalls.write_file_read _ _ _ _ Hw). reflexivity.
Qed.

(** ** Counting records *)

Module Counters.
#[local] Open Scope list_scope.

Lemma count_files_app fs1 fs2 id :
  count_files (fs1 ++ fs2) id = count_files fs1 id + count_files fs2 id.
Proof. induction fs1 as [|f fs1 IH]; simpl; [reflexivity | rewrite IH; lia]. Qed.

Lemma sum_sizes_app fs1 fs2 id :
  sum_sizes (fs1 ++ fs2) id = sum_sizes fs1 id + sum_sizes fs2 id.
Proof. induction fs1 as [|f fs1 IH]; simpl; [reflexivity | rewrite IH; lia]. Qed.

Lemma map_b_id_inc id dc ds bs :
  map b_id (inc_bucket_stats id dc ds bs) = map b_id bs.
Proof.
  induction bs as [|b bs IH]; simpl; auto.
  destruct (N.eqb (b_id b) id); simpl; congruence.
Qed.

(** With unique ids, [update_one] changes the one bucket of that id. *)
Lemma inc_bucket_stats_in id dc ds bs b' :
  NoDup (map b_id bs) ->
  In b' (inc_bucket_stats id dc ds bs) ->
  (b_id b' <> id /\ In b' bs) \/
  (b_id b' = id /\
   exists b, In b bs /\ b_id b = id /\
             b_file_count b' = b_file_count b + dc /\
             b_total_size b' = b_total_size b + ds).
Proof.
  induction bs as [|b0 bs IH]; simpl; intros Hnd Hin; [contradiction|].
  inversion Hnd as [|? ? Hnotin Hnd']; subst.
  destruct (N.eqb_spec (b_id b0) id) as [E|E].
  - destruct Hin as [Hb'|Hb'].
    + right. subst b'. simpl. split; [exact E|].
      exists b0. repeat split; auto.
    + left. split; [|now right].
      intros Hid. apply Hnotin. rewrite E, <- Hid. now apply in_map.
  - destruct Hin as [Hb'|Hb'].
    + left. subst b'. split; [exact E | now left].
    + destruct (IH Hnd' Hb') as [[H1 H2] | (H1 & b & Hb & H2)].
      * left. split; [exact H1 | now right].
      * right. split; [exact H1|]. exists b. split; [now right | exact H2].
Qed.

(** With unique ids, [delete_one] takes out the one record of that id. *)
Lemma delete_file_by_id_split fs fd :
  NoDup (map f_id fs) -> In fd fs ->
  exists l1 l2, fs = l1 ++ fd :: l2 /\
                delete_file_by_id (f_id fd) fs = l1 ++ l2.
Proof.
  induction fs as [|f0 fs IH]; simpl; intros Hnd Hin; [contradiction|].
  inversion Hnd as [|? ? Hnotin Hnd']; subst.
  destruct (N.eqb_spec (f_id f0) (f_id fd)) as [E|E].
  - destruct Hin as [->|Hin].
    + exists [], fs. auto.
    + exfalso. apply Hnotin. rewrite E. now apply in_map.
  - destruct Hin as [->|Hin]; [congruence|].
    destruct (IH Hnd' Hin) as (l1 & l2 & -> & ->).
    exists (f0 :: l1), l2. auto.
Qed.

Lemma NoDup_map_remove {A B} (g : A -> B) l1 x l2 :
  NoDup (map g (l1 ++ x :: l2)) ->
  NoDup (map g (l1 ++ l2)) /\ ~ In (g x) (map g (l1 ++ l2)).
Proof.
  rewrite !map_app. simpl. apply NoDup_remove.
Qed.

Lemma NoDup_map_snoc {A B} (g : A -> B) l x :
  NoDup (map g l) -> ~ In (g x) (map g l) -> NoDup (map g (l ++ [x])).
Proof.
  intros Hnd Hx. rewrite map_app. simpl.
  apply NoDup_app; [exact Hnd | repeat constructor; auto |].
  intros y Hy [<-|[]]. contradiction.
Qed.

End Counters.

(** ** Bucket directories *)

Module Paths.
Import Fs FsFacts.
#[local] Open Scope list_scope.

Lemma walk_plain root cur comps q :
  Forall plain comps -> walk root cur comps = Some q -> q = cur ++ comps.
Proof.
  intros Hp. revert cur. induction Hp as [|c rest [H1 H2] _ IH]; intros cur; simpl.
  - intros [= <-]. now rewrite app_nil_r.
  - destruct (is_dir root cur); [|discriminate]. rewrite H1, H2.
    intros H. apply IH in H. rewrite H, <- app_assoc. reflexivity.
Qed.

Lemma is_dir_set_at_dir_inv root q p :
  lookup root q = None ->
  is_dir (set_at root q (Some (Dir []))) p = true ->
  is_dir root p = true \/ p = q.
Proof.
  revert root p. induction q as [|c t IH]; intros root p Hq Hp; [now left|].
  destruct root as [d|es]; [now left|].
  destruct t as [|c1 t1].
  - simpl in Hq. simpl set_at in Hp.
    destruct p as [|c' p']; [now left|].
    unfold is_dir in *. cbn [lookup] in *.
    destruct (String.eqb_spec c' c) as [->|Hne].
    + rewrite assoc_put_same in Hp. destruct p' as [|c2 p2]; [now right|].
      simpl in Hp. discriminate.
    + rewrite assoc_put_other in Hp by exact Hne. now left.
  - rewrite set_at_cons in Hp by discriminate. cbn [lookup] in Hq.
    destruct (assoc c es) as [m|] eqn:Em; [|now left].
    destruct p as [|c' p']; [now left|].
    unfold is_dir in *. cbn [lookup] in *.
    destruct (String.eqb_spec c' c) as [->|Hne].
    + rewrite assoc_put_same in Hp. rewrite Em.
      destruct (IH m p' Hq Hp) as [H | ->]; [now left | now right].
    + rewrite assoc_put_other in Hp by exact Hne. now left.
Qed.

Lemma forallb_is_dot_plain rest :
  Forall plain rest -> forallb is_dot rest = match rest with [] => true | _ => false end.
Proof.
  intros H. destruct H as [|c rest [H1 _] _]; simpl; [reflexivity|].
  now rewrite H1.
Qed.

(** What [os.makedirs] does to the disk when it goes through: directories
    and regular files stay, and every new directory lies on the way to the
    leaf. *)
Lemma makedirs_from_plain root cur comps root' :
  Forall plain comps -> makedirs_from root cur comps = Some root' ->
  (forall p, is_dir root p = true -> is_dir root' p = true) /\
  (forall q d, lookup root q = Some (File d) -> lookup root' q = Some (File d)) /\
  (forall p, is_dir root' p = true ->
     is_dir root p = true \/
     exists pre post, pre <> [] /\ comps = pre ++ post /\ p = cur ++ pre).
Proof.
  intros Hp. revert root cur.
  induction Hp as [|c rest [H1 H2] Hrest IH]; intros root cur; [discriminate|].
  cbn [makedirs_from]. destruct (is_dir root cur); [|discriminate].
  rewrite H1, H2, (forallb_is_dot_plain _ Hrest).
  destruct (lookup root (cur ++ [c])) as [[d0|es]|] eqn:Hl; [discriminate| |].
  - destruct rest as [|c1 rest1]; [discriminate|].
    intros H. destruct (IH _ _ H) as (I1 & I2 & I3).
    split; [exact I1|]. split; [exact I2|].
    intros p Hd. destruct (I3 p Hd) as [Hd0 | (pre & post & Hpre & E & ->)];
      [now left|].
    right. exists (c :: pre), post. split; [discriminate|].
    split; [now rewrite E|]. now rewrite <- app_assoc.
  - assert (forall p, is_dir root p = true ->
              is_dir (set_at root (cur ++ [c]) (Some (Dir []))) p = true) as J1.
    { intros p. now apply is_dir_set_at_new. }
    assert (forall q d, lookup root q = Some (File d) ->
              lookup (set_at root (cur ++ [c]) (Some (Dir []))) q
              = Some (File d)) as J2.
    { intros q d Hq. apply lookup_set_at_file; [exact Hq|].
      intros r ->. rewrite lookup_app_none in Hq; [discriminate | exact Hl]. }
    assert (forall p, is_dir (set_at root (cur ++ [c]) (Some (Dir []))) p = true ->
              is_dir root p = true \/ p = cur ++ [c]) as J3.
    { intros p. now apply is_dir_set_at_dir_inv. }
    destruct rest as [|c1 rest1].
    + intros [= <-]. split; [exact J1|]. split; [exact J2|].
      intros p Hd. destruct (J3 p Hd) as [Hd0 | ->]; [now left|].
      right. exists [c], []. split; [discriminate|]. auto.
    + intros H. destruct (IH _ _ H) as (I1 & I2 & I3).
      split; [auto|]. split; [auto|].
      intros p Hd. destruct (I3 p Hd) as [Hd0 | (pre & post & Hpre & E & ->)].
      * destruct (J3 p Hd0) as [Hd1 | ->]; [now left|].
        right. exists [c], (c1 :: rest1). split; [discriminate|]. auto.
      * right. exists (c :: pre), post. split; [discriminate|].
        split; [now rewrite E|]. now rewrite <- app_assoc.
Qed.

Lemma is_dir_prefix root p r :
  is_dir root (p ++ r) = true -> is_dir root p = true.
Proof.
  unfold is_dir. rewrite lookup_app.
  destruct (lookup root p) as [[d|es]|]; auto.
  destruct r; simpl; discriminate.
Qed.

(** Unbinding [q] keeps the directories that are not at or below [q]. *)
Lemma is_dir_set_at_none_other root q p :
  is_dir root p = true -> (forall r, p <> q ++ r) ->
  is_dir (set_at root q None) p = true.
Proof.
  revert root q. induction p as [|c' t' IH]; intros root q Hd Hpre.
  - destruct q as [|c t]; [exact Hd|].
    destruct root as [d|es]; [exact Hd|].
    destruct t as [|c1 t1]; [reflexivity|].
    rewrite set_at_cons by discriminate. now destruct (assoc c es).
  - destruct root as [d0|es]; [discriminate|].
    unfold is_dir in Hd. cbn [lookup] in Hd.
    destruct (assoc c' es) as [m|] eqn:Em; [|discriminate].
    destruct q as [|c t].
    + exfalso. apply (Hpre (c' :: t')). reflexivity.
    + destruct t as [|c1 t1].
      * assert (c' <> c) as Hne.
        { intros ->. apply (Hpre t'). reflexivity. }
        unfold is_dir. simpl. rewrite assoc_drop_other by exact Hne.
        now rewrite Em.
      * rewrite set_at_cons by discriminate.
        destruct (assoc c es) as [m0|] eqn:Em0.
        -- unfold is_dir. cbn [lookup].
           destruct (String.eqb_spec c' c) as [->|Hne].
           ++ rewrite assoc_put_same.
              assert (m0 = m) as -> by congruence.
              apply IH; [exact Hd|].
              intros r Hr. apply (Hpre r). simpl. now rewrite Hr.
           ++ rewrite assoc_put_other by exact Hne. now rewrite Em.
        -- unfold is_dir. cbn [lookup]. now rewrite Em.
Qed.

Lemma walk_plain_success root cur comps :
  Forall plain comps -> is_dir root (cur ++ comps) = true ->
  walk root cur comps = Some (cur ++ comps).
Proof.
  intros Hp. revert cur. induction Hp as [|c rest [H1 H2] _ IH]; intros cur Hd.
  - now rewrite app_nil_r.
  - cbn [walk]. rewrite (is_dir_prefix _ _ _ Hd), H1, H2.
    rewrite IH; rewrite <- app_assoc; [reflexivity | exact Hd].
Qed.

(** When [os.makedirs] goes through, the leaf was missing before and is a
    directory afterwards. *)
Lemma makedirs_from_leaf root cur comps root' :
  Forall plain comps -> makedirs_from root cur comps = Some root' ->
  lookup root (cur ++ comps) = None /\ is_dir root' (cur ++ comps) = true.
Proof.
  intros Hp. revert root cur.
  induction Hp as [|c rest [H1 H2] Hrest IH]; intros root cur; [discriminate|].
  cbn [makedirs_from]. destruct (is_dir root cur) eqn:Hcur; [|discriminate].
  rewrite H1, H2, (forallb_is_dot_plain _ Hrest).
  change (cur ++ c :: rest) with (cur ++ [c] ++ rest). rewrite app_assoc.
  destruct (lookup root (cur ++ [c])) as [[d0|es]|] eqn:Hl; [discriminate| |].
  - destruct rest as [|c1 rest1]; [discriminate|]. apply IH.
  - destruct rest as [|c1 rest1].
    + intros [= <-]. rewrite app_nil_r. split; [exact Hl|].
      unfold is_dir. now rewrite lookup_set_at_same.
    + intros H. destruct (IH _ _ H) as [_ Hd]. split; [|exact Hd].
      now apply lookup_app_none.
Qed.

(** *** The components of a bucket directory *)

Lemma name_char_not_sep c : name_char c = true -> Py.not_sep c = true.
Proof.
  unfold Py.not_sep. intros H.
  destruct (Ascii.eqb_spec c "/") as [->|]; [discriminate | reflexivity].
Qed.

Lemma accepted_name_chars name :
  name_rejected name = false ->
  Py.falsy name = false /\ Py.all_chars name_char name = true.
Proof.
  unfold name_rejected. intros H.
  apply orb_false_elim in H as [H1 H2].
  apply orb_false_elim in H1 as [H1 _].
  apply negb_false_iff in H2.
  rewrite NameFacts.isalnum_all_chars, NameFacts.all_chars_stripped in H2.
  apply andb_prop in H2 as [_ H2]. auto.
Qed.

Lemma accepted_name_component name :
  name_rejected name = false ->
  Py.all_chars Py.not_sep name = true /\ plain name.
Proof.
  intros H. destruct (accepted_name_chars _ H) as [Hne Hall].
  split.
  - eapply StrFacts.all_chars_impl; [apply name_char_not_sep | exact Hall].
  - destruct name as [|c s]; [discriminate|].
    simpl in Hall. apply andb_prop in Hall as [Hc _].
    unfold plain, is_dot, is_dotdot.
    destruct (Ascii.eqb_spec c ".") as [->|Hne']; [discriminate|].
    split.
    + apply orb_false_intro; apply String.eqb_neq; congruence.
    + apply String.eqb_neq. congruence.
Qed.

Lemma str_oid_component u :
  Py.all_chars Py.not_sep (str_oid u) = true /\ plain (str_oid u).
Proof.
  split; [apply StrFacts.str_oid_plain|].
  pose proof (StrFacts.length_hex_of 24 u) as Hlen. fold (str_oid u) in Hlen.
  unfold plain, is_dot, is_dotdot.
  split.
  - apply orb_false_intro; apply String.eqb_neq; intros E;
      rewrite E in Hlen; discriminate.
  - apply String.eqb_neq; intros E; rewrite E in Hlen; discriminate.
Qed.

Lemma path_join_plain a b :
  Py.falsy a = false -> Py.ends_with_sep a = false ->
  Py.all_chars Py.not_sep b = true ->
  Py.path_join a b = (a ++ String "/" b)%string.
Proof.
  intros Ha He Hb. unfold Py.path_join.
  now rewrite (StrFacts.starts_with_sep_plain _ Hb), Ha, He.
Qed.

Lemma falsy_app a b : Py.falsy a = false -> Py.falsy (a ++ b)%string = false.
Proof. destruct a; [discriminate | reflexivity]. Qed.

Lemma bucket_dir_split u name :
  name_rejected name = false ->
  Py.falsy (bucket_dir u name) = false /\
  Py.split_sep (bucket_dir u name) = [""%string; "app"%string; "storage"%string; str_oid u; name].
Proof.
  intros H. destruct (accepted_name_component _ H) as [Hn _].
  destruct (str_oid_component u) as [Hu [Hd _]].
  unfold bucket_dir, STORAGE_PATH.
  rewrite (path_join_plain "/app/storage" (str_oid u)) by auto.
  rewrite path_join_plain; auto.
  - split; [reflexivity|].
    rewrite !StrFacts.split_sep_app.
    rewrite (StrFacts.split_sep_plain _ Hn), (StrFacts.split_sep_plain _ Hu).
    reflexivity.
  - change ("/app/storage" ++ String "/" (str_oid u))%string
      with ("/app/storage/" ++ str_oid u)%string.
    rewrite StrFacts.ends_with_sep_app.
    + now apply StrFacts.ends_with_sep_plain.
    + intros E. unfold is_dot in Hd. rewrite E in Hd. discriminate.
Qed.

Lemma bucket_comps_plain u name :
  name_rejected name = false ->
  Forall plain ["app"%string; "storage"%string; str_oid u; name].
Proof.
  intros H. destruct (accepted_name_component _ H) as [_ Hn].
  destruct (str_oid_component u) as [_ Hu].
  repeat apply Forall_cons; try apply Forall_nil; auto; split; reflexivity.
Qed.

Lemma walk_from_root root rest :
  walk root [] (""%string :: rest)
  = if is_dir root [] then walk root [] rest else None.
Proof. reflexivity. Qed.

Lemma makedirs_from_root root c rest :
  is_dot c = false ->
  makedirs_from root [] (""%string :: c :: rest)
  = match root with
    | Dir _ => makedirs_from root [] (c :: rest)
    | File _ => None
    end.
Proof.
  intros Hc. cbn [makedirs_from]. unfold is_dir at 1. cbn [lookup].
  destruct root as [d|es]; [reflexivity|].
  change (is_dot "") with true. cbv iota. cbn [forallb]. rewrite Hc.
  reflexivity.
Qed.

(** An accepted bucket name resolves, if at all, to its own directory
    under the owner's directory. *)
Lemma resolve_bucket_dir root u name q :
  name_rejected name = false ->
  resolve root (bucket_dir u name) = Some q -> q = bucket_loc u name.
Proof.
  intros H. unfold resolve.
  destruct (bucket_dir_split u name H) as [-> ->].
  rewrite walk_from_root. destruct (is_dir root []); [|discriminate].
  intros Hw. apply (walk_plain _ _ _ _ (bucket_comps_plain u name H)) in Hw.
  exact Hw.
Qed.

Lemma makedirs_bucket_dir root u name root' :
  name_rejected name = false ->
  makedirs root (bucket_dir u name) = Some root' ->
  (forall p, is_dir root p = true -> is_dir root' p = true) /\
  (forall q d, lookup root q = Some (File d) -> lookup root' q = Some (File d)) /\
  (forall p, is_dir root' p = true ->
     is_dir root p = true \/
     exists pre post, pre <> [] /\
       ["app"%string; "storage"%string; str_oid u; name] = pre ++ post /\ p = pre).
Proof.
  intros H. unfold makedirs.
  destruct (bucket_dir_split u name H) as [-> ->].
  rewrite makedirs_from_root by reflexivity.
  destruct root as [d|es]; [discriminate|].
  apply (makedirs_from_plain _ [] _ _ (bucket_comps_plain u name H)).
Qed.

(** After a [create_bucket] got through [os.makedirs]: the directory was
    missing before, it exists now, and [shutil.rmtree] would remove just
    it. *)
Lemma makedirs_bucket_dir_leaf root u name root' :
  name_rejected name = false ->
  makedirs root (bucket_dir u name) = Some root' ->
  lookup root (bucket_loc u name) = None /\
  exists_ root' (bucket_dir u name) = true /\
  rmtree root' (bucket_dir u name)
  = Some (set_at root' (bucket_loc u name) None).
Proof.
  intros H Hmk. unfold makedirs in Hmk.
  destruct (bucket_dir_split u name H) as [Hne Hsplit].
  rewrite Hne, Hsplit in Hmk.
  rewrite makedirs_from_root in Hmk by reflexivity.
  destruct root as [d|es]; [discriminate|].
  destruct (makedirs_from_leaf _ [] _ _ (bucket_comps_plain u name H) Hmk)
    as [Hl Hd].
  change ([] ++ ["app"%string; "storage"%string; str_oid u; name])
    with (bucket_loc u name) in Hl, Hd.
  assert (resolve root' (bucket_dir u name) = Some (bucket_loc u name)) as Hr.
  { unfold resolve. rewrite Hne, Hsplit, walk_from_root.
    rewrite (is_dir_prefix root' [] (bucket_loc u name) Hd).
    apply (walk_plain_success root' [] _ (bucket_comps_plain u name H) Hd). }
  split; [exact Hl|]. split.
  - unfold exists_, present. rewrite Hr. unfold is_dir in Hd.
    destruct (lookup root' (bucket_loc u name)); [reflexivity | discriminate].
  - unfold rmtree. rewrite Hr. unfold bucket_loc at 1. cbn [storage_loc app].
    fold (bucket_loc u name) in *.
    change ["app"%string; "storage"%string; str_oid u; name]
      with (bucket_loc u name).
    now rewrite Hd.
Qed.

End Paths.

(** ** Invariant I1 along a run *)

Module Run.
Import Fs.
#[local] Open Scope list_scope.

Lemma count_fresh fs n :
  (forall f, In f fs -> (f_bucket_id f < n)%N) ->
  count_files fs n = 0 /\ sum_sizes fs n = 0.
Proof.
  induction fs as [|f fs IH]; simpl; intros H; [auto|].
  assert (forall f0, In f0 fs -> (f_bucket_id f0 < n)%N) as Hs.
  { intros f0 Hf0. apply H. now right. }
  destruct (IH Hs) as [-> ->].
  destruct (N.eqb_spec (f_bucket_id f) n) as [E|E]; [|auto].
  specialize (H f (or_introl eq_refl)). lia.
Qed.

Lemma read_file_resolve root s data :
  read_file root s = Some data ->
  exists q, resolve root s = Some q /\ lookup root q = Some (File data).
Proof.
  unfold read_file. destruct (resolve root s) as [q|]; [|discriminate].
  destruct (lookup root q) as [[d|es]|] eqn:Hl; try discriminate.
  intros [= ->]. exists q. split; [reflexivity | exact Hl].
Qed.

Lemma read_file_mono root root' s data :
  (forall p, is_dir root p = true -> is_dir root' p = true) ->
  (forall q d, lookup root q = Some (File d) -> lookup root' q = Some (File d)) ->
  read_file root s = Some data ->
  read_file root' s = Some data /\ resolve root' s = resolve root s.
Proof.
  intros Hd Hf Hr. destruct (read_file_resolve _ _ _ Hr) as (q & Hq & Hl).
  pose proof (FsFacts.resolve_mono _ _ _ _ Hd Hq) as Hq'.
  split; [|congruence].
  unfold read_file. now rewrite Hq', (Hf _ _ Hl).
Qed.

Lemma find_bucket_app_old bs l name u :
  find_bucket bs name u <> None -> find_bucket (bs ++ l) name u <> None.
Proof.
  unfold find_bucket. induction bs as [|b bs IH]; simpl; [congruence|].
  destruct (String.eqb (b_name b) name && N.eqb (b_user_id b) u);
    [discriminate | exact IH].
Qed.

Lemma find_bucket_app_new bs name d u now n :
  find_bucket (bs ++ [mkBucketDoc n name d u now 0 0]) name u <> None.
Proof.
  unfold find_bucket. induction bs as [|b bs IH]; simpl.
  - now rewrite String.eqb_refl, N.eqb_refl.
  - destruct (String.eqb (b_name b) name && N.eqb (b_user_id b) u);
      [discriminate | exact IH].
Qed.

Lemma fresh_not_in {A} (g : A -> N) (l : list A) (n : N) :
  (forall x, In x l -> (g x < n)%N) -> ~ In n (map g l).
Proof.
  intros H Hin. apply in_map_iff in Hin as (x & E & Hx).
  specialize (H x Hx). lia.
Qed.

Lemma four_components {A} (a b c d c' d' : A) post :
  [a; b; c; d] = [a; b; c'; d'] ++ post -> c = c' /\ d = d' /\ post = [].
Proof.
  cbn [app]. intros [= -> -> E]. destruct post; [auto | discriminate].
Qed.

Lemma healthy_initial : healthy initial_state.
Proof.
  constructor; cbn [initial_state buckets_collection files_collection disk
                    next_oid map].
  - intros b [].
  - constructor.
  - intros b [].
  - constructor.
  - intros f [].
  - intros f [].
  - constructor.
  - intros u name _ _. unfold bucket_loc, is_dir. simpl. discriminate.
Qed.

(** A change of the disk that keeps the directories and the regular files
    it had, and adds no bucket directory. *)
Lemma healthy_change_disk st d :
  healthy st ->
  (forall p, is_dir (disk st) p = true -> is_dir d p = true) ->
  (forall q data, lookup (disk st) q = Some (File data) ->
                  lookup d q = Some (File data)) ->
  (forall u name, is_dir d (bucket_loc u name) = true ->
                  is_dir (disk st) (bucket_loc u name) = true) ->
  healthy (set_disk st d).
Proof.
  intros [HA HB HBf HC HCf HD HE HF] P1 P2 P3.
  constructor; cbn [set_disk buckets_collection files_collection disk next_oid];
    auto.
  - intros f Hf. destruct (HD _ Hf) as (data & Hr & Hs).
    exists data. split; [|exact Hs]. now apply (read_file_mono _ _ _ _ P1 P2 Hr).
  - erewrite map_ext_in; [exact HE|].
    intros f Hf. destruct (HD _ Hf) as (data & Hr & _).
    unfold record_loc. now apply (read_file_mono _ _ _ _ P1 P2 Hr).
Qed.

Lemma create_bucket_except_unchanged flt st u name :
  healthy st -> valid_oid u -> name_rejected name = false ->
  find_bucket (buckets_collection st) name u = None ->
  snd (create_bucket_except flt st (bucket_dir u name)) = st.
Proof.
  intros H Hu Hacc Hfind. unfold create_bucket_except, os_rmtree.
  destruct (exists_ _ _); [|reflexivity].
  destruct (rmtree_raises flt); [reflexivity|].
  destruct (rmtree (disk st) (bucket_dir u name)) as [d|] eqn:Hrm;
    [|reflexivity].
  exfalso.
  destruct (DeleteBucketFacts.rmtree_inv _ _ _ Hrm) as (q & Hq & _ & Hd & _).
  apply (Paths.resolve_bucket_dir _ _ _ _ Hacc) in Hq. subst q.
  now apply (h_dirs st H u name Hu Hacc Hd).
Qed.

(** [insert_one] raised after [os.makedirs]: the [except] block takes the
    new directory away again. *)
Lemma create_bucket_except_after_makedirs flt st u name d1 :
  rmtree_raises flt = false ->
  healthy st -> name_rejected name = false ->
  makedirs (disk st) (bucket_dir u name) = Some d1 ->
  healthy (snd (create_bucket_except flt (set_disk st d1) (bucket_dir u name))).
Proof.
  intros Hrt H Hacc Hmk.
  destruct (Paths.makedirs_bucket_dir _ _ _ _ Hacc Hmk) as (M1 & M2 & M3).
  destruct (Paths.makedirs_bucket_dir_leaf _ _ _ _ Hacc Hmk) as (Hl & He & Hrm).
  unfold create_bucket_except, os_rmtree. cbn [disk set_disk].
  rewrite He, Hrt, Hrm. cbn [option_map snd].
  change (set_disk (set_disk st d1) ?d) with (set_disk st d).
  assert (forall q data, lookup (disk st) q = Some (File data) ->
            forall r, q <> bucket_loc u name ++ r) as Hout.
  { intros q data Hq r ->. rewrite FsFacts.lookup_app_none in Hq; [discriminate|exact Hl]. }
  apply healthy_change_disk; [exact H | | |].
  - intros p Hp. apply Paths.is_dir_set_at_none_other; [now apply M1|].
    intros r ->. unfold is_dir in Hp. rewrite FsFacts.lookup_app_none in Hp;
      [discriminate | exact Hl].
  - intros q data Hq. apply FsFacts.lookup_set_at_file; [now apply M2|].
    now apply (Hout q data).
  - intros u' name' Hd.
    assert (lookup (set_at d1 (bucket_loc u name) None) (bucket_loc u name)
            = None) as Hgone.
    { apply FsFacts.lookup_set_at_none. discriminate. }
    destruct (M3 _ (DeleteBucketFacts.is_dir_set_at_none _ _ _ Hd))
      as [Hold | (pre & post & Hpre & E & Hp)]; [exact Hold|].
    exfalso. unfold bucket_loc at 1 in Hp. unfold storage_loc in Hp.
    cbn [app] in Hp. subst pre.
    apply four_components in E as (E1 & E2 & _).
    unfold is_dir in Hd. unfold bucket_loc, storage_loc in Hd, Hgone.
    cbn [app] in Hd, Hgone. rewrite <- E1, <- E2, Hgone in Hd. discriminate.
Qed.

Lemma healthy_create_bucket flt now st u name d :
  rmtree_raises flt = false ->
  valid_oid u -> healthy st ->
  healthy (snd (create_bucket flt now st u name d)).
Proof.
  intros Hrt Hu H. unfold create_bucket.
  destruct (Py.falsy name || Py.falsy (Py.strip name)) eqn:T1; [exact H|].
  destruct (negb (Py.isalnum _)) eqn:T2; [exact H|].
  assert (name_rejected name = false) as Hacc.
  { unfold name_rejected, stripped. now rewrite T1, T2. }
  destruct (find_bucket _ _ _) eqn:Hfind; [exact H|].
  unfold os_makedirs.
  destruct (makedirs_raises flt).
  { now rewrite create_bucket_except_unchanged. }
  destruct (makedirs (disk st) (bucket_dir u name)) as [d1|] eqn:Hmk;
    cbn [option_map].
  2:{ now rewrite create_bucket_except_unchanged. }
  unfold db_insert_bucket. destruct (insert_one_raises flt).
  { now apply create_bucket_except_after_makedirs. }
  cbn [snd buckets_collection files_collection disk next_oid set_disk].
  destruct (Paths.makedirs_bucket_dir _ _ _ _ Hacc Hmk) as (M1 & M2 & M3).
  destruct H as [HA HB HBf HC HCf HD HE HF].
  constructor; cbn [buckets_collection files_collection disk next_oid].
  - intros b Hb. apply in_app_or in Hb as [Hb | [<-|[]]]; [now apply HA|].
    cbn. destruct (count_fresh (files_collection st) (next_oid st)) as [-> ->];
      [|auto]. intros f Hf. now apply HCf.
  - apply Counters.NoDup_map_snoc; [exact HB|].
    now apply (fresh_not_in b_id).
  - intros b Hb. apply in_app_or in Hb as [Hb | [<-|[]]].
    + specialize (HBf _ Hb). lia.
    + cbn. lia.
  - exact HC.
  - intros f Hf. destruct (HCf _ Hf). split; lia.
  - intros f Hf. destruct (HD _ Hf) as (data & Hr & Hs).
    exists data. split; [|exact Hs]. now apply (read_file_mono _ _ _ _ M1 M2 Hr).
  - erewrite map_ext_in; [exact HE|].
    intros f Hf. destruct (HD _ Hf) as (data & Hr & _).
    unfold record_loc. now apply (read_file_mono _ _ _ _ M1 M2 Hr).
  - intros u' name' Hu' Hacc' Hdir.
    destruct (M3 _ Hdir) as [Hold | (pre & post & Hpre & E & Hp)].
    + apply find_bucket_app_old. now apply HF.
    + unfold bucket_loc, storage_loc in Hp. cbn [app] in Hp. subst pre.
      apply four_components in E as (E1 & <- & _).
      apply (StrFacts.str_oid_inj _ _ Hu Hu') in E1. subst u'.
      apply find_bucket_app_new.
Qed.

Lemma write_file_is_dir root s data root' p :
  write_file root s data = Some root' -> is_dir root' p = is_dir root p.
Proof.
  intros H.
  destruct (DiskCalls.write_file_inv _ _ _ _ H) as (p0 & c & _ & _ & Hn & ->).
  now apply FsFacts.is_dir_set_at_file.
Qed.

Lemma remove_is_dir root s root' p :
  remove root s = Some root' -> is_dir root' p = is_dir root p.
Proof.
  intros H.
  destruct (DiskCalls.remove_inv _ _ _ H) as (q & d & _ & Hl & _ & ->).
  apply FsFacts.is_dir_set_at_file; simpl; auto. now rewrite Hl.
Qed.

Lemma find_bucket_inc_none id dc ds bs name u :
  find_bucket bs name u <> None ->
  find_bucket (inc_bucket_stats id dc ds bs) name u <> None.
Proof.
  intros H E. pose proof (UploadSuccess.find_bucket_inc id dc ds bs name u) as K.
  rewrite E in K. destruct (find_bucket bs name u); [discriminate | congruence].
Qed.

Lemma inc_bucket_stats_fresh id dc ds bs n b' :
  (forall b, In b bs -> (b_id b < n)%N) ->
  In b' (inc_bucket_stats id dc ds bs) -> (b_id b' < n)%N.
Proof.
  intros H Hin. destruct (Reach.inc_bucket_stats_keys _ _ _ _ _ Hin)
    as (b & Hb & (E & _)). rewrite E. now apply H.
Qed.

(** I1 for the bucket documents after [update_one], given the change
    [dc], [ds] in what the records of bucket [id] add up to. *)
Lemma counters_after_inc id dc ds bs fs fs' :
  NoDup (map b_id bs) ->
  (forall b, In b bs ->
     b_file_count b = count_files fs (b_id b) /\
     b_total_size b = sum_sizes fs (b_id b)) ->
  (forall i, count_files fs' i
             = count_files fs i + (if N.eqb id i then dc else 0)) ->
  (forall i, sum_sizes fs' i
             = sum_sizes fs i + (if N.eqb id i then ds else 0)) ->
  forall b', In b' (inc_bucket_stats id dc ds bs) ->
    b_file_count b' = count_files fs' (b_id b') /\
    b_total_size b' = sum_sizes fs' (b_id b').
Proof.
  intros Hnd HA Hc Hs b' Hb'. rewrite Hc, Hs.
  destruct (Counters.inc_bucket_stats_in _ _ _ _ _ Hnd Hb')
    as [[Hne Hold] | (Heq & b0 & Hb0 & Hid0 & Hc0 & Hs0)].
  - destruct (N.eqb_spec id (b_id b')) as [E|_]; [congruence|].
    destruct (HA _ Hold) as [-> ->]. lia.
  - rewrite Heq, N.eqb_refl, Hc0, Hs0.
    destruct (HA _ Hb0) as [-> ->]. rewrite Hid0. lia.
Qed.

(** The [except] block of [upload_file] after a write that left a file
    (whole or partial) at a path that was free before: the file is removed
    and the disk holds what it held. *)
Lemma upload_file_except_after_write flt st path data d :
  remove_raises flt = false ->
  healthy st ->
  exists_ (disk st) path = false ->
  write_file (disk st) path data = Some d ->
  healthy (snd (upload_file_except flt (set_disk st d) path)).
Proof.
  intros Hrm H He Hw. unfold upload_file_except, os_remove.
  cbn [disk set_disk].
  rewrite (DiskCalls.write_file_exists _ _ _ _ Hw), Hrm.
  pose proof (DiskCalls.write_file_read _ _ _ _ Hw) as Hrd.
  destruct (remove d path) as [d2|] eqn:Hr;
    [|now destruct (DiskCalls.remove_of_file _ _ _ Hrd)].
  cbn [option_map snd].
  change (set_disk (set_disk st d) d2) with (set_disk st d2).
  apply healthy_change_disk; [exact H | | |].
  - intros p Hp.
    now rewrite (remove_is_dir _ _ _ p Hr), (write_file_is_dir _ _ _ _ p Hw).
  - intros q0 data0 Hq0.
    destruct (DiskCalls.write_file_inv _ _ _ _ Hw) as (p & c & Hres & _ & _ & Hd).
    destruct (DiskCalls.remove_inv _ _ _ Hr) as (q & dat & Hq & _ & _ & ->).
    rewrite (DiskCalls.write_file_resolve _ _ _ _ path Hw), Hres in Hq.
    injection Hq as <-. subst d.
    assert (forall r, q0 <> (p ++ [c]) ++ r) as Hout.
    { intros r ->. rewrite FsFacts.lookup_app_none in Hq0; [discriminate|].
      eapply DiskCalls.exists_false_lookup; eauto. }
    apply FsFacts.lookup_set_at_file; [|exact Hout].
    now apply FsFacts.lookup_set_at_file.
  - intros u' name' Hd.
    now rewrite (remove_is_dir _ _ _ _ Hr), (write_file_is_dir _ _ _ _ _ Hw) in Hd.
Qed.

Lemma healthy_upload flt now st u b f ct data :
  remove_raises flt = false -> update_one_raises flt = false ->
  healthy st -> healthy (snd (upload_file flt now st u b f ct data)).
Proof.
  intros Hrm Hupd H.
  destruct (upload_file flt now st u b f ct data) as [[s doc|e] st'] eqn:Hup.
  2:{ revert Hup. unfold upload_file.
      destruct (find_bucket _ _ _) as [bucket|]; [|now intros [= _ <-]].
      destruct (check_storage_limit _ _ _) as [[|]|]; try now intros [= _ <-].
      destruct (exists_ (disk st) (upload_path u b f)) eqn:He;
        [now intros [= _ <-]|].
      assert (forall st1 ok,
                os_write flt st (upload_path u b f) data = (st1, ok) ->
                healthy (snd (upload_file_except flt st1 (upload_path u b f))))
        as Hexc.
      { intros st1 ok Hw.
        destruct (UploadFacts.os_write_inv _ _ _ _ _ _ Hw)
          as [[-> _] | (d & data' & Hwf & -> & _)].
        - unfold upload_file_except. now rewrite He.
        - eapply upload_file_except_after_write; eauto. }
      destruct (os_write flt st (upload_path u b f) data) as [st1 [|]] eqn:Hw.
      - unfold db_insert_file. destruct (insert_one_raises flt).
        + intros Hx. pose proof (Hexc _ _ eq_refl) as Hh.
          rewrite Hx in Hh. exact Hh.
        + unfold db_inc_bucket_stats. rewrite Hupd. discriminate.
      - intros Hx. pose proof (Hexc _ _ eq_refl) as Hh.
        rewrite Hx in Hh. exact Hh. }
  cbn [snd].
  destruct (UploadSuccess.upload_success_inv _ _ _ _ _ _ _ _ _ _ _ Hup)
    as (bucket & d & Hb & Hq & He & Hw & -> & Hdoc & ->).
  destruct (Reach.find_bucket_some _ _ _ _ Hb) as (Hin & Hname & Huser).
  destruct H as [HA HB HBf HC HCf HD HE HF].
  assert (forall f0, record_loc d f0 = record_loc (disk st) f0) as Hloc.
  { intros f0. unfold record_loc. eapply DiskCalls.write_file_resolve, Hw. }
  constructor; cbn [buckets_collection files_collection disk next_oid].
  - unfold I1. cbn [buckets_collection files_collection].
    apply (counters_after_inc _ _ _ _ (files_collection st)); auto.
    + intros i. rewrite Counters.count_files_app. subst doc. cbn. lia.
    + intros i. rewrite Counters.sum_sizes_app. subst doc. cbn. lia.
  - now rewrite Counters.map_b_id_inc.
  - intros b' Hb'. apply (inc_bucket_stats_fresh _ _ _ _ (next_oid st)) in Hb'.
    + lia.
    + exact HBf.
  - apply Counters.NoDup_map_snoc; [exact HC|].
    subst doc. cbn. apply (fresh_not_in f_id). intros x Hx. now apply HCf.
  - intros f0 Hf0. apply in_app_or in Hf0 as [Hf0 | [<-|[]]].
    + destruct (HCf _ Hf0). split; lia.
    + subst doc. cbn. specialize (HBf _ Hin). split; lia.
  - intros f0 Hf0. apply in_app_or in Hf0 as [Hf0 | [<-|[]]].
    + destruct (HD _ Hf0) as (data0 & Hr & Hs). exists data0.
      split; [|exact Hs]. eapply DiskCalls.write_file_read_other; eauto.
    + exists data. subst doc. cbn. split; [|reflexivity].
      eapply DiskCalls.write_file_read, Hw.
  - apply Counters.NoDup_map_snoc.
    + erewrite map_ext; [exact HE | exact Hloc].
    + rewrite (map_ext _ _ Hloc), Hloc. intros Hx.
      apply in_map_iff in Hx as (f0 & E & Hf0).
      destruct (HD _ Hf0) as (data0 & Hr & _).
      apply DiskCalls.read_file_exists in Hr as Hex.
      destruct (read_file_resolve _ _ _ Hr) as (q & Hq0 & Hl).
      unfold record_loc in E. subst doc. cbn [f_file_path] in E.
      unfold exists_, present in He. rewrite <- E, Hq0, Hl in He.
      discriminate.
  - intros u' name' Hu' Hacc' Hdir.
    rewrite (write_file_is_dir _ _ _ _ _ Hw) in Hdir.
    apply find_bucket_inc_none. now apply HF.
Qed.

Lemma read_file_nonempty root s data :
  read_file root s = Some data -> Py.falsy s = false.
Proof.
  unfold read_file, resolve. destruct (Py.falsy s); [discriminate | reflexivity].
Qed.

Lemma delete_file_cases flt st u b f :
  remove_raises flt = false -> delete_one_raises flt = false ->
  update_one_raises flt = false ->
  snd (delete_file flt st u b f) = st \/
  exists s st', delete_file flt st u b f = (Success s tt, st').
Proof.
  intros F1 F2 F3.
  unfold delete_file, os_remove, db_delete_file, db_inc_bucket_stats.
  rewrite F1, F2, F3.
  destruct (find_bucket _ _ _); [|now left].
  destruct (find_file _ _ _); [|now left].
  destruct (exists_ _ _).
  - destruct (getsize _ _); [|now left].
    destruct (remove _ _); cbn [option_map]; [right; eauto | now left].
  - right. eauto.
Qed.

Lemma healthy_delete_file flt st u b f :
  remove_raises flt = false -> delete_one_raises flt = false ->
  update_one_raises flt = false ->
  healthy st -> healthy (snd (delete_file flt st u b f)).
Proof.
  intros F1 F2 F3 H.
  destruct (delete_file_cases flt st u b f F1 F2 F3)
    as [-> | (s & st' & Hdel)]; [exact H|].
  rewrite Hdel. cbn [snd].
  destruct (DeleteFacts.delete_success_inv _ _ _ _ _ _ _ Hdel)
    as (bucket & fd & size & d & Hb & Hf & Hdisk & ->).
  destruct (Reach.find_file_some _ _ _ _ Hf) as (Hin & Hfb & Hfn).
  destruct H as [HA HB HBf HC HCf HD HE HF].
  destruct (HD _ Hin) as (data & Hr & Hsize).
  assert (stored_path fd u b f = f_file_path fd) as Hpath.
  { unfold stored_path. now rewrite (read_file_nonempty _ _ _ Hr). }
  rewrite Hpath, (DiskCalls.read_file_exists _ _ _ Hr) in Hdisk.
  destruct Hdisk as [Hsz Hrm].
  rewrite (DiskCalls.getsize_of_file _ _ _ Hr) in Hsz.
  injection Hsz as <-. rewrite Hsize.
  destruct (Counters.delete_file_by_id_split _ _ HC Hin)
    as (l1 & l2 & Hfs & ->).
  unfold I1 in HA. rewrite Hfs in HA, HC, HCf, HD, HE.
  destruct (Counters.NoDup_map_remove _ _ _ _ HC) as [HC' _].
  destruct (Counters.NoDup_map_remove _ _ _ _ HE) as [HE' HEx].
  assert (forall f0, In f0 (l1 ++ l2) -> In f0 (l1 ++ fd :: l2)) as Hsub.
  { intros f0 Hf0. apply in_app_or in Hf0 as [Hf0|Hf0]; apply in_or_app;
      [now left | right; now right]. }
  assert (forall f0, record_loc d f0 = record_loc (disk st) f0) as Hloc.
  { intros f0. unfold record_loc. eapply DiskCalls.remove_resolve, Hrm. }
  constructor; cbn [buckets_collection files_collection disk next_oid].
  - unfold I1. cbn [buckets_collection files_collection].
    apply (counters_after_inc _ _ _ _ (l1 ++ fd :: l2)); auto.
    + intros i. rewrite !Counters.count_files_app. cbn [count_files].
      rewrite Hfb. destruct (N.eqb (b_id bucket) i); lia.
    + intros i. rewrite !Counters.sum_sizes_app. cbn [sum_sizes].
      rewrite Hfb. destruct (N.eqb (b_id bucket) i); lia.
  - now rewrite Counters.map_b_id_inc.
  - intros b'. now apply inc_bucket_stats_fresh.
  - exact HC'.
  - intros f0 Hf0. now apply HCf, Hsub.
  - intros f0 Hf0. destruct (HD _ (Hsub _ Hf0)) as (data0 & Hr0 & Hs0).
    exists data0. split; [|exact Hs0].
    eapply DiskCalls.remove_read_other; eauto.
    intros E. apply HEx. apply in_map_iff. exists f0. split; [exact E | exact Hf0].
  - erewrite map_ext; [exact HE' | exact Hloc].
  - intros u' name' Hu' Hacc' Hdir.
    rewrite (remove_is_dir _ _ _ _ Hrm) in Hdir.
    apply find_bucket_inc_none. now apply HF.
Qed.

Lemma healthy_serve flt now st r :
  create_upload_delete r = true -> valid_oid (request_user r) ->
  compensated flt ->
  healthy st -> healthy (serve flt now st r).
Proof.
  intros Hk Hu (F0 & F1 & F2 & F3) H.
  destruct r as [u name d|u b|u b f ct data|u b f]; cbn in *.
  - now apply healthy_create_bucket.
  - discriminate.
  - now apply healthy_upload.
  - now apply healthy_delete_file.
Qed.

Lemma healthy_run rs st :
  Forall admissible rs -> healthy st -> healthy (run st rs).
Proof.
  intros Hrs. revert st. induction Hrs as [|x rs (Hk & Hu & Hc) _ IH];
    intros st H; [exact H|].
  cbn [run fold_left]. apply IH. now apply healthy_serve.
Qed.

End Run.

(** C1.  Take any sequence of [create_bucket], [upload_file] and
    [delete_file] requests, by any owners and with any arguments, served
    one after the other on a fresh installation.  Directory creation, blob
    writes and [insert_one] may fail; [os.remove], [shutil.rmtree],
    [update_one] and [delete_one] do not.  After each request, every
    bucket document has [file_count] equal to the number of file records
    with its id as [bucket_id], and [total_size] equal to the sum of their
    sizes. *)
Theorem bucket_counters_invariant (rs : list served) (k : nat) :
  Forall admissible rs ->
  forall b, In b (buckets_collection (run initial_state (firstn k rs))) ->
    b_file_count b
    = count_files (files_collection (run initial_state (firstn k rs))) (b_id b) /\
    b_total_size b
    = sum_sizes (files_collection (run initial_state (firstn k rs))) (b_id b).
Proof.
  intros Hrs.
  assert (healthy (run initial_state (firstn k rs))) as H.
  { apply Run.healthy_run; [|exact Run.healthy_initial].
    apply Forall_forall. intros x Hx.
    rewrite <- (firstn_skipn k rs) in Hrs. apply Forall_app in Hrs as [Hrs _].
    revert x Hx. now apply Forall_forall. }
  exact (h_counters _ H).
Qed.

(** ** The name check where every record has its blob *)

(** Where every record has its blob and carries the path of its bucket,
    the name check on the disk does catch every filename that has a
    record in the bucket. *)
Lemma upload_existing_record_refused
  (flt : faults) (now : string) (st : State) (u : ObjectId) (b f : string)
  (ct : option string) (data : list Byte.byte)
  (bucket : BucketDoc) (fd : FileDoc) :
  healthy st -> consistent_state st ->
  find_bucket (buckets_collection st) b u = Some bucket ->
  find_file (files_collection st) (b_id bucket) f = Some fd ->
  succeeded (fst (upload_file flt now st u b f ct data)) = false /\
  snd (upload_file flt now st u b f ct data) = st /\
  (check_storage_limit (files_collection st) (str_oid u)
     (Z.of_nat (List.length data)) = Some true ->
   fst (upload_file flt now st u b f ct data) = Failure FileAlreadyExists).
Proof.
  intros Hh (_ & _ & K3) Hb Hf.
  destruct (Reach.find_bucket_some _ _ _ _ Hb) as (Hin & Hname & Huser).
  destruct (Reach.find_file_some _ _ _ _ Hf) as (Hfin & Hfb & Hfn).
  destruct (K3 _ Hfin) as (_ & Hpath & Hm).
  destruct (Hm _ Hin (eq_sym Hfb)) as [En Eu].
  destruct (h_blobs _ Hh _ Hfin) as (dat & Hr & _).
  assert (Fs.exists_ (disk st) (upload_path u b f) = true) as He.
  { apply DiskCalls.read_file_exists in Hr.
    rewrite Hpath, <- En, <- Eu, Hname, Huser, Hfn in Hr. exact Hr. }
  destruct (UploadSuccess.upload_refused_when_blob_exists flt now st u b f ct
              data He) as (H1 & H2 & H3).
  repeat split; auto. intros Hq. apply H3; [congruence | exact Hq].
Qed.

(** ** Plain filenames *)

(** X22. For a bucket whose name passes [create_bucket] and a filename
    that is a plain name (no slash, not empty, not ["."] or [".."]), the
    blob of a successful upload is the file [filename] of the bucket's
    directory, and the record carries the path
    [STORAGE_PATH/str(owner)/bucket/filename]. *)
Lemma upload_plain_filename_location
  (flt : faults) (now : string) (st : State) (u : ObjectId) (b f : string)
  (ct : option string) (data : list Byte.byte)
  (s : Z) (doc : FileDoc) (st' : State) :
  name_rejected b = false ->
  Py.all_chars Py.not_sep f = true -> plain f ->
  upload_file flt now st u b f ct data = (Success s doc, st') ->
  f_file_path doc
  = ("/app/storage/" ++ str_oid u ++ "/" ++ b ++ "/" ++ f)%string /\
  Fs.lookup (disk st') (bucket_loc u b ++ [f])%list = Some (Fs.File data).
Proof.
  intros Hb Hf Hpl Hup.
  destruct (UploadSuccess.upload_success_inv _ _ _ _ _ _ _ _ _ _ _ Hup)
    as (bucket & d & _ & _ & _ & Hw & _ & -> & ->).
  cbn [f_file_path disk].
  destruct (Paths.bucket_dir_split u b Hb) as [Hne Hsplit].
  destruct (Paths.accepted_name_component _ Hb) as [Hbsep Hbplain].
  destruct (Paths.str_oid_component u) as [Husep [Hud _]].
  assert (bucket_dir u b = ("/app/storage/" ++ str_oid u ++ "/" ++ b)%string)
    as Hdir.
  { unfold bucket_dir, STORAGE_PATH.
    rewrite (Paths.path_join_plain "/app/storage" (str_oid u)) by auto.
    change ("/app/storage" ++ String "/" (str_oid u))%string
      with ("/app/storage/" ++ str_oid u)%string.
    assert (Py.ends_with_sep ("/app/storage/" ++ str_oid u) = false) as He.
    { rewrite StrFacts.ends_with_sep_app.
      - now apply StrFacts.ends_with_sep_plain.
      - intros E. unfold Fs.is_dot in Hud. rewrite E in Hud. discriminate. }
    rewrite Paths.path_join_plain by auto.
    now rewrite StrFacts.append_assoc. }
  assert (Py.ends_with_sep (bucket_dir u b) = false) as Hend.
  { rewrite Hdir, <- StrFacts.append_assoc.
    rewrite StrFacts.ends_with_sep_app by discriminate.
    change ("/" ++ b)%string with (String "/" b). cbn [Py.ends_with_sep].
    destruct b as [|c b]; [destruct Hbplain; discriminate|].
    apply (StrFacts.ends_with_sep_plain _ Hbsep). }
  assert (upload_path u b f = (bucket_dir u b ++ String "/" f)%string) as Hpath.
  { unfold upload_path. now apply Paths.path_join_plain. }
  split.
  - rewrite Hpath, Hdir. now rewrite !StrFacts.append_assoc.
  - pose proof (DiskCalls.write_file_read _ _ _ _ Hw) as Hrd.
    destruct (Run.read_file_resolve _ _ _ Hrd) as (q & Hq & Hl).
    assert (q = bucket_loc u b ++ [f])%list as <-; [|exact Hl].
    unfold Fs.resolve in Hq. rewrite Hpath in Hq.
    rewrite (Paths.falsy_app _ _ Hne) in Hq.
    rewrite StrFacts.split_sep_app, Hsplit, (StrFacts.split_sep_plain _ Hf) in Hq.
    cbn [app] in Hq. rewrite Paths.walk_from_root in Hq.
    destruct (Fs.is_dir d []); [|discriminate Hq].
    apply Paths.walk_plain in Hq; [exact Hq|].
    pose proof (Paths.bucket_comps_plain u b Hb) as Hc.
    repeat (apply Forall_cons; [eapply Forall_inv; eauto|];
            apply Forall_inv_tail in Hc).
    apply Forall_cons; [exact Hpl | constructor].
Qed.

(** ** The theorems at concrete runs *)

(** [alice] creates ["docs"], uploads ["a.txt"] twice, the first time
    with a failing [insert_one], and deletes it again. *)
Lemma bucket_counters_invariant_witness :
  let rs := [mkServed no_faults "t0" (CreateBucket alice "docs" None);
             mkServed insert_one_fails "t1"
               (UploadFile alice "docs" "a.txt" None (bytes_of "hello"));
             mkServed no_faults "t2"
               (UploadFile alice "docs" "a.txt" None (bytes_of "hello"));
             mkServed no_faults "t3" (DeleteFile alice "docs" "a.txt")] in
  Forall admissible rs /\
  forall b, In b (buckets_collection (run initial_state (firstn 3 rs))) ->
    b_file_count b
    = count_files (files_collection (run initial_state (firstn 3 rs))) (b_id b) /\
    b_total_size b
    = sum_sizes (files_collection (run initial_state (firstn 3 rs))) (b_id b).
Proof.
  intros rs.
  assert (Forall admissible rs) as H.
  { repeat constructor. }
  split; [exact H|]. exact (bucket_counters_invariant rs 3 H).
Defined.

Lemma quota_admission_witness :
  valid_oid alice /\
  (check_storage_limit (files_collection with_second_record) (str_oid alice) 7
   = Some true
   <-> current_usage (files_collection with_second_record) alice + 7
       <= QUOTA_BYTES).
Proof.
  assert (valid_oid alice) as H by reflexivity.
  split; [exact H|].
  exact (proj1 (quota_admission with_second_record alice H) 7).
Defined.

Lemma upload_never_overwrites_witness :
  Fs.exists_ (disk with_second_record) (upload_path alice "docs" "a.txt")
  = true /\
  snd (upload_file no_faults "t3" with_second_record alice "docs" "a.txt"
         None (bytes_of "x")) = with_second_record.
Proof.
  split; [reflexivity|].
  apply (proj1 (upload_never_overwrites no_faults "t3" with_second_record
                  alice "docs" "a.txt" None (bytes_of "x"))).
  reflexivity.
Defined.

Lemma upload_compensation_witness :
  Fs.exists_ (disk with_bucket) (upload_path alice "docs" "a.txt") = false /\
  fst (os_write insert_one_fails with_bucket (upload_path alice "docs" "a.txt")
         (bytes_of "hello"))
  = with_upload_written /\
  insert_one_raises insert_one_fails = true /\
  remove_raises insert_one_fails = false /\
  Fs.read_file (disk with_upload_written) (upload_path alice "docs" "a.txt")
  = Some (bytes_of "hello") /\
  exists st',
    upload_file insert_one_fails "t1" with_bucket alice "docs" "a.txt" None
      (bytes_of "hello") = (Failure ErrorUploadingFile, st') /\
    Fs.exists_ (disk st') (upload_path alice "docs" "a.txt") = false /\
    buckets_collection st' = buckets_collection with_bucket /\
    files_collection st' = files_collection with_bucket.
Proof.
  repeat (split; [reflexivity|]).
  apply (upload_compensation insert_one_fails "t1" with_bucket alice
           "docs" "a.txt" None (bytes_of "hello")
           (mkBucketDoc 0%N "docs" None alice "t0" 0 0) with_upload_written);
    reflexivity.
Defined.

Lemma delete_file_decrement_witness :
  let st' := snd (delete_file no_faults with_second_record alice "docs"
                    "a.txt") in
  NoDup (map b_id (buckets_collection with_second_record)) /\
  NoDup (map f_id (files_collection with_second_record)) /\
  fst (delete_file no_faults with_second_record alice "docs" "a.txt")
  = Success 200 tt /\
  map (fun b => (b_file_count b, b_total_size b))
    (buckets_collection with_second_record) = [(1, 10)] /\
  map (fun f => (f_id f, f_size f)) (files_collection with_second_record)
  = [(1%N, 5); (2%N, 10)] /\
  map (fun b => (b_file_count b, b_total_size b)) (buckets_collection st')
  = [(0, 0)] /\
  map (fun f => (f_id f, f_size f)) (files_collection st') = [(2%N, 10)] /\
  get_bucket st' alice "docs"
  = Success 200 (mkBucketInfo "000000000000000000000000" "docs" None "t0" 0 0) /\
  count_files (files_collection st') 0%N
  = count_files (files_collection with_second_record) 0%N - 1 /\
  Fs.exists_ (disk st') (upload_path alice "docs" "a.txt") = false.
Proof.
  intros st'.
  assert (NoDup (map b_id (buckets_collection with_second_record))) as Hb.
  { vm_compute. repeat constructor. intros []. }
  assert (NoDup (map f_id (files_collection with_second_record))) as Hf.
  { vm_compute. constructor.
    - intros [E|[]]. discriminate E.
    - constructor; [intros [] | constructor]. }
  split; [exact Hb|]. split; [exact Hf|].
  do 5 (split; [reflexivity|]).
  destruct (delete_file_decrement no_faults with_second_record alice "docs"
              "a.txt" 200 st' Hb Hf eq_refl)
    as (bucket & file_doc & Ebucket & Efile & _ & _ & Hget & _ & _ & Hcount
        & Hgone).
  vm_compute in Ebucket. injection Ebucket as <-.
  vm_compute in Efile. injection Efile as <-.
  split; [exact Hget|]. split; [exact Hcount | exact Hgone].
Defined.

Lemma create_bucket_name_validation_witness :
  invalid_name (fst (create_bucket no_faults "t0" initial_state alice
                       "my bucket" None)) = true /\
  invalid_name (fst (create_bucket no_faults "t0" initial_state alice
                       "my-bucket_2" None)) = false.
Proof.
  split.
  - apply (proj1 (create_bucket_name_validation no_faults "t0" initial_state
                    alice "my bucket" None)).
    right. reflexivity.
  - apply (proj2 (create_bucket_name_validation no_faults "t0" initial_state
                    alice "my-bucket_2" None)); reflexivity.
Defined.

Lemma delete_bucket_cascade_witness :
  find_bucket (buckets_collection with_second_record) "docs" alice
  = Some (mkBucketDoc 0%N "docs" None alice "t0" 1 10) /\
  NoDup (map b_id (buckets_collection with_second_record)) /\
  fst (delete_bucket no_faults with_second_record alice "docs")
  = Success 200 tt /\
  files_collection (snd (delete_bucket no_faults with_second_record alice "docs"))
  = [] /\
  Fs.exists_ (disk (snd (delete_bucket no_faults with_second_record alice "docs")))
    (bucket_dir alice "docs") = false /\
  buckets_collection (snd (delete_bucket no_faults with_second_record alice "docs"))
  = [].
Proof.
  assert (NoDup (map b_id (buckets_collection with_second_record))) as Hnd.
  { repeat constructor. intros []. }
  split; [reflexivity|]. split; [exact Hnd|]. split; [reflexivity|].
  destruct (proj1 (delete_bucket_cascade no_faults with_second_record alice
                     "docs" _ eq_refl Hnd) eq_refl)
    as (_ & Hf & He & _ & _).
  split; [exact Hf|]. split; [exact He | reflexivity].
Defined.

Lemma upload_download_roundtrip_witness :
  reachable with_bucket /\
  http_status
    (fst (upload_file no_faults "t1" with_bucket alice "docs" "a.txt" None
            (bytes_of "hello"))) = 200 /\
  download_file with_upload alice "docs" "a.txt"
  = Success 200 (bytes_of "hello").
Proof.
  assert (reachable with_bucket) as H.
  { exact (reachable_serve no_faults "t0" initial_state
             (CreateBucket alice "docs" None) reachable_initial). }
  split; [exact H|]. split; [reflexivity|].
  exact (proj1 (upload_download_roundtrip with_bucket no_faults "t1" alice
                  "docs" "a.txt" None (bytes_of "hello") 200 _ with_upload
                  H eq_refl)).
Defined.

(** * Further properties of the handlers *)

(** ** Which documents each handler touches *)

Module Shape.
#[local] Open Scope list_scope.

Lemma create_bucket_shape flt now st u name d :
  let st' := snd (create_bucket flt now st u name d) in
  (buckets_collection st' = buckets_collection st /\
   files_collection st' = files_collection st /\
   next_oid st' = next_oid st) \/
  (find_bucket (buckets_collection st) name u = None /\
   buckets_collection st'
   = buckets_collection st ++ [mkBucketDoc (next_oid st) name d u now 0 0] /\
   files_collection st' = files_collection st /\
   next_oid st' = N.succ (next_oid st)).
Proof.
  unfold create_bucket, create_bucket_except, os_makedirs, os_rmtree,
    db_insert_bucket.
  destruct (Py.falsy name || Py.falsy (Py.strip name)); [now left|].
  destruct (negb _); [now left|].
  destruct (find_bucket _ _ _) eqn:Hfind; [now left|].
  destruct (makedirs_raises flt).
  { destruct (Fs.exists_ _ _); [|now left].
    destruct (rmtree_raises flt); [now left|].
    destruct (Fs.rmtree _ _); now left. }
  destruct (Fs.makedirs _ _) as [d1|]; cbn [option_map].
  - destruct (insert_one_raises flt); [|right; cbn; auto].
    cbn [disk set_disk].
    destruct (Fs.exists_ _ _); [|now left].
    destruct (rmtree_raises flt); [now left|].
    destruct (Fs.rmtree _ _); now left.
  - destruct (Fs.exists_ _ _); [|now left].
    destruct (rmtree_raises flt); [now left|].
    destruct (Fs.rmtree _ _); now left.
Qed.

Lemma upload_file_except_keeps flt st path :
  buckets_collection (snd (upload_file_except flt st path))
  = buckets_collection st /\
  files_collection (snd (upload_file_except flt st path))
  = files_collection st /\
  next_oid (snd (upload_file_except flt st path)) = next_oid st.
Proof.
  unfold upload_file_except, os_remove.
  destruct (Fs.exists_ _ _); [|now cbn].
  destruct (remove_raises flt); [now cbn|].
  destruct (Fs.remove _ _); now cbn.
Qed.

Lemma os_write_keeps flt st path data :
  buckets_collection (fst (os_write flt st path data)) = buckets_collection st /\
  files_collection (fst (os_write flt st path data)) = files_collection st /\
  next_oid (fst (os_write flt st path data)) = next_oid st.
Proof.
  unfold os_write.
  destruct (open_raises flt); [now cbn|].
  destruct (write_raises flt); destruct (Fs.write_file _ _ _); now cbn.
Qed.

Lemma upload_file_shape flt now st u b f ct data :
  let st' := snd (upload_file flt now st u b f ct data) in
  (buckets_collection st' = buckets_collection st /\
   files_collection st' = files_collection st /\
   next_oid st' = next_oid st) \/
  (exists bucket,
      find_bucket (buckets_collection st) b u = Some bucket /\
      check_storage_limit (files_collection st) (str_oid u)
        (Z.of_nat (List.length data)) = Some true /\
      (buckets_collection st' = buckets_collection st \/
       buckets_collection st'
       = inc_bucket_stats (b_id bucket) 1 (Z.of_nat (List.length data))
           (buckets_collection st)) /\
      files_collection st'
      = files_collection st
        ++ [mkFileDoc (next_oid st) f (b_id bucket) b u
              (Z.of_nat (List.length data)) (stored_content_type ct) now
              (upload_path u b f)] /\
      next_oid st' = N.succ (next_oid st)).
Proof.
  unfold upload_file.
  destruct (find_bucket _ _ _) as [bucket|] eqn:Hb; [|now left].
  destruct (check_storage_limit _ _ _) as [[|]|] eqn:Hq; try (now left).
  destruct (Fs.exists_ _ _); [now left|].
  destruct (os_write_keeps flt st (upload_path u b f) data)
    as (W1 & W2 & W3).
  destruct (os_write flt st (upload_path u b f) data) as [st1 [|]];
    cbn [fst] in W1, W2, W3.
  - unfold db_insert_file.
    destruct (insert_one_raises flt).
    + left.
      destruct (upload_file_except_keeps flt st1 (upload_path u b f))
        as (E1 & E2 & E3). cbn. rewrite E1, E2, E3. auto.
    + unfold db_inc_bucket_stats. destruct (update_one_raises flt).
      * right. exists bucket.
        match goal with
        | |- context [upload_file_except flt ?s ?p] =>
            destruct (upload_file_except_keeps flt s p) as (E1 & E2 & E3)
        end.
        cbn. rewrite E1, E2, E3. cbn. rewrite W1, W2, W3. auto.
      * right. exists bucket. cbn. rewrite W1, W2, W3. auto.
  - left.
    destruct (upload_file_except_keeps flt st1 (upload_path u b f))
      as (E1 & E2 & E3). cbn. rewrite E1, E2, E3. auto.
Qed.

Lemma delete_file_shape flt st u b f :
  let st' := snd (delete_file flt st u b f) in
  next_oid st' = next_oid st /\
  ((buckets_collection st' = buckets_collection st /\
    files_collection st' = files_collection st) \/
   exists bucket fd,
     find_bucket (buckets_collection st) b u = Some bucket /\
     find_file (files_collection st) (b_id bucket) f = Some fd /\
     files_collection st' = delete_file_by_id (f_id fd) (files_collection st) /\
     (buckets_collection st' = buckets_collection st \/
      exists size,
        buckets_collection st'
        = inc_bucket_stats (b_id bucket) (-1) (- size) (buckets_collection st))).
Proof.
  unfold delete_file.
  destruct (find_bucket _ _ _) as [bucket|] eqn:Hb; [|cbn; auto].
  destruct (find_file _ _ _) as [fd|] eqn:Hf; [|cbn; auto].
  unfold os_remove, db_delete_file, db_inc_bucket_stats.
  assert (Hleaf1 : forall d1,
    exists bucket0 fd0,
      Some bucket = Some bucket0 /\
      find_file (files_collection st) (b_id bucket0) f = Some fd0 /\
      delete_file_by_id (f_id fd) (files_collection st)
      = delete_file_by_id (f_id fd0) (files_collection st) /\
      (buckets_collection (set_disk st d1) = buckets_collection st \/
       exists size,
         buckets_collection (set_disk st d1)
         = inc_bucket_stats (b_id bucket0) (-1) (- size)
             (buckets_collection st))).
  { intros d1. exists bucket, fd. auto. }
  assert (Hleaf2 : forall sz,
    exists bucket0 fd0,
      Some bucket = Some bucket0 /\
      find_file (files_collection st) (b_id bucket0) f = Some fd0 /\
      delete_file_by_id (f_id fd) (files_collection st)
      = delete_file_by_id (f_id fd0) (files_collection st) /\
      (inc_bucket_stats (b_id bucket) (-1) (- sz) (buckets_collection st)
       = buckets_collection st \/
       exists size,
         inc_bucket_stats (b_id bucket) (-1) (- sz) (buckets_collection st)
         = inc_bucket_stats (b_id bucket0) (-1) (- size)
             (buckets_collection st))).
  { intros sz. exists bucket, fd. repeat split; auto. right. now exists sz. }
  destruct (Fs.exists_ _ _).
  - destruct (Fs.getsize _ _) as [sz|]; [|cbn; auto].
    destruct (remove_raises flt); [cbn; auto|].
    destruct (Fs.remove _ _) as [d1|]; cbn [option_map]; [|cbn; auto].
    destruct (delete_one_raises flt); [cbn; auto|].
    destruct (update_one_raises flt); cbn; (split; [reflexivity|]); right.
    + exact (Hleaf1 d1).
    + exact (Hleaf2 sz).
  - destruct (delete_one_raises flt); [cbn; auto|].
    destruct (update_one_raises flt); cbn; (split; [reflexivity|]); right.
    + exact (Hleaf1 (disk st)).
    + exact (Hleaf2 (f_size fd)).
Qed.

Lemma delete_bucket_shape flt st u b :
  let st' := snd (delete_bucket flt st u b) in
  next_oid st' = next_oid st /\
  ((buckets_collection st' = buckets_collection st /\
    files_collection st' = files_collection st) \/
   exists bucket,
     find_bucket (buckets_collection st) b u = Some bucket /\
     files_collection st'
     = delete_files_of_bucket (b_id bucket) (files_collection st) /\
     (buckets_collection st' = buckets_collection st \/
      buckets_collection st'
      = delete_bucket_by_id (b_id bucket) (buckets_collection st))).
Proof.
  unfold delete_bucket.
  destruct (find_bucket _ _ _) as [bucket|] eqn:Hb; [|cbn; auto].
  unfold db_delete_files_of_bucket, db_delete_bucket, os_rmtree.
  destruct (delete_many_raises flt); [cbn; auto|].
  cbn [disk set_files].
  destruct (Fs.exists_ _ _).
  - destruct (rmtree_raises flt).
    { cbn. split; [reflexivity|]. right. exists bucket. auto. }
    destruct (Fs.rmtree _ _); cbn [option_map].
    + destruct (delete_one_raises flt); cbn;
        (split; [reflexivity|]); right; exists bucket; auto.
    + cbn. split; [reflexivity|]. right. exists bucket. auto.
  - destruct (delete_one_raises flt); cbn;
      (split; [reflexivity|]); right; exists bucket; auto.
Qed.

End Shape.

(** ** What every reachable state satisfies, continued *)

Module WellFormed.
#[local] Open Scope list_scope.

Lemma in_map_filter {A B} (g : A -> B) p l y :
  In y (map g (filter p l)) -> In y (map g l).
Proof.
  intros H. apply in_map_iff in H as (x & E & Hx).
  apply filter_In in Hx as [Hx _]. apply in_map_iff. now exists x.
Qed.

Lemma NoDup_map_filter {A B} (g : A -> B) p l :
  NoDup (map g l) -> NoDup (map g (filter p l)).
Proof.
  induction l as [|x l IH]; simpl; [auto|].
  intros H. inversion H as [|y l' Hn Hd]; subst.
  destruct (p x); simpl; [|auto].
  constructor; [|auto]. intros Hin. apply Hn. eapply in_map_filter; eauto.
Qed.

Lemma NoDup_map_delete_file_by_id {B} (g : FileDoc -> B) id fs :
  NoDup (map g fs) -> NoDup (map g (delete_file_by_id id fs)).
Proof.
  induction fs as [|x l IH]; simpl; [auto|].
  intros H. inversion H as [|y l' Hn Hd]; subst.
  destruct (N.eqb (f_id x) id); simpl; [auto|].
  constructor; [|auto]. intros Hin. apply Hn.
  apply in_map_iff in Hin as (z & E & Hz). apply in_map_iff. exists z.
  split; [exact E|]. eapply Reach.delete_file_by_id_incl; eauto.
Qed.

Lemma NoDup_map_delete_bucket_by_id {B} (g : BucketDoc -> B) id bs :
  NoDup (map g bs) -> NoDup (map g (delete_bucket_by_id id bs)).
Proof.
  induction bs as [|x l IH]; simpl; [auto|].
  intros H. inversion H as [|y l' Hn Hd]; subst.
  destruct (N.eqb (b_id x) id); simpl; [auto|].
  constructor; [|auto]. intros Hin. apply Hn.
  apply in_map_iff in Hin as (z & E & Hz). apply in_map_iff. exists z.
  split; [exact E|]. eapply Reach.delete_bucket_by_id_incl; eauto.
Qed.

Lemma map_bucket_key_inc id dc ds bs :
  map bucket_key (inc_bucket_stats id dc ds bs) = map bucket_key bs.
Proof.
  induction bs as [|b bs IH]; simpl; [reflexivity|].
  destruct (N.eqb (b_id b) id); simpl; [reflexivity|]. now rewrite IH.
Qed.

Lemma find_bucket_none_key bs name u :
  find_bucket bs name u = None -> ~ In (u, name) (map bucket_key bs).
Proof.
  unfold find_bucket. intros H Hin.
  apply in_map_iff in Hin as (b & E & Hb).
  pose proof (find_none _ _ H b Hb) as Hp. cbv beta in Hp.
  unfold bucket_key in E. injection E as E1 E2.
  rewrite E1, E2, String.eqb_refl, N.eqb_refl in Hp. discriminate.
Qed.

Lemma find_bucket_key bs name u bucket b :
  NoDup (map bucket_key bs) ->
  find_bucket bs name u = Some bucket ->
  In b bs -> b_name b = name -> b_user_id b = u -> b = bucket.
Proof.
  intros Hnd Hf Hb Hn Hu.
  apply Reach.find_bucket_some in Hf as (Hin & Hn' & Hu').
  assert (Hk : bucket_key b = bucket_key bucket)
    by (unfold bucket_key; congruence).
  clear - Hnd Hin Hb Hk.
  induction bs as [|x l IH]; [contradiction|].
  simpl in Hnd. inversion Hnd as [|y l' Hnot Hd]; subst.
  destruct Hb as [E1|Hb], Hin as [E2|Hin]; subst.
  - reflexivity.
  - exfalso. apply Hnot. rewrite Hk. now apply in_map.
  - exfalso. apply Hnot. rewrite <- Hk. now apply in_map.
  - auto.
Qed.

Lemma NoDup_map_eq {A B} (g : A -> B) l x y :
  NoDup (map g l) -> In x l -> In y l -> g x = g y -> x = y.
Proof.
  induction l as [|z l IH]; [contradiction|].
  simpl. intros Hnd Hx Hy E. inversion Hnd as [|w l' Hnot Hd]; subst.
  destruct Hx as [E1|Hx], Hy as [E2|Hy]; subst.
  - reflexivity.
  - exfalso. apply Hnot. rewrite E. now apply in_map.
  - exfalso. apply Hnot. rewrite <- E. now apply in_map.
  - auto.
Qed.

Lemma has_bucket_iff bs i :
  (exists b, In b bs /\ b_id b = i) <-> In i (map b_id bs).
Proof.
  rewrite in_map_iff. split; intros (b & H1 & H2); exists b; auto.
Qed.

Lemma delete_bucket_by_id_keeps id bs b :
  In b bs -> b_id b <> id -> In b (delete_bucket_by_id id bs).
Proof.
  induction bs as [|b0 bs IH]; simpl; [auto|]. intros Hin Hne.
  destruct (N.eqb_spec (b_id b0) id) as [E|E].
  - destruct Hin as [E0|Hin]; [subst b0; contradiction | exact Hin].
  - destruct Hin as [E0|Hin]; [now left | right; auto].
Qed.

(** No handler leaves a file record without its bucket document:
    [delete_bucket] deletes the records before the document. *)
Lemma serve_records_have_buckets flt now st r :
  records_have_buckets st -> records_have_buckets (serve flt now st r).
Proof.
  unfold records_have_buckets. intros H.
  destruct r as [u name d | u b | u b f ct data | u b f]; cbn [serve] in *.
  - destruct (Shape.create_bucket_shape flt now st u name d)
      as [(E1 & E2 & _) | (_ & E1 & E2 & _)]; rewrite E1, E2; [exact H|].
    intros f0 Hf0. destruct (H _ Hf0) as (b0 & Hb0 & E).
    exists b0. split; [apply in_or_app; now left | exact E].
  - destruct (Shape.delete_bucket_shape flt st u b)
      as (_ & [(E1 & E2) | (bucket & _ & E2 & E1)]);
      [rewrite E1, E2; exact H|].
    rewrite E2. intros f0 Hf0.
    pose proof (DeleteBucketFacts.delete_files_of_bucket_gone _ _ _ Hf0)
      as Hne.
    apply Reach.delete_files_of_bucket_incl in Hf0.
    destruct (H _ Hf0) as (b0 & Hb0 & E). exists b0. split; [|exact E].
    destruct E1 as [E1|E1]; rewrite E1; [exact Hb0|].
    apply delete_bucket_by_id_keeps; [exact Hb0 | congruence].
  - destruct (Shape.upload_file_shape flt now st u b f ct data)
      as [(E1 & E2 & _) | (bucket & Hb & _ & E1 & E2 & _)];
      [rewrite E1, E2; exact H|].
    rewrite E2. intros f0 Hf0. apply has_bucket_iff.
    assert (Hids : map b_id (buckets_collection
                               (snd (upload_file flt now st u b f ct data)))
                   = map b_id (buckets_collection st)).
    { destruct E1 as [E1|E1]; rewrite E1; [reflexivity|].
      apply Counters.map_b_id_inc. }
    rewrite Hids. apply has_bucket_iff.
    apply in_app_or in Hf0 as [Hf0 | [<-|[]]]; [now apply H|].
    cbn. exists bucket. split; [|reflexivity].
    now apply Reach.find_bucket_some in Hb.
  - destruct (Shape.delete_file_shape flt st u b f)
      as (_ & [(E1 & E2) | (bucket & fd & _ & _ & E2 & E1)]);
      [rewrite E1, E2; exact H|].
    rewrite E2. intros f0 Hf0. apply has_bucket_iff.
    assert (Hids : map b_id (buckets_collection (snd (delete_file flt st u b f)))
                   = map b_id (buckets_collection st)).
    { destruct E1 as [E1|(size & E1)]; rewrite E1; [reflexivity|].
      apply Counters.map_b_id_inc. }
    rewrite Hids. apply has_bucket_iff. apply H.
    eapply Reach.delete_file_by_id_incl; eauto.
Qed.

Lemma wellformed_same st st' :
  buckets_collection st' = buckets_collection st ->
  files_collection st' = files_collection st ->
  next_oid st' = next_oid st ->
  wellformed st -> wellformed st'.
Proof.
  intros E1 E2 E3 [C B F FF NM SZ RB].
  constructor; unfold consistent_state, records_have_buckets in *;
    rewrite ?E1, ?E2, ?E3; auto.
Qed.

Lemma serve_wellformed flt now st r :
  wellformed st -> wellformed (serve flt now st r).
Proof.
  intros W.
  assert (C' : consistent_state (serve flt now st r))
    by (apply serve_consistent; apply W).
  assert (R' : records_have_buckets (serve flt now st r))
    by (apply serve_records_have_buckets; apply W).
  destruct W as [C B F FF NM SZ RB].
  pose proof C as (K1 & K2 & K3).
  destruct r as [u name d | u b | u b f ct data | u b f];
    cbn [serve] in *.
  - (* create_bucket *)
    destruct (Shape.create_bucket_shape flt now st u name d)
      as [(E1 & E2 & E3) | (Hnone & E1 & E2 & E3)].
    + apply (wellformed_same st); auto. now constructor.
    + constructor; rewrite ?E1, ?E2, ?E3; auto.
      * apply Counters.NoDup_map_snoc; [exact B|].
        cbn [b_id]. now apply Run.fresh_not_in.
      * intros f0 Hf0. specialize (FF _ Hf0). lia.
      * apply Counters.NoDup_map_snoc; [exact NM|].
        now apply find_bucket_none_key.
  - (* delete_bucket *)
    destruct (Shape.delete_bucket_shape flt st u b)
      as (E3 & [(E1 & E2) | (bucket & Hb & E2 & E1)]).
    + apply (wellformed_same st); auto. now constructor.
    + constructor; rewrite ?E2, ?E3; auto.
      * destruct E1 as [E1|E1]; rewrite E1; [exact B|].
        now apply NoDup_map_delete_bucket_by_id.
      * now apply NoDup_map_filter.
      * intros f0 Hf0. apply FF.
        eapply Reach.delete_files_of_bucket_incl; eauto.
      * destruct E1 as [E1|E1]; rewrite E1; [exact NM|].
        now apply NoDup_map_delete_bucket_by_id.
      * intros f0 Hf0. apply SZ.
        eapply Reach.delete_files_of_bucket_incl; eauto.
  - (* upload_file *)
    destruct (Shape.upload_file_shape flt now st u b f ct data)
      as [(E1 & E2 & E3) | (bucket & Hb & Hq & E1 & E2 & E3)].
    + apply (wellformed_same st); auto. now constructor.
    + constructor; rewrite ?E2, ?E3; auto.
      * destruct E1 as [E1|E1]; rewrite E1; [exact B|].
        now rewrite Counters.map_b_id_inc.
      * apply Counters.NoDup_map_snoc; [exact F|].
        cbn [f_id]. now apply Run.fresh_not_in.
      * intros f0 Hf0. apply in_app_or in Hf0 as [Hf0 | [<-|[]]].
        -- specialize (FF _ Hf0). lia.
        -- cbn. lia.
      * destruct E1 as [E1|E1]; rewrite E1; [exact NM|].
        now rewrite map_bucket_key_inc.
      * intros f0 Hf0. apply in_app_or in Hf0 as [Hf0 | [<-|[]]].
        -- now apply SZ.
        -- cbn. lia.
  - (* delete_file *)
    destruct (Shape.delete_file_shape flt st u b f)
      as (E3 & [(E1 & E2) | (bucket & fd & Hb & Hf & E2 & E1)]).
    + apply (wellformed_same st); auto. now constructor.
    + constructor; rewrite ?E2, ?E3; auto.
      * destruct E1 as [E1|(size & E1)]; rewrite E1; [exact B|].
        now rewrite Counters.map_b_id_inc.
      * now apply NoDup_map_delete_file_by_id.
      * intros f0 Hf0. apply FF.
        eapply Reach.delete_file_by_id_incl; eauto.
      * destruct E1 as [E1|(size & E1)]; rewrite E1; [exact NM|].
        now rewrite map_bucket_key_inc.
      * intros f0 Hf0. apply SZ.
        eapply Reach.delete_file_by_id_incl; eauto.
Qed.

Lemma wellformed_initial : wellformed initial_state.
Proof.
  constructor; cbn; try constructor; try contradiction.
  - apply reachable_consistent. constructor.
  - intros f0 Hf0. cbn in Hf0. contradiction.
Qed.

Lemma reachable_wellformed st : reachable st -> wellformed st.
Proof.
  induction 1; [apply wellformed_initial | now apply serve_wellformed].
Qed.

End WellFormed.

(** X1. In every state the service can reach, whatever failed on the way,
    no owner has two bucket documents of the same name: [create_bucket]
    inserts a document only after [find_one] found none for that name and
    owner. *)
Theorem bucket_names_unique_per_owner (st : State) :
  reachable st ->
  NoDup (map bucket_key (buckets_collection st)) /\
  forall b1 b2,
    In b1 (buckets_collection st) -> In b2 (buckets_collection st) ->
    b_user_id b1 = b_user_id b2 -> b_name b1 = b_name b2 -> b1 = b2.
Proof.
  intros H. apply WellFormed.reachable_wellformed in H.
  destruct H as [_ _ _ _ NM _ _]. split; [exact NM|].
  intros b1 b2 H1 H2 Eu En.
  apply (WellFormed.NoDup_map_eq bucket_key _ _ _ NM H1 H2).
  unfold bucket_key. congruence.
Qed.

(** ** The quota along a run *)

Module Quota.
#[local] Open Scope list_scope.

Lemma current_usage_app fs1 fs2 u :
  current_usage (fs1 ++ fs2) u = current_usage fs1 u + current_usage fs2 u.
Proof. induction fs1 as [|f fs1 IH]; simpl; [reflexivity|]. rewrite IH. lia. Qed.

Lemma current_usage_nonneg fs u :
  (forall f, In f fs -> 0 <= f_size f) -> 0 <= current_usage fs u.
Proof.
  induction fs as [|f fs IH]; simpl; [lia|]. intros H.
  assert (0 <= f_size f) by (apply H; now left).
  assert (0 <= current_usage fs u) by (apply IH; intros; apply H; now right).
  destruct (N.eqb _ _); lia.
Qed.

Lemma current_usage_delete_file_by_id id fs u :
  (forall f, In f fs -> 0 <= f_size f) ->
  current_usage (delete_file_by_id id fs) u <= current_usage fs u.
Proof.
  induction fs as [|f fs IH]; simpl; [lia|]. intros H.
  assert (0 <= f_size f) by (apply H; now left).
  assert (current_usage (delete_file_by_id id fs) u <= current_usage fs u)
    by (apply IH; intros; apply H; now right).
  destruct (N.eqb (f_id f) id); simpl; destruct (N.eqb (f_user_id f) u); lia.
Qed.

Lemma current_usage_filter p fs u :
  (forall f, In f fs -> 0 <= f_size f) ->
  current_usage (filter p fs) u <= current_usage fs u.
Proof.
  induction fs as [|f fs IH]; simpl; [lia|]. intros H.
  assert (0 <= f_size f) by (apply H; now left).
  assert (current_usage (filter p fs) u <= current_usage fs u)
    by (apply IH; intros; apply H; now right).
  destruct (p f); simpl; destruct (N.eqb (f_user_id f) u); lia.
Qed.

(** Sizes are not negative and no owner is above the quota. *)
Lemma serve_within_quota flt now st r :
  valid_oid (request_user r) ->
  (forall f, In f (files_collection st) -> 0 <= f_size f) ->
  (forall u, current_usage (files_collection st) u <= QUOTA_BYTES) ->
  (forall f, In f (files_collection (serve flt now st r)) -> 0 <= f_size f) /\
  (forall u, current_usage (files_collection (serve flt now st r)) u
             <= QUOTA_BYTES).
Proof.
  intros Hv SZ Q.
  destruct r as [u name d | u b | u b f ct data | u b f];
    cbn [serve request_user] in *.
  - destruct (Shape.create_bucket_shape flt now st u name d)
      as [(_ & E & _) | (_ & _ & E & _)]; rewrite E; auto.
  - destruct (Shape.delete_bucket_shape flt st u b)
      as (_ & [(_ & E) | (bucket & _ & E & _)]); rewrite E; [auto|].
    split.
    + intros f0 Hf0. apply SZ.
      eapply Reach.delete_files_of_bucket_incl; eauto.
    + intros u0. unfold delete_files_of_bucket.
      pose proof (current_usage_filter
                    (fun f => negb (N.eqb (f_bucket_id f) (b_id bucket)))
                    (files_collection st) u0 SZ).
      specialize (Q u0). lia.
  - destruct (Shape.upload_file_shape flt now st u b f ct data)
      as [(_ & E & _) | (bucket & _ & Hq & _ & E & _)]; rewrite E; [auto|].
    rewrite check_storage_limit_spec in Hq by exact Hv.
    injection Hq as Hq. apply Z.leb_le in Hq.
    split.
    + intros f0 Hf0. apply in_app_or in Hf0 as [Hf0 | [<-|[]]];
        [now apply SZ | cbn; lia].
    + intros u0. rewrite current_usage_app. cbn.
      destruct (N.eqb u u0) eqn:Eu.
      * apply N.eqb_eq in Eu. subst u0. lia.
      * specialize (Q u0). lia.
  - destruct (Shape.delete_file_shape flt st u b f)
      as (_ & [(_ & E) | (bucket & fd & _ & _ & E & _)]); rewrite E; [auto|].
    split.
    + intros f0 Hf0. apply SZ.
      eapply Reach.delete_file_by_id_incl; eauto.
    + intros u0.
      pose proof (current_usage_delete_file_by_id (f_id fd)
                    (files_collection st) u0 SZ).
      specialize (Q u0). lia.
Qed.

Lemma run_within_quota rs st :
  Forall valid_request rs ->
  (forall f, In f (files_collection st) -> 0 <= f_size f) ->
  (forall u, current_usage (files_collection st) u <= QUOTA_BYTES) ->
  (forall f, In f (files_collection (run st rs)) -> 0 <= f_size f) /\
  (forall u, current_usage (files_collection (run st rs)) u <= QUOTA_BYTES).
Proof.
  intros Hrs. revert st.
  induction Hrs as [|x rs Hx Hrs IH]; intros st SZ Q; cbn; [auto|].
  destruct (serve_within_quota (sv_faults x) (sv_now x) st (sv_request x)
              Hx SZ Q) as [SZ' Q'].
  now apply IH.
Qed.

End Quota.

(** X2. However the requests of owners with 12-byte ids are interleaved and
    whichever backend calls fail, after every request each owner's usage,
    as [get_user_storage_usage] computes it, is between 0 and
    [STORAGE_LIMIT_BYTES]: an upload is recorded only after
    [check_storage_limit] passed, and deletions only remove records. *)
Theorem usage_within_quota (rs : list served) (u : ObjectId) :
  Forall valid_request rs ->
  valid_oid u ->
  exists usage,
    get_user_storage_usage (files_collection (run initial_state rs))
      (str_oid u) = Some usage /\
    0 <= usage <= STORAGE_LIMIT_BYTES.
Proof.
  intros Hrs Hu.
  destruct (Quota.run_within_quota rs initial_state Hrs) as [SZ Q].
  - cbn. contradiction.
  - intros u0. cbn. unfold QUOTA_BYTES. lia.
  - exists (current_usage (files_collection (run initial_state rs)) u).
    unfold get_user_storage_usage.
    rewrite (StrFacts.oid_of_str_oid u Hu), sum_sizes_of_user_usage.
    split; [reflexivity|]. split.
    + now apply Quota.current_usage_nonneg.
    + apply (Q u).
Qed.

(** ** Where no bucket was deleted: records, buckets and counters *)

Module Ledger.
#[local] Open Scope list_scope.

(** What an admissible run from the initial state arrives at. *)
Lemma admissible_run rs :
  Forall admissible rs ->
  healthy (run initial_state rs) /\
  consistent_state (run initial_state rs) /\
  records_have_buckets (run initial_state rs).
Proof.
  intros Hrs. split; [|split].
  - apply Run.healthy_run; [exact Hrs | apply Run.healthy_initial].
  - apply reachable_consistent, run_reachable. constructor.
  - apply WellFormed.reachable_wellformed, run_reachable. constructor.
Qed.

(** Two records of one bucket agree on owner and bucket name. *)
Lemma record_of_bucket st f b :
  consistent_state st -> In f (files_collection st) ->
  In b (buckets_collection st) -> b_id b = f_bucket_id f ->
  f_bucket_name f = b_name b /\ f_user_id f = b_user_id b /\
  f_file_path f = upload_path (b_user_id b) (b_name b) (f_filename f).
Proof.
  intros (_ & _ & K3) Hf Hb E.
  destruct (K3 _ Hf) as (_ & Hp & Hm). destruct (Hm _ Hb E) as [E1 E2].
  rewrite Hp, E1, E2. auto.
Qed.

Lemma NoDup_map_factor {A B C} (g : A -> B) (h : A -> C) l :
  NoDup (map g l) ->
  (forall x y, In x l -> In y l -> h x = h y -> g x = g y) ->
  NoDup (map h l).
Proof.
  induction l as [|x l IH]; simpl; intros Hnd Hgh; [constructor|].
  inversion Hnd as [|z l' Hnot Hd]; subst. constructor.
  - intros Hin. apply in_map_iff in Hin as (y & E & Hy).
    apply Hnot. apply in_map_iff. exists y. split; [|exact Hy].
    apply Hgh; auto.
  - apply IH; [exact Hd|]. intros; apply Hgh; auto.
Qed.

Lemma file_keys_unique st :
  healthy st -> consistent_state st -> records_have_buckets st ->
  NoDup (map file_key (files_collection st)).
Proof.
  intros Hh Hc Hr.
  apply (NoDup_map_factor (record_loc (disk st))); [apply Hh|].
  intros f1 f2 H1 H2 E. unfold file_key in E. injection E as Eb En.
  destruct (Hr _ H1) as (b & Hb & Eid).
  destruct (record_of_bucket st f1 b Hc H1 Hb Eid) as (_ & _ & P1).
  destruct (record_of_bucket st f2 b Hc H2 Hb) as (_ & _ & P2);
    [congruence|].
  unfold record_loc. rewrite P1, P2, En. reflexivity.
Qed.

Lemma find_file_exists fs id name f :
  In f fs -> f_bucket_id f = id -> f_filename f = name ->
  exists f', find_file fs id name = Some f'.
Proof.
  intros Hin E1 E2. unfold find_file.
  destruct (find _ fs) as [f'|] eqn:Hfind; [now exists f'|].
  pose proof (find_none _ _ Hfind f Hin) as Hp. cbv beta in Hp.
  rewrite E1, E2, N.eqb_refl, String.eqb_refl in Hp. discriminate.
Qed.

(** *** Sums over the records of a bucket *)

Lemma sum_Z_cons x l : sum_Z (x :: l) = x + sum_Z l.
Proof. reflexivity. Qed.

Lemma count_files_of_bucket fs i :
  count_files fs i = Z.of_nat (List.length (files_of_bucket fs i)).
Proof.
  unfold files_of_bucket. induction fs as [|f fs IH]; [reflexivity|].
  cbn [count_files filter]. rewrite IH.
  destruct (N.eqb (f_bucket_id f) i); cbn [List.length]; lia.
Qed.

Lemma sum_sizes_of_bucket fs i :
  sum_sizes fs i = sum_Z (map f_size (files_of_bucket fs i)).
Proof.
  unfold files_of_bucket. induction fs as [|f fs IH]; [reflexivity|].
  cbn [sum_sizes filter]. rewrite IH.
  destruct (N.eqb (f_bucket_id f) i); cbn [map]; rewrite ?sum_Z_cons; lia.
Qed.

Lemma current_usage_sum fs u :
  current_usage fs u
  = sum_Z (map f_size (filter (fun f => N.eqb (f_user_id f) u) fs)).
Proof.
  induction fs as [|f fs IH]; [reflexivity|].
  cbn [current_usage filter]. rewrite IH.
  destruct (N.eqb (f_user_id f) u); cbn [map]; rewrite ?sum_Z_cons; lia.
Qed.

Lemma sum_all_sizes_sum fs : sum_all_sizes fs = sum_Z (map f_size fs).
Proof.
  unfold sum_all_sizes. induction fs as [|f fs IH]; [reflexivity|].
  cbn [fold_left map]. rewrite fold_left_sizes, sum_Z_cons, IH. lia.
Qed.

Lemma length_sum {A} (l : list A) :
  Z.of_nat (List.length l) = sum_Z (map (fun _ => 1) l).
Proof.
  induction l as [|x l IH]; [reflexivity|].
  cbn [List.length map]. rewrite sum_Z_cons. lia.
Qed.

Lemma sum_Z_map_add {A} (g h : A -> Z) l :
  sum_Z (map (fun x => g x + h x) l) = sum_Z (map g l) + sum_Z (map h l).
Proof.
  induction l as [|x l IH]; [reflexivity|].
  cbn [map]. rewrite !sum_Z_cons. lia.
Qed.

Lemma sum_Z_map_ext {A} (g h : A -> Z) l :
  (forall x, In x l -> g x = h x) -> sum_Z (map g l) = sum_Z (map h l).
Proof.
  induction l as [|x l IH]; intros H; [reflexivity|].
  cbn [map]. rewrite !sum_Z_cons, (H x) by now left.
  rewrite IH; [reflexivity|]. intros; apply H; now right.
Qed.

Lemma sum_Z_zero {A} (g : A -> Z) l :
  (forall x, In x l -> g x = 0) -> sum_Z (map g l) = 0.
Proof.
  induction l as [|x l IH]; intros H; [reflexivity|].
  cbn [map]. rewrite !sum_Z_cons, (H x) by now left.
  rewrite IH; [reflexivity|]. intros; apply H; now right.
Qed.

(** Among buckets with distinct ids, exactly one has the id of [b0]. *)
Lemma sum_single (p : BucketDoc -> bool) bs b0 c :
  NoDup (map b_id bs) -> In b0 bs ->
  sum_Z (map (fun b => if N.eqb (b_id b0) (b_id b) then c else 0) (filter p bs))
  = if p b0 then c else 0.
Proof.
  induction bs as [|b bs IH]; [contradiction|].
  intros Hnd Hin. cbn [map] in Hnd.
  inversion Hnd as [|z l' Hnot Hd]; subst.
  destruct Hin as [E|Hin].
  - subst b0. cbn [filter].
    assert (Hrest : sum_Z (map (fun b' => if N.eqb (b_id b) (b_id b') then c else 0)
                             (filter p bs)) = 0).
    { apply sum_Z_zero. intros x Hx. apply filter_In in Hx as [Hx _].
      destruct (N.eqb (b_id b) (b_id x)) eqn:E; [|reflexivity].
      apply N.eqb_eq in E. exfalso. apply Hnot. rewrite E. now apply in_map. }
    destruct (p b); [|exact Hrest].
    cbn [map]. rewrite sum_Z_cons, Hrest, N.eqb_refl. lia.
  - cbn [filter]. specialize (IH Hd Hin).
    destruct (p b); [|exact IH].
    cbn [map]. rewrite sum_Z_cons, IH.
    destruct (N.eqb (b_id b0) (b_id b)) eqn:E; [|lia].
    apply N.eqb_eq in E. exfalso. apply Hnot. rewrite <- E. now apply in_map.
Qed.

(** Adding [w] over the records bucket by bucket, for the buckets of the
    owners [sel] selects, gives the sum of [w] over the records of those
    owners. *)
Lemma per_bucket_sums (w : FileDoc -> Z) (sel : ObjectId -> bool) bs fs :
  NoDup (map b_id bs) ->
  (forall f, In f fs ->
     exists b, In b bs /\ b_id b = f_bucket_id f /\
               b_user_id b = f_user_id f) ->
  sum_Z (map (fun b => sum_Z (map w (files_of_bucket fs (b_id b))))
           (filter (fun b => sel (b_user_id b)) bs))
  = sum_Z (map w (filter (fun f => sel (f_user_id f)) fs)).
Proof.
  intros Hnd. induction fs as [|f fs IH]; intros Hex.
  - cbn. apply sum_Z_zero. reflexivity.
  - destruct (Hex f (or_introl eq_refl)) as (b0 & Hb0 & Eid & Eu).
    rewrite (sum_Z_map_ext _
               (fun b => (if N.eqb (b_id b0) (b_id b) then w f else 0)
                         + sum_Z (map w (files_of_bucket fs (b_id b))))).
    2:{ intros b _. unfold files_of_bucket. cbn [filter]. rewrite <- Eid.
        destruct (N.eqb (b_id b0) (b_id b)); cbn [map]; rewrite ?sum_Z_cons; lia. }
    rewrite sum_Z_map_add.
    rewrite (sum_single (fun b => sel (b_user_id b)) bs b0 (w f) Hnd Hb0).
    rewrite IH by (intros; apply Hex; now right).
    cbn [filter]. rewrite Eu.
    destruct (sel (f_user_id f)); cbn [map]; rewrite ?sum_Z_cons; lia.
Qed.

Lemma filter_all {A} (l : list A) : filter (fun _ => true) l = l.
Proof. induction l as [|x l IH]; cbn; [reflexivity | now rewrite IH]. Qed.

Lemma records_with_owner st :
  consistent_state st -> records_have_buckets st ->
  forall f, In f (files_collection st) ->
    exists b, In b (buckets_collection st) /\ b_id b = f_bucket_id f /\
              b_user_id b = f_user_id f.
Proof.
  intros Hc Hr f Hf. destruct (Hr _ Hf) as (b & Hb & E).
  exists b. split; [exact Hb|]. split; [exact E|].
  destruct (record_of_bucket st f b Hc Hf Hb E) as (_ & Eu & _). auto.
Qed.

(** The counters of the buckets [sel] selects add up to the records of
    their owners. *)
Lemma counters_add_up (sel : ObjectId -> bool) st :
  healthy st -> consistent_state st -> records_have_buckets st ->
  sum_Z (map b_total_size
           (filter (fun b => sel (b_user_id b)) (buckets_collection st)))
  = sum_Z (map f_size
             (filter (fun f => sel (f_user_id f)) (files_collection st))) /\
  sum_Z (map b_file_count
           (filter (fun b => sel (b_user_id b)) (buckets_collection st)))
  = Z.of_nat (List.length
                (filter (fun f => sel (f_user_id f)) (files_collection st))).
Proof.
  intros Hh Hc Hr.
  pose proof (h_counters st Hh) as HI. unfold I1 in HI.
  pose proof (h_bucket_ids st Hh) as Hnd.
  pose proof (records_with_owner st Hc Hr) as Hex.
  split.
  - rewrite <- (per_bucket_sums f_size sel _ _ Hnd Hex).
    apply sum_Z_map_ext. intros b Hb. apply filter_In in Hb as [Hb _].
    destruct (HI b Hb) as [_ E]. rewrite E. apply sum_sizes_of_bucket.
  - rewrite length_sum.
    rewrite <- (per_bucket_sums (fun _ => 1) sel _ _ Hnd Hex).
    apply sum_Z_map_ext. intros b Hb. apply filter_In in Hb as [Hb _].
    destruct (HI b Hb) as [E _]. rewrite E, count_files_of_bucket.
    apply length_sum.
Qed.

End Ledger.

(** X3. After a run of [create_bucket], [upload_file] and [delete_file]
    requests under failures the handlers clean up after, no bucket holds two
    file records of the same filename: a second record for a name needs the
    blob of the first to be missing, which such runs never cause. *)
Theorem filenames_unique_per_bucket (rs : list served) :
  Forall admissible rs ->
  let st := run initial_state rs in
  NoDup (map file_key (files_collection st)) /\
  forall f1 f2,
    In f1 (files_collection st) -> In f2 (files_collection st) ->
    f_bucket_id f1 = f_bucket_id f2 -> f_filename f1 = f_filename f2 ->
    f1 = f2.
Proof.
  intros Hrs st. destruct (Ledger.admissible_run rs Hrs) as (Hh & Hc & Hr).
  pose proof (Ledger.file_keys_unique _ Hh Hc Hr) as Hnd.
  split; [exact Hnd|]. intros f1 f2 H1 H2 Eb En.
  apply (WellFormed.NoDup_map_eq file_key _ _ _ Hnd H1 H2).
  unfold file_key. congruence.
Qed.

(** X4. After such a run, the [storage_used] that [get_current_user_info]
    reports for an owner (the sum over the owner's file records) is the sum
    of the [total_size] counters that [list_buckets] reports for the same
    owner, and the [file_count] counters add up to the number of the owner's
    records. *)
Theorem storage_used_is_sum_of_bucket_totals
  (rs : list served) (current_user : UserDoc) :
  Forall admissible rs ->
  valid_oid (usr_id current_user) ->
  let st := run initial_state rs in
  exists info buckets,
    get_current_user_info st current_user = Granted 200 info /\
    list_buckets st (usr_id current_user) = Success 200 buckets /\
    ui_storage_used info = sum_Z (map bi_total_size (bl_buckets buckets)) /\
    sum_Z (map bi_file_count (bl_buckets buckets))
    = Z.of_nat (List.length
                  (filter (fun f => N.eqb (f_user_id f) (usr_id current_user))
                     (files_collection st))).
Proof.
  intros Hrs Hu st. destruct (Ledger.admissible_run rs Hrs) as (Hh & Hc & Hr).
  fold st in Hh, Hc, Hr.
  unfold get_current_user_info, list_buckets, get_user_storage_usage.
  rewrite (StrFacts.oid_of_str_oid _ Hu).
  eexists. eexists. split; [reflexivity|]. split; [reflexivity|].
  cbn [ui_storage_used bl_buckets].
  destruct (Ledger.counters_add_up
              (fun x => N.eqb x (usr_id current_user)) st Hh Hc Hr)
    as [Hsize Hcount].
  rewrite !map_map. cbn [bucket_info bi_total_size bi_file_count].
  unfold buckets_of_user. split.
  - rewrite sum_sizes_of_user_usage, Ledger.current_usage_sum.
    symmetry. exact Hsize.
  - exact Hcount.
Qed.

(** X5. After such a run, what [get_admin_stats] reports to an admin agrees
    with the counters of the bucket documents: [total_files] is the sum of
    all [file_count]s and [total_storage_bytes] the sum of all
    [total_size]s. *)
Theorem admin_stats_agree_with_counters
  (rs : list served) (us : UserStore) (current_user : UserDoc) :
  Forall admissible rs ->
  usr_is_admin current_user = true ->
  let st := run initial_state rs in
  exists stats,
    get_admin_stats us st current_user = Granted 200 stats /\
    total_buckets stats = Z.of_nat (List.length (buckets_collection st)) /\
    total_files stats = sum_Z (map b_file_count (buckets_collection st)) /\
    total_storage_bytes stats
    = sum_Z (map b_total_size (buckets_collection st)).
Proof.
  intros Hrs Ha st. destruct (Ledger.admissible_run rs Hrs) as (Hh & Hc & Hr).
  fold st in Hh, Hc, Hr.
  unfold get_admin_stats, get_current_admin_user. rewrite Ha. cbn [negb].
  eexists. split; [reflexivity|].
  cbn [total_buckets total_files total_storage_bytes].
  destruct (Ledger.counters_add_up (fun _ => true) st Hh Hc Hr)
    as [Hsize Hcount].
  rewrite !Ledger.filter_all in Hsize, Hcount.
  split; [reflexivity|]. split.
  - symmetry. exact Hcount.
  - rewrite Ledger.sum_all_sizes_sum. symmetry. exact Hsize.
Qed.

(** X6. After such a run, every file that [list_files] lists can be
    downloaded under its listed name, and [download_file] answers 200 with
    a body of exactly the listed size. *)
Theorem listed_files_are_downloadable
  (rs : list served) (u : ObjectId) (b : string) (s : Z) (listing : FileList)
  (fi : FileInfo) :
  Forall admissible rs ->
  let st := run initial_state rs in
  list_files st u b = Success s listing ->
  In fi (fl_files listing) ->
  exists data,
    download_file st u b (fi_filename fi) = Success 200 data /\
    Z.of_nat (List.length data) = fi_size fi.
Proof.
  intros Hrs st. destruct (Ledger.admissible_run rs Hrs) as (Hh & Hc & Hr).
  fold st in Hh, Hc, Hr.
  unfold list_files, download_file.
  destruct (find_bucket (buckets_collection st) b u) as [bucket|] eqn:Hb;
    [|discriminate].
  intros E Hin. injection E as _ <-. cbn [fl_files] in Hin.
  apply in_map_iff in Hin as (f & <- & Hf).
  unfold files_of_bucket in Hf. apply filter_In in Hf as [Hf Eid].
  apply N.eqb_eq in Eid. cbn [file_info fi_filename fi_size].
  destruct (Ledger.find_file_exists _ _ _ f Hf Eid eq_refl) as (f' & Hfind).
  rewrite Hfind.
  pose proof (Reach.find_file_some _ _ _ _ Hfind) as (Hf' & Eid' & En').
  assert (f' = f) as ->.
  { apply (WellFormed.NoDup_map_eq file_key (files_collection st));
      [now apply Ledger.file_keys_unique | exact Hf' | exact Hf |].
    unfold file_key. congruence. }
  destruct (h_blobs st Hh f Hf) as (data & Hread & Hlen).
  unfold stored_path.
  rewrite (Run.read_file_nonempty _ _ _ Hread).
  rewrite (DiskCalls.read_file_exists _ _ _ Hread).
  cbn [negb]. rewrite Hread. exists data. auto.
Qed.

(** X7. After such a run, [list_files] and [get_bucket] agree: the number
    of files listed is the bucket's [file_count], and their sizes add up to
    its [total_size]. *)
Theorem list_files_agrees_with_get_bucket
  (rs : list served) (u : ObjectId) (b : string)
  (s : Z) (info : BucketInfo) :
  Forall admissible rs ->
  let st := run initial_state rs in
  get_bucket st u b = Success s info ->
  exists listing,
    list_files st u b = Success 200 listing /\
    fl_count listing = bi_file_count info /\
    Z.of_nat (List.length (fl_files listing)) = bi_file_count info /\
    sum_Z (map fi_size (fl_files listing)) = bi_total_size info.
Proof.
  intros Hrs st. destruct (Ledger.admissible_run rs Hrs) as (Hh & _ & _).
  fold st in Hh. unfold get_bucket, list_files.
  destruct (find_bucket (buckets_collection st) b u) as [bucket|] eqn:Hb;
    [|discriminate].
  intros E. injection E as _ <-.
  eexists. split; [reflexivity|].
  cbn [fl_count fl_files bucket_info bi_file_count bi_total_size].
  apply Reach.find_bucket_some in Hb as (Hin & _ & _).
  destruct (h_counters st Hh bucket Hin) as [Ec Es].
  rewrite Ec, Es, Ledger.count_files_of_bucket, Ledger.sum_sizes_of_bucket.
  rewrite !length_map, map_map. cbn [file_info fi_size]. auto.
Qed.

(** ** Reading back what a request wrote *)

Module ReadBack.
#[local] Open Scope list_scope.

Lemma create_success_inv flt now st u name d s doc st' :
  create_bucket flt now st u name d = (Success s doc, st') ->
  name_rejected name = false /\
  find_bucket (buckets_collection st) name u = None /\
  exists d1,
    Fs.makedirs (disk st) (bucket_dir u name) = Some d1 /\
    s = 201 /\
    doc = mkBucketDoc (next_oid st) name d u now 0 0 /\
    st' = mkState (buckets_collection st ++ [doc]) (files_collection st) d1
            (N.succ (next_oid st)).
Proof.
  unfold create_bucket.
  destruct (Py.falsy name || Py.falsy (Py.strip name)) eqn:T1; [discriminate|].
  destruct (negb (Py.isalnum _)) eqn:T2; [discriminate|].
  assert (name_rejected name = false) as Hacc.
  { unfold name_rejected, stripped. now rewrite T1, T2. }
  destruct (find_bucket _ _ _) eqn:Hfind; [discriminate|].
  assert (Hex : forall s0, create_bucket_except flt s0 (bucket_dir u name)
                           <> (Success s doc, st')).
  { intros s0. unfold create_bucket_except.
    destruct (Fs.exists_ _ _); [|discriminate].
    destruct (os_rmtree _ _ _); discriminate. }
  unfold os_makedirs. destruct (makedirs_raises flt).
  { intros H. now apply Hex in H. }
  destruct (Fs.makedirs (disk st) (bucket_dir u name)) as [d1|] eqn:Hmk;
    cbn [option_map].
  2:{ intros H. now apply Hex in H. }
  unfold db_insert_bucket. destruct (insert_one_raises flt).
  { intros H. now apply Hex in H. }
  cbn. intros [= <- <- <-].
  split; [exact Hacc|]. split; [reflexivity|]. exists d1. auto.
Qed.

Lemma delete_bucket_success_inv flt st u b s st' :
  delete_bucket flt st u b = (Success s tt, st') ->
  exists bucket,
    find_bucket (buckets_collection st) b u = Some bucket /\
    buckets_collection st'
    = delete_bucket_by_id (b_id bucket) (buckets_collection st) /\
    files_collection st'
    = delete_files_of_bucket (b_id bucket) (files_collection st) /\
    next_oid st' = next_oid st.
Proof.
  unfold delete_bucket.
  destruct (find_bucket _ _ _) as [bucket|] eqn:Hb; [|discriminate].
  unfold db_delete_files_of_bucket, db_delete_bucket, os_rmtree.
  destruct (delete_many_raises flt); [discriminate|].
  cbn [disk set_files].
  destruct (Fs.exists_ _ _).
  - destruct (rmtree_raises flt); [discriminate|].
    destruct (Fs.rmtree _ _); cbn [option_map]; [|discriminate].
    destruct (delete_one_raises flt); [discriminate|].
    intros [= <- <-]. exists bucket. cbn. auto.
  - destruct (delete_one_raises flt); [discriminate|].
    intros [= <- <-]. exists bucket. cbn. auto.
Qed.

Lemma find_bucket_snoc bs name u doc :
  find_bucket bs name u = None ->
  b_name doc = name -> b_user_id doc = u ->
  find_bucket (bs ++ [doc]) name u = Some doc.
Proof.
  unfold find_bucket. intros Hnone En Eu.
  induction bs as [|b bs IH]; cbn [app find] in *.
  - now rewrite En, Eu, String.eqb_refl, N.eqb_refl.
  - destruct (String.eqb (b_name b) name && N.eqb (b_user_id b) u);
      [discriminate | auto].
Qed.

Lemma find_bucket_absent bs name u :
  (forall b, In b bs -> b_name b = name -> b_user_id b = u -> False) ->
  find_bucket bs name u = None.
Proof.
  unfold find_bucket. intros H.
  destruct (find _ bs) as [b|] eqn:Hfind; [|reflexivity].
  apply find_some in Hfind as [Hin Hp]. apply andb_prop in Hp as [H1 H2].
  apply String.eqb_eq in H1. apply N.eqb_eq in H2.
  exfalso. eapply H; eauto.
Qed.

(** In a consistent state, the path [download_file] and [delete_file] take
    from a record of the bucket is the one [upload_file] computes. *)
Lemma stored_path_consistent st bucket fd u b f :
  consistent_state st ->
  find_bucket (buckets_collection st) b u = Some bucket ->
  In fd (files_collection st) ->
  f_bucket_id fd = b_id bucket -> f_filename fd = f ->
  stored_path fd u b f = upload_path u b f /\
  f_file_path fd = upload_path u b f.
Proof.
  intros Hc Hb Hfd Eid En.
  apply Reach.find_bucket_some in Hb as (Hin & Hn & Hu).
  destruct (Ledger.record_of_bucket st fd bucket Hc Hfd Hin (eq_sym Eid))
    as (_ & _ & P).
  rewrite Hn, Hu, En in P. split; [|exact P].
  unfold stored_path. rewrite P.
  destruct (Py.falsy (upload_path u b f)); reflexivity.
Qed.

Lemma files_of_bucket_snoc fs i doc :
  f_bucket_id doc = i ->
  files_of_bucket (fs ++ [doc]) i = files_of_bucket fs i ++ [doc].
Proof.
  intros E. unfold files_of_bucket. rewrite filter_app. cbn [filter].
  now rewrite E, N.eqb_refl.
Qed.

End ReadBack.

(** X8. In every reachable state, once [delete_file] has answered 200 for a
    filename, [download_file] for that bucket and filename answers 404:
    either no record is left, or the record that is left has no blob. *)
Theorem download_after_delete_file_is_404
  (flt : faults) (st : State) (u : ObjectId) (b f : string)
  (s : Z) (st' : State) :
  reachable st ->
  delete_file flt st u b f = (Success s tt, st') ->
  http_status (download_file st' u b f) = 404 /\
  Fs.exists_ (disk st') (upload_path u b f) = false.
Proof.
  intros Hreach Hdel. apply reachable_consistent in Hreach.
  destruct (DeleteFacts.delete_success_inv _ _ _ _ _ _ _ Hdel)
    as (bucket & fd & size & d & Hb & Hf & Hdisk & ->).
  pose proof (Reach.find_file_some _ _ _ _ Hf) as (Hfd & Eid & En).
  destruct (ReadBack.stored_path_consistent st bucket fd u b f
              Hreach Hb Hfd Eid En) as [Hsp _].
  rewrite Hsp in Hdisk.
  assert (Hgone : Fs.exists_ d (upload_path u b f) = false).
  { destruct (Fs.exists_ (disk st) (upload_path u b f)) eqn:He.
    - destruct Hdisk as [_ Hr]. now apply DiskCalls.remove_exists in Hr.
    - destruct Hdisk as [_ ->]. exact He. }
  split; [|exact Hgone].
  unfold download_file. cbn [buckets_collection files_collection disk].
  destruct (UploadSuccess.find_bucket_inc_some (b_id bucket) (-1) (- size)
              _ _ _ _ Hb) as (bucket' & Hb' & Eid').
  rewrite Hb'.
  destruct (find_file _ (b_id bucket') f) as [fd'|] eqn:Hf'; [|reflexivity].
  apply Reach.find_file_some in Hf' as (Hfd' & Eid2 & En2).
  apply Reach.delete_file_by_id_incl in Hfd'.
  destruct (ReadBack.stored_path_consistent st bucket fd' u b f
              Hreach Hb Hfd') as [Hsp' _]; [congruence | exact En2 |].
  rewrite Hsp', Hgone. reflexivity.
Qed.

(** X9. A bucket just created can be read back: after [create_bucket]
    answered 201, [get_bucket] for the same owner and name answers 200 with
    the new id, the name and description given, and both counters 0; and
    [list_buckets] of the owner contains it. *)
Theorem get_bucket_after_create_bucket
  (flt : faults) (now : string) (st : State) (u : ObjectId) (name : string)
  (d : option string) (s : Z) (doc : BucketDoc) (st' : State) :
  create_bucket flt now st u name d = (Success s doc, st') ->
  get_bucket st' u name
  = Success 200 (mkBucketInfo (str_oid (next_oid st)) name d now 0 0) /\
  get_bucket st u name = Failure BucketNotFound /\
  exists buckets,
    list_buckets st' u = Success 200 buckets /\
    In (mkBucketInfo (str_oid (next_oid st)) name d now 0 0)
       (bl_buckets buckets).
Proof.
  intros H.
  destruct (ReadBack.create_success_inv _ _ _ _ _ _ _ _ _ H)
    as (_ & Hnone & d1 & _ & _ & -> & ->).
  unfold get_bucket, list_buckets. cbn [buckets_collection].
  rewrite Hnone.
  rewrite (ReadBack.find_bucket_snoc _ name u
             (mkBucketDoc (next_oid st) name d u now 0 0) Hnone eq_refl eq_refl).
  split; [reflexivity|]. split; [reflexivity|].
  eexists. split; [reflexivity|]. cbn [bl_buckets].
  apply in_map_iff. exists (mkBucketDoc (next_oid st) name d u now 0 0).
  split; [reflexivity|].
  unfold buckets_of_user. apply filter_In. split.
  - apply in_or_app. right. now left.
  - cbn. apply N.eqb_refl.
Qed.

(** X10. In every reachable state, once [delete_bucket] has answered 200
    the bucket is gone for its owner: [get_bucket], [list_files] and
    [download_file] answer 404 "Bucket not found", and no file record
    refers to the bucket any more. *)
Theorem bucket_gone_after_delete_bucket
  (flt : faults) (st : State) (u : ObjectId) (b : string)
  (s : Z) (st' : State) :
  reachable st ->
  delete_bucket flt st u b = (Success s tt, st') ->
  get_bucket st' u b = Failure BucketNotFound /\
  list_files st' u b = Failure BucketNotFound /\
  (forall f, download_file st' u b f = Failure BucketNotFound) /\
  (forall fd, In fd (files_collection st') ->
              f_bucket_name fd = b -> f_user_id fd = u -> False).
Proof.
  intros Hreach H.
  pose proof (WellFormed.reachable_wellformed st Hreach)
    as [Hc Hids _ _ Hnames _].
  destruct (ReadBack.delete_bucket_success_inv _ _ _ _ _ _ H)
    as (bucket & Hb & Ebs & Efs & _).
  assert (Hnone : find_bucket (buckets_collection st') b u = None).
  { apply ReadBack.find_bucket_absent. intros b' Hin En Eu.
    rewrite Ebs in Hin.
    pose proof (DeleteBucketFacts.delete_bucket_by_id_gone _ _ Hids _ Hin)
      as Hne.
    apply Reach.delete_bucket_by_id_incl in Hin.
    apply Hne. f_equal.
    exact (WellFormed.find_bucket_key _ _ _ _ _ Hnames Hb Hin En Eu). }
  unfold get_bucket, list_files, download_file. rewrite Hnone.
  split; [reflexivity|]. split; [reflexivity|]. split; [reflexivity|].
  intros fd Hfd En Eu.
  assert (Hreach' : reachable st').
  { replace st' with (serve flt EmptyString st (DeleteBucket u b))
      by (cbn [serve]; now rewrite H).
    now constructor. }
  pose proof (WellFormed.reachable_wellformed st' Hreach')
    as [Hc' _ _ _ _ _ Hrb'].
  destruct (Hrb' _ Hfd) as (b' & Hb' & Eid).
  destruct (Ledger.record_of_bucket st' fd b' Hc' Hfd Hb' Eid)
    as (En' & Eu' & _).
  apply (WellFormed.find_bucket_none_key _ _ _ Hnone).
  apply in_map_iff. exists b'. split; [|exact Hb'].
  unfold bucket_key. congruence.
Qed.

(** X11. In every reachable state, whatever failed on the way, every file
    record has its bucket document, and agrees with it on bucket name and
    owner; its [file_path] is the path [upload_file] computes from them.
    [delete_bucket] deletes the records before the document, so none is
    left dangling. *)
Theorem every_record_has_its_bucket (st : State) (f : FileDoc) :
  reachable st ->
  In f (files_collection st) ->
  exists b,
    In b (buckets_collection st) /\
    b_id b = f_bucket_id f /\
    b_name b = f_bucket_name f /\
    b_user_id b = f_user_id f /\
    f_file_path f = upload_path (b_user_id b) (b_name b) (f_filename f) /\
    0 <= f_size f.
Proof.
  intros Hreach Hf.
  pose proof (WellFormed.reachable_wellformed st Hreach)
    as [Hc _ _ _ _ Hsz Hrb].
  destruct (Hrb _ Hf) as (b & Hb & Eid).
  destruct (Ledger.record_of_bucket st f b Hc Hf Hb Eid) as (En & Eu & Ep).
  exists b. repeat split; auto.
Qed.

(** X12. Whatever name [create_bucket] accepts, the directory it makes is
    [STORAGE_PATH/<owner id>/<name>] and nothing else changes on disk: the
    location was free before, is a directory afterwards, every file is
    still there, and every other directory that is new is one of the two
    directories above it.  An accepted bucket name cannot point outside the
    owner's directory. *)
Theorem create_bucket_directory_location
  (flt : faults) (now : string) (st : State) (u : ObjectId) (name : string)
  (d : option string) (s : Z) (doc : BucketDoc) (st' : State) :
  create_bucket flt now st u name d = (Success s doc, st') ->
  Fs.lookup (disk st) (bucket_loc u name) = None /\
  Fs.is_dir (disk st') (bucket_loc u name) = true /\
  Fs.resolve (disk st') (bucket_dir u name) = Some (bucket_loc u name) /\
  (forall q data, Fs.lookup (disk st) q = Some (Fs.File data) ->
                  Fs.lookup (disk st') q = Some (Fs.File data)) /\
  (forall p, Fs.is_dir (disk st) p = true -> Fs.is_dir (disk st') p = true) /\
  (forall p, Fs.is_dir (disk st') p = true ->
             Fs.is_dir (disk st) p = true \/
             p = bucket_loc u name \/
             p = ["app"; "storage"; str_oid u] \/
             p = ["app"; "storage"] \/ p = ["app"]).
Proof.
  intros H.
  destruct (ReadBack.create_success_inv _ _ _ _ _ _ _ _ _ H)
    as (Hacc & _ & d1 & Hmk & _ & _ & ->).
  cbn [disk].
  destruct (Paths.makedirs_bucket_dir _ _ _ _ Hacc Hmk) as (M1 & M2 & M3).
  destruct (Paths.makedirs_bucket_dir_leaf _ _ _ _ Hacc Hmk)
    as (L1 & L2 & L3).
  assert (Hdir : Fs.is_dir d1 (bucket_loc u name) = true).
  { apply DeleteBucketFacts.rmtree_inv in L3 as (q & Hq & _ & Hd & _).
    apply (Paths.resolve_bucket_dir _ _ _ _ Hacc) in Hq as Eq.
    now rewrite <- Eq. }
  split; [exact L1|]. split; [exact Hdir|]. split.
  { apply DeleteBucketFacts.rmtree_inv in L3 as (q & Hq & _).
    rewrite Hq. f_equal. now apply (Paths.resolve_bucket_dir _ _ _ _ Hacc Hq). }
  split; [exact M2|]. split; [exact M1|].
  intros p Hp. destruct (M3 p Hp) as [Hold | (pre & post & Hne & E & ->)];
    [now left | right].
  unfold bucket_loc, storage_loc. cbn [app].
  destruct pre as [|c1 [|c2 [|c3 [|c4 [|c5 pre]]]]]; cbn [app] in E.
  - contradiction.
  - injection E as <- _. auto.
  - injection E as <- <- _. auto.
  - injection E as <- <- E3 _. rewrite <- E3. auto.
  - injection E as <- <- E3 E4 _. rewrite <- E3, <- E4. auto.
  - discriminate.
Qed.

(** X13. After a run of [create_bucket], [upload_file] and [delete_file]
    requests under failures the handlers clean up after, a [delete_file]
    that answers 200 found the blob, whose length was the recorded size, so
    the bucket's counters go down by one file and by the recorded size; no
    record of that filename is left in the bucket, and [download_file]
    answers 404 "File not found". *)
Theorem delete_file_in_settled_state
  (rs : list served) (flt : faults) (u : ObjectId) (b f : string)
  (s : Z) (st' : State) :
  Forall admissible rs ->
  let st := run initial_state rs in
  delete_file flt st u b f = (Success s tt, st') ->
  exists bucket fd data,
    find_bucket (buckets_collection st) b u = Some bucket /\
    find_file (files_collection st) (b_id bucket) f = Some fd /\
    Fs.read_file (disk st) (f_file_path fd) = Some data /\
    Z.of_nat (List.length data) = f_size fd /\
    buckets_collection st'
    = inc_bucket_stats (b_id bucket) (-1) (- f_size fd)
        (buckets_collection st) /\
    files_collection st' = delete_file_by_id (f_id fd) (files_collection st) /\
    (forall fd', In fd' (files_collection st') ->
                 f_bucket_id fd' = b_id bucket -> f_filename fd' <> f) /\
    download_file st' u b f = Failure FileNotFound.
Proof.
  intros Hrs st Hdel.
  destruct (Ledger.admissible_run rs Hrs) as (Hh & Hc & Hr).
  fold st in Hh, Hc, Hr.
  destruct (DeleteFacts.delete_success_inv _ _ _ _ _ _ _ Hdel)
    as (bucket & fd & size & d & Hb & Hf & Hdisk & ->).
  pose proof (Reach.find_file_some _ _ _ _ Hf) as (Hfd & Eid & En).
  destruct (h_blobs st Hh fd Hfd) as (data & Hread & Hlen).
  assert (Hsp : stored_path fd u b f = f_file_path fd).
  { unfold stored_path. now rewrite (Run.read_file_nonempty _ _ _ Hread). }
  rewrite Hsp, (DiskCalls.read_file_exists _ _ _ Hread),
    (DiskCalls.getsize_of_file _ _ _ Hread) in Hdisk.
  destruct Hdisk as [Hsize Hrm]. injection Hsize as <-.
  assert (Hleft : forall fd',
             In fd' (delete_file_by_id (f_id fd) (files_collection st)) ->
             f_bucket_id fd' = b_id bucket -> f_filename fd' <> f).
  { intros fd' Hin Eid' En'.
    pose proof (Ledger.file_keys_unique _ Hh Hc Hr) as Hkeys.
    destruct (Counters.delete_file_by_id_split _ _ (h_file_ids st Hh) Hfd)
      as (l1 & l2 & Hsplit & Hdel').
    rewrite Hdel' in Hin. rewrite Hsplit in Hkeys.
    apply Counters.NoDup_map_remove in Hkeys as [_ Hnot].
    apply Hnot. apply in_map_iff. exists fd'. split; [|exact Hin].
    unfold file_key. congruence. }
  exists bucket, fd, data.
  cbn [buckets_collection files_collection].
  rewrite Hlen. repeat split; auto.
  unfold download_file. cbn [buckets_collection files_collection disk].
  destruct (UploadSuccess.find_bucket_inc_some (b_id bucket) (-1) (- f_size fd)
              _ _ _ _ Hb) as (bucket' & Hb' & Eid').
  rewrite Hb'.
  destruct (find_file _ (b_id bucket') f) as [fd'|] eqn:Hf'; [|reflexivity].
  apply Reach.find_file_some in Hf' as (Hfd' & Eid2 & En2).
  exfalso. apply (Hleft fd' Hfd'); congruence.
Qed.

(** X14. An upload shows up in the listing: after [upload_file] answered
    200, [list_files] of the bucket is the listing from before with the new
    file added at the end, under the name, size and content type stored,
    and its count is one higher. *)
Theorem list_files_after_upload
  (flt : faults) (now : string) (st : State) (u : ObjectId) (b f : string)
  (ct : option string) (data : list Byte.byte)
  (s : Z) (doc : FileDoc) (st' : State) (s0 : Z) (before : FileList) :
  upload_file flt now st u b f ct data = (Success s doc, st') ->
  list_files st u b = Success s0 before ->
  list_files st' u b
  = Success 200
      (mkFileList
         (fl_files before
          ++ [mkFileInfo (str_oid (f_id doc)) f (str_oid (f_bucket_id doc))
                (Z.of_nat (List.length data)) (stored_content_type ct) now])
         (fl_count before + 1)) /\
  f_id doc = next_oid st.
Proof.
  intros Hup Hlist.
  destruct (UploadSuccess.upload_success_inv _ _ _ _ _ _ _ _ _ _ _ Hup)
    as (bucket & d & Hb & _ & _ & _ & _ & Hdoc & ->).
  split; [|now rewrite Hdoc].
  unfold list_files in *. rewrite Hb in Hlist. injection Hlist as _ <-.
  cbn [buckets_collection files_collection fl_files fl_count].
  destruct (UploadSuccess.find_bucket_inc_some (b_id bucket) 1
              (Z.of_nat (List.length data)) _ _ _ _ Hb)
    as (bucket' & Hb' & Eid').
  rewrite Hb', Eid'.
  assert (Ebid : f_bucket_id doc = b_id bucket) by now rewrite Hdoc.
  rewrite (ReadBack.files_of_bucket_snoc _ _ doc Ebid).
  rewrite map_app, !length_app, Nat2Z.inj_add. cbn [map List.length].
  rewrite Ebid. unfold file_info at 2.
  rewrite Hdoc. cbn [f_id f_filename f_size f_content_type f_uploaded_at].
  reflexivity.
Qed.

(** ** Owners and each other's documents *)

Module Isolation.
#[local] Open Scope list_scope.

Lemma others_inc u id dc ds bs :
  (forall b, In b bs -> b_id b = id -> b_user_id b = u) ->
  buckets_of_others u (inc_bucket_stats id dc ds bs) = buckets_of_others u bs.
Proof.
  unfold buckets_of_others.
  induction bs as [|b bs IH]; intros H; [reflexivity|].
  cbn [inc_bucket_stats]. destruct (N.eqb_spec (b_id b) id) as [E|E].
  - cbn [filter b_user_id]. rewrite (H b (or_introl eq_refl) E), N.eqb_refl.
    reflexivity.
  - cbn [filter]. rewrite IH by (intros; apply H; auto; now right).
    reflexivity.
Qed.

Lemma others_delete_bucket u id bs :
  (forall b, In b bs -> b_id b = id -> b_user_id b = u) ->
  buckets_of_others u (delete_bucket_by_id id bs) = buckets_of_others u bs.
Proof.
  unfold buckets_of_others.
  induction bs as [|b bs IH]; intros H; [reflexivity|].
  cbn [delete_bucket_by_id]. destruct (N.eqb_spec (b_id b) id) as [E|E].
  - cbn [filter]. rewrite (H b (or_introl eq_refl) E), N.eqb_refl.
    reflexivity.
  - cbn [filter]. rewrite IH by (intros; apply H; auto; now right).
    reflexivity.
Qed.

Lemma others_delete_file u id fs :
  (forall f, In f fs -> f_id f = id -> f_user_id f = u) ->
  files_of_others u (delete_file_by_id id fs) = files_of_others u fs.
Proof.
  unfold files_of_others.
  induction fs as [|f fs IH]; intros H; [reflexivity|].
  cbn [delete_file_by_id]. destruct (N.eqb_spec (f_id f) id) as [E|E].
  - cbn [filter]. rewrite (H f (or_introl eq_refl) E), N.eqb_refl.
    reflexivity.
  - cbn [filter]. rewrite IH by (intros; apply H; auto; now right).
    reflexivity.
Qed.

Lemma others_delete_files_of_bucket u id fs :
  (forall f, In f fs -> f_bucket_id f = id -> f_user_id f = u) ->
  files_of_others u (delete_files_of_bucket id fs) = files_of_others u fs.
Proof.
  unfold files_of_others, delete_files_of_bucket.
  induction fs as [|f fs IH]; intros H; [reflexivity|].
  cbn [filter]. destruct (N.eqb_spec (f_bucket_id f) id) as [E|E]; cbn [negb].
  - rewrite (H f (or_introl eq_refl) E), N.eqb_refl. cbn [negb].
    apply IH. intros; apply H; auto; now right.
  - cbn [filter]. rewrite IH by (intros; apply H; auto; now right).
    reflexivity.
Qed.

Lemma others_snoc_bucket u bs doc :
  b_user_id doc = u -> buckets_of_others u (bs ++ [doc]) = buckets_of_others u bs.
Proof.
  intros E. unfold buckets_of_others. rewrite filter_app. cbn [filter].
  rewrite E, N.eqb_refl. cbn [negb]. apply app_nil_r.
Qed.

Lemma others_snoc_file u fs doc :
  f_user_id doc = u -> files_of_others u (fs ++ [doc]) = files_of_others u fs.
Proof.
  intros E. unfold files_of_others. rewrite filter_app. cbn [filter].
  rewrite E, N.eqb_refl. cbn [negb]. apply app_nil_r.
Qed.

(** The documents with the id of the bucket [find_one] returned for [u]
    belong to [u]. *)
Lemma bucket_id_owner st b u bucket :
  consistent_state st ->
  find_bucket (buckets_collection st) b u = Some bucket ->
  forall b', In b' (buckets_collection st) -> b_id b' = b_id bucket ->
             b_user_id b' = u.
Proof.
  intros (_ & K2 & _) Hb b' Hin E.
  apply Reach.find_bucket_some in Hb as (Hin0 & _ & Hu).
  destruct (K2 b' bucket Hin Hin0 E) as [_ Eu]. congruence.
Qed.

Lemma record_owner st b u bucket :
  consistent_state st ->
  find_bucket (buckets_collection st) b u = Some bucket ->
  forall f, In f (files_collection st) -> f_bucket_id f = b_id bucket ->
            f_user_id f = u.
Proof.
  intros Hc Hb f Hf E.
  apply Reach.find_bucket_some in Hb as (Hin0 & _ & Hu).
  destruct (Ledger.record_of_bucket st f bucket Hc Hf Hin0 (eq_sym E))
    as (_ & Eu & _). congruence.
Qed.

Lemma serve_others flt now st r :
  wellformed st ->
  buckets_of_others (request_user r) (buckets_collection (serve flt now st r))
  = buckets_of_others (request_user r) (buckets_collection st) /\
  files_of_others (request_user r) (files_collection (serve flt now st r))
  = files_of_others (request_user r) (files_collection st).
Proof.
  intros [Hc _ Hfids _ _ _ _].
  destruct r as [u name d | u b | u b f ct data | u b f];
    cbn [serve request_user].
  - destruct (Shape.create_bucket_shape flt now st u name d)
      as [(E1 & E2 & _) | (_ & E1 & E2 & _)]; rewrite E1, E2; [auto|].
    split; [|reflexivity]. now apply others_snoc_bucket.
  - destruct (Shape.delete_bucket_shape flt st u b)
      as (_ & [(E1 & E2) | (bucket & Hb & E2 & E1)]);
      [rewrite E1, E2; auto|].
    rewrite E2. split.
    + destruct E1 as [E1|E1]; rewrite E1; [reflexivity|].
      apply others_delete_bucket. now apply (bucket_id_owner st b).
    + apply others_delete_files_of_bucket. now apply (record_owner st b).
  - destruct (Shape.upload_file_shape flt now st u b f ct data)
      as [(E1 & E2 & _) | (bucket & Hb & _ & E1 & E2 & _)];
      [rewrite E1, E2; auto|].
    rewrite E2. split.
    + destruct E1 as [E1|E1]; rewrite E1; [reflexivity|].
      apply others_inc. now apply (bucket_id_owner st b).
    + now apply others_snoc_file.
  - destruct (Shape.delete_file_shape flt st u b f)
      as (_ & [(E1 & E2) | (bucket & fd & Hb & Hf & E2 & E1)]);
      [rewrite E1, E2; auto|].
    rewrite E2. split.
    + destruct E1 as [E1|(size & E1)]; rewrite E1; [reflexivity|].
      apply others_inc. now apply (bucket_id_owner st b).
    + apply others_delete_file. intros f0 Hf0 E.
      apply Reach.find_file_some in Hf as (Hfd & Eid & _).
      assert (f0 = fd) as ->
        by (apply (WellFormed.NoDup_map_eq f_id _ _ _ Hfids Hf0 Hfd E)).
      now apply (record_owner st b u bucket).
Qed.

Lemma filter_of_others_buckets u v bs :
  v <> u ->
  filter (fun b => N.eqb (b_user_id b) v) (buckets_of_others u bs)
  = filter (fun b => N.eqb (b_user_id b) v) bs.
Proof.
  intros Hv. unfold buckets_of_others.
  induction bs as [|b bs IH]; [reflexivity|]. cbn [filter].
  destruct (N.eqb_spec (b_user_id b) u) as [E|E]; cbn [negb filter].
  - destruct (N.eqb_spec (b_user_id b) v) as [E'|E']; [congruence | exact IH].
  - rewrite IH. reflexivity.
Qed.

Lemma filter_of_others_files u v fs :
  v <> u ->
  filter (fun f => N.eqb (f_user_id f) v) (files_of_others u fs)
  = filter (fun f => N.eqb (f_user_id f) v) fs.
Proof.
  intros Hv. unfold files_of_others.
  induction fs as [|f fs IH]; [reflexivity|]. cbn [filter].
  destruct (N.eqb_spec (f_user_id f) u) as [E|E]; cbn [negb filter].
  - destruct (N.eqb_spec (f_user_id f) v) as [E'|E']; [congruence | exact IH].
  - rewrite IH. reflexivity.
Qed.

End Isolation.

(** X15. In every reachable state, a request of owner [u], whatever it is
    and whichever backend calls fail while it is served, leaves the bucket
    documents and the file records of all other owners exactly as they
    were; so neither their usage nor what [list_buckets] answers them
    changes. *)
Theorem requests_leave_other_owners_documents
  (flt : faults) (now : string) (st : State) (r : request) (v : ObjectId) :
  reachable st ->
  v <> request_user r ->
  let st' := serve flt now st r in
  buckets_of_user (buckets_collection st') v
  = buckets_of_user (buckets_collection st) v /\
  filter (fun f => N.eqb (f_user_id f) v) (files_collection st')
  = filter (fun f => N.eqb (f_user_id f) v) (files_collection st) /\
  list_buckets st' v = list_buckets st v /\
  current_usage (files_collection st') v = current_usage (files_collection st) v.
Proof.
  intros Hreach Hv st'.
  destruct (Isolation.serve_others flt now st r
              (WellFormed.reachable_wellformed st Hreach)) as [Hbs Hfs].
  fold st' in Hbs, Hfs.
  assert (Hb : buckets_of_user (buckets_collection st') v
               = buckets_of_user (buckets_collection st) v).
  { unfold buckets_of_user.
    rewrite <- (Isolation.filter_of_others_buckets (request_user r) v
                  (buckets_collection st') Hv).
    rewrite <- (Isolation.filter_of_others_buckets (request_user r) v
                  (buckets_collection st) Hv).
    now rewrite Hbs. }
  assert (Hf : filter (fun f => N.eqb (f_user_id f) v) (files_collection st')
               = filter (fun f => N.eqb (f_user_id f) v) (files_collection st)).
  { rewrite <- (Isolation.filter_of_others_files (request_user r) v
                  (files_collection st') Hv).
    rewrite <- (Isolation.filter_of_others_files (request_user r) v
                  (files_collection st) Hv).
    now rewrite Hfs. }
  split; [exact Hb|]. split; [exact Hf|]. split.
  - unfold list_buckets. now rewrite Hb.
  - rewrite !Ledger.current_usage_sum. now rewrite Hf.
Qed.

(** ** Requests that are turned down *)

(** X16. A request answered with 400, 404, 409 or 413 changed nothing:
    neither collection, nor the disk, nor the id counter.  Every check that
    turns a request down comes before the first write. *)
Theorem client_errors_change_nothing
  (flt : faults) (now : string) (st : State) (r : request) :
  client_error (answer flt now st r) = true ->
  serve flt now st r = st.
Proof.
  destruct r as [u name d | u b | u b f ct data | u b f];
    cbn [answer serve].
  - unfold create_bucket, create_bucket_except.
    destruct (Py.falsy name || Py.falsy (Py.strip name)); [reflexivity|].
    destruct (negb _); [reflexivity|].
    destruct (find_bucket _ _ _); [reflexivity|].
    destruct (os_makedirs _ _ _) as [st1|].
    + destruct (db_insert_bucket _ _ _ _ _ _) as [[doc st2]|];
        [discriminate|].
      destruct (Fs.exists_ _ _); [|discriminate].
      destruct (os_rmtree _ _ _); discriminate.
    + destruct (Fs.exists_ _ _); [|discriminate].
      destruct (os_rmtree _ _ _); discriminate.
  - unfold delete_bucket.
    destruct (find_bucket _ _ _); [|reflexivity].
    destruct (db_delete_files_of_bucket _ _ _) as [st1|]; [|discriminate].
    destruct (if Fs.exists_ _ _ then _ else _) as [st2|]; [|discriminate].
    destruct (db_delete_bucket _ _ _); discriminate.
  - unfold upload_file, upload_file_except.
    destruct (find_bucket _ _ _); [|reflexivity].
    destruct (check_storage_limit _ _ _) as [[|]|];
      [|reflexivity|discriminate].
    destruct (Fs.exists_ _ _); [reflexivity|].
    destruct (os_write _ _ _ _) as [st1 [|]].
    + destruct (db_insert_file _ _ _ _ _ _ _ _ _ _) as [[doc st2]|].
      * destruct (db_inc_bucket_stats _ _ _ _ _); [discriminate|].
        destruct (Fs.exists_ _ _); [|discriminate].
        destruct (os_remove _ _ _); discriminate.
      * destruct (Fs.exists_ _ _); [|discriminate].
        destruct (os_remove _ _ _); discriminate.
    + destruct (Fs.exists_ _ _); [|discriminate].
      destruct (os_remove _ _ _); discriminate.
  - unfold delete_file.
    destruct (find_bucket _ _ _); [|reflexivity].
    destruct (find_file _ _ _) as [fd|]; [|reflexivity].
    destruct (if Fs.exists_ _ _ then _ else _) as [[sz st1]|]; [|discriminate].
    destruct (db_delete_file _ _ _) as [st2|]; [|discriminate].
    destruct (db_inc_bucket_stats _ _ _ _ _); discriminate.
Qed.

(** ** The users collection *)

Module Users.
#[local] Open Scope list_scope.

Lemma users_insert_one_inv flt us un em hp adm now fn doc us' :
  users_insert_one flt us un em hp adm now fn = UserInserted doc us' ->
  get_user_by_username (users_collection us) un = None /\
  get_user_by_email (users_collection us) em = None /\
  doc = mkUserDoc (next_user_oid us) un em hp adm now fn /\
  us' = mkUserStore (users_collection us ++ [doc]) (N.succ (next_user_oid us)).
Proof.
  unfold users_insert_one.
  destruct (insert_one_raises flt); [discriminate|].
  destruct (get_user_by_username _ _); [discriminate|].
  destruct (get_user_by_email _ _); [discriminate|].
  intros [= <- <-]. auto.
Qed.

Lemma find_none_not_in {A} (key : A -> string) (l : list A) (k : string) :
  find (fun x => String.eqb (key x) k) l = None -> ~ In k (map key l).
Proof.
  intros H Hin. apply in_map_iff in Hin as (x & E & Hx).
  pose proof (find_none _ _ H x Hx) as Hp. cbv beta in Hp.
  rewrite E, String.eqb_refl in Hp. discriminate.
Qed.

Lemma find_snoc {A} (key : A -> string) (l : list A) (x : A) :
  find (fun y => String.eqb (key y) (key x)) l = None ->
  find (fun y => String.eqb (key y) (key x)) (l ++ [x]) = Some x.
Proof.
  induction l as [|y l IH]; cbn [app find].
  - now rewrite String.eqb_refl.
  - destruct (String.eqb (key y) (key x)); [discriminate | exact IH].
Qed.

(** A step of the users collection adds at most one document, whose
    username and email were free, and which is an admin only as
    ["admin"]. *)
Lemma serve_user_shape hashpw flt now salt us r :
  let us' := serve_user hashpw flt now salt us r in
  us' = us \/
  exists doc,
    us' = mkUserStore (users_collection us ++ [doc])
            (N.succ (next_user_oid us)) /\
    usr_id doc = next_user_oid us /\
    get_user_by_username (users_collection us) (usr_username doc) = None /\
    get_user_by_email (users_collection us) (usr_email doc) = None /\
    (usr_is_admin doc = true -> usr_username doc = "admin").
Proof.
  destruct r as [|username email password full_name]; cbn [serve_user].
  - unfold init_admin.
    destruct (get_user_by_username _ _); [now left|].
    destruct (users_insert_one _ _ _ _ _ _ _ _) as [doc us1| |] eqn:Hins;
      [|now left|now left].
    apply users_insert_one_inv in Hins as (H1 & H2 & -> & ->).
    right. eexists. split; [reflexivity|]. cbn. auto.
  - unfold register.
    destruct (get_user_by_username _ _); [now left|].
    destruct (get_user_by_email _ _); [now left|].
    destruct (users_insert_one _ _ _ _ _ _ _ _) as [doc us1| |] eqn:Hins;
      [|now left|now left].
    apply users_insert_one_inv in Hins as (H1 & H2 & -> & ->).
    right. eexists. split; [reflexivity|]. cbn.
    repeat split; auto. discriminate.
Qed.

Lemma reachable_users_inv hashpw us :
  reachable_users hashpw us ->
  NoDup (map usr_username (users_collection us)) /\
  NoDup (map usr_email (users_collection us)) /\
  NoDup (map usr_id (users_collection us)) /\
  (forall x, In x (users_collection us) -> (usr_id x < next_user_oid us)%N) /\
  (forall x, In x (users_collection us) ->
             usr_is_admin x = true -> usr_username x = "admin").
Proof.
  induction 1 as [|flt now salt us r _ (N1 & N2 & N3 & Hlt & Hadm)].
  - cbn. repeat split; try constructor; contradiction.
  - destruct (serve_user_shape hashpw flt now salt us r)
      as [-> | (doc & -> & Eid & H1 & H2 & Ha)]; [auto|].
    cbn [users_collection next_user_oid]. repeat split.
    + apply Counters.NoDup_map_snoc; [exact N1|].
      now apply find_none_not_in.
    + apply Counters.NoDup_map_snoc; [exact N2|].
      now apply find_none_not_in.
    + apply Counters.NoDup_map_snoc; [exact N3|].
      rewrite Eid. now apply Run.fresh_not_in.
    + intros x Hx. apply in_app_or in Hx as [Hx | [<-|[]]].
      * specialize (Hlt _ Hx). lia.
      * lia.
    + intros x Hx. apply in_app_or in Hx as [Hx | [<-|[]]]; auto.
Qed.

Lemma example_checkpw_hashpw password salt :
  example_checkpw password (example_hashpw password salt) = true.
Proof.
  unfold example_checkpw, example_hashpw.
  rewrite StrFacts.length_app.
  replace (String.length salt + String.length password
           - String.length password)%nat with (String.length salt) by lia.
  assert (H : substring (String.length salt) (String.length password)
                (salt ++ password) = password).
  { induction salt as [|c salt IH]; cbn [String.length append substring].
    - induction password as [|c p IH]; cbn; [reflexivity | now rewrite IH].
    - exact IH. }
  rewrite H. apply String.eqb_refl.
Qed.

End Users.

(** X17. In the users collection, whatever sequence of startups and
    registrations it went through and whichever inserts failed, no two
    documents share a username, an email address or an id. *)
Theorem usernames_and_emails_unique
  (hashpw : string -> string -> string) (us : UserStore) :
  reachable_users hashpw us ->
  NoDup (map usr_username (users_collection us)) /\
  NoDup (map usr_email (users_collection us)) /\
  NoDup (map usr_id (users_collection us)).
Proof.
  intros H. destruct (Users.reachable_users_inv hashpw us H)
    as (N1 & N2 & N3 & _). auto.
Qed.

(** X18. Registration never makes an admin: in the users collection, the
    only document that can have [is_admin] set is the one named ["admin"]
    that the startup hook inserts, so every other user is refused by the
    admin endpoints with 403. *)
Theorem registered_users_are_refused_admin
  (hashpw : string -> string -> string) (us : UserStore) (st : State)
  (current_user : UserDoc) :
  reachable_users hashpw us ->
  In current_user (users_collection us) ->
  usr_username current_user <> "admin" ->
  usr_is_admin current_user = false /\
  get_current_admin_user current_user = inl NotEnoughPermissions /\
  get_admin_stats us st current_user = Denied NotEnoughPermissions /\
  auth_http_status (get_admin_stats us st current_user) = 403.
Proof.
  intros H Hin Hname.
  destruct (Users.reachable_users_inv hashpw us H) as (_ & _ & _ & _ & Hadm).
  assert (Ha : usr_is_admin current_user = false).
  { destruct (usr_is_admin current_user) eqn:E; [|reflexivity].
    exfalso. apply Hname. now apply Hadm. }
  unfold get_admin_stats, get_current_admin_user. rewrite Ha. cbn. auto.
Qed.

(** X19. Registration and authentication fit together: provided
    [bcrypt.checkpw] accepts a password against what [bcrypt.hashpw] made
    of it, a user whose registration was answered 201 is authenticated
    under the username and password registered, as a user who is not an
    admin and whose id is the one the answer carried. *)
Theorem register_then_authenticate
  (hashpw : string -> string -> string) (checkpw : string -> string -> bool)
  (flt : faults) (now salt : string) (us : UserStore)
  (username email password : string) (full_name : option string)
  (s : Z) (body : Registered) (us' : UserStore) :
  (forall p sl, checkpw p (hashpw p sl) = true) ->
  register hashpw flt now salt us username email password full_name
  = (Granted s body, us') ->
  exists user,
    authenticate_user checkpw (users_collection us') username password
    = Some user /\
    usr_username user = username /\
    usr_email user = email /\
    usr_is_admin user = false /\
    rg_user_id body = str_oid (usr_id user) /\
    s = 201 /\
    authenticate_user checkpw (users_collection us) username password = None.
Proof.
  intros Hbcrypt. unfold register.
  destruct (get_user_by_username (users_collection us) username) eqn:Hu;
    [discriminate|].
  destruct (get_user_by_email _ _); [discriminate|].
  destruct (users_insert_one _ _ _ _ _ _ _ _) as [doc us1| |] eqn:Hins;
    [|discriminate|discriminate].
  apply Users.users_insert_one_inv in Hins as (H1 & H2 & Hdoc & Hus1).
  intros [= <- <- <-].
  exists doc. unfold authenticate_user, get_user_by_username in *.
  rewrite Hu, Hus1. cbn [users_collection].
  assert (En : usr_username doc = username) by now rewrite Hdoc.
  rewrite <- En in H1 |- *.
  rewrite (Users.find_snoc usr_username _ doc H1).
  unfold verify_password.
  assert (Eh : usr_hashed_password doc = hashpw password salt)
    by now rewrite Hdoc.
  rewrite Eh, Hbcrypt. cbn [negb].
  rewrite Hdoc. cbn. auto 10.
Qed.

(** X20. [register] never gives the answer "User already exists": after the
    two [find_one] checks the insert cannot violate either unique index,
    so the [except DuplicateKeyError] branch is not taken by requests that
    are served one after another.  A taken username or email is answered
    400 and the collection stays as it is. *)
Theorem register_duplicate_answers
  (hashpw : string -> string -> string)
  (flt : faults) (now salt : string) (us : UserStore)
  (username email password : string) (full_name : option string) :
  let r := register hashpw flt now salt us username email password
             full_name in
  fst r <> Denied UserAlreadyExists /\
  (In username (map usr_username (users_collection us)) ->
   r = (Denied UsernameAlreadyRegistered, us)) /\
  (~ In username (map usr_username (users_collection us)) ->
   In email (map usr_email (users_collection us)) ->
   r = (Denied EmailAlreadyRegistered, us)).
Proof.
  cbv zeta. unfold register, users_insert_one.
  destruct (get_user_by_username _ _) as [x|] eqn:Hu.
  - split; [discriminate|]. split; [reflexivity|].
    intros Hn _. exfalso. apply Hn.
    unfold get_user_by_username in Hu. apply find_some in Hu as [Hin Hp].
    apply String.eqb_eq in Hp. rewrite <- Hp. now apply in_map.
  - destruct (get_user_by_email _ _) as [y|] eqn:He.
    + split; [discriminate|]. split; [|reflexivity].
      intros Hin. exfalso.
      now apply (Users.find_none_not_in usr_username _ _ Hu).
    + destruct (insert_one_raises flt); cbn.
      * split; [discriminate|]. split.
        -- intros Hin. exfalso.
           now apply (Users.find_none_not_in usr_username _ _ Hu).
        -- intros _ Hin. exfalso.
           now apply (Users.find_none_not_in usr_email _ _ He).
      * split; [discriminate|]. split.
        -- intros Hin. exfalso.
           now apply (Users.find_none_not_in usr_username _ _ Hu).
        -- intros _ Hin. exfalso.
           now apply (Users.find_none_not_in usr_email _ _ He).
Qed.

(** X21. The startup hook is idempotent: once it has run without raising,
    running it again, with whatever salt and at whatever time, leaves the
    users collection as it is; and the collection then has a user named
    ["admin"]. *)
Theorem init_admin_idempotent
  (hashpw : string -> string -> string)
  (flt flt' : faults) (now salt now' salt' : string) (us us1 : UserStore) :
  init_admin hashpw flt now salt us = Some us1 ->
  init_admin hashpw flt' now' salt' us1 = Some us1 /\
  get_user_by_username (users_collection us1) "admin" <> None.
Proof.
  unfold init_admin.
  destruct (get_user_by_username (users_collection us) "admin") as [x|] eqn:Hu.
  - intros [= <-]. rewrite Hu. split; [reflexivity | discriminate].
  - destruct (users_insert_one _ _ _ _ _ _ _ _) as [doc us2| |] eqn:Hins;
      [|discriminate|discriminate].
    intros [= <-].
    apply Users.users_insert_one_inv in Hins as (H1 & H2 & Hdoc & ->).
    cbn [users_collection]. unfold get_user_by_username in *.
    assert (En : usr_username doc = "admin") by now rewrite Hdoc.
    rewrite <- En in H1 |- *.
    rewrite (Users.find_snoc usr_username _ doc H1).
    split; [reflexivity | discriminate].
Qed.

(** ** Uploads that are refused or fail *)

Module Refused.
#[local] Open Scope list_scope.

(** [ObjectId(str(user_id))] does not raise. *)
Lemma check_storage_limit_answers fs u n :
  check_storage_limit fs (str_oid u) n <> None.
Proof.
  unfold check_storage_limit, get_user_storage_usage, oid_of_str, str_oid.
  rewrite StrFacts.length_hex_of. cbn [Nat.eqb].
  rewrite StrFacts.hex_parse_hex_of. discriminate.
Qed.

End Refused.

(** X23. After a run of [create_bucket], [upload_file] and [delete_file]
    requests under failures the handlers clean up after, an upload under a
    filename that [list_files] lists for the bucket is turned down, with
    409 "File already exists" or, when the owner's quota does not allow
    the new content, with 413; and nothing changes. *)
Theorem upload_of_listed_name_is_refused
  (rs : list served) (flt : faults) (now : string) (u : ObjectId)
  (b : string) (s : Z) (listing : FileList) (fi : FileInfo)
  (ct : option string) (data : list Byte.byte) :
  Forall admissible rs ->
  let st := run initial_state rs in
  list_files st u b = Success s listing ->
  In fi (fl_files listing) ->
  let r := upload_file flt now st u b (fi_filename fi) ct data in
  snd r = st /\
  (fst r = Failure FileAlreadyExists \/ fst r = Failure StorageLimitExceeded).
Proof.
  intros Hrs st. destruct (Ledger.admissible_run rs Hrs) as (Hh & Hc & _).
  fold st in Hh, Hc. unfold list_files.
  destruct (find_bucket (buckets_collection st) b u) as [bucket|] eqn:Hb;
    [|discriminate].
  intros E Hin. injection E as _ <-. cbn [fl_files] in Hin.
  apply in_map_iff in Hin as (f & <- & Hf).
  unfold files_of_bucket in Hf. apply filter_In in Hf as [Hf Eid].
  apply N.eqb_eq in Eid. cbn [file_info fi_filename].
  destruct (Ledger.find_file_exists _ _ _ f Hf Eid eq_refl) as (fd & Hfind).
  destruct (upload_existing_record_refused flt now st u b (f_filename f) ct
              data bucket fd Hh Hc Hb Hfind) as (_ & Hsame & H409).
  cbv zeta. split; [exact Hsame|].
  destruct (check_storage_limit (files_collection st) (str_oid u)
              (Z.of_nat (List.length data))) as [[|]|] eqn:Hq.
  - left. now apply H409.
  - right. unfold upload_file. now rewrite Hb, Hq.
  - now apply Refused.check_storage_limit_answers in Hq.
Qed.

(** X24. An upload that is not answered 200 leaves no trace, as long as
    [os.remove] and [update_one] do not fail themselves: both collections
    are as before, and if the target path was free before the request it is
    free afterwards, whatever part of the content had been written; if it
    was taken, the state is untouched. *)
Theorem failed_upload_leaves_nothing
  (flt : faults) (now : string) (st : State) (u : ObjectId) (b f : string)
  (ct : option string) (data : list Byte.byte) (e : error) (st' : State) :
  remove_raises flt = false ->
  update_one_raises flt = false ->
  upload_file flt now st u b f ct data = (Failure e, st') ->
  buckets_collection st' = buckets_collection st /\
  files_collection st' = files_collection st /\
  (Fs.exists_ (disk st) (upload_path u b f) = false ->
   Fs.exists_ (disk st') (upload_path u b f) = false) /\
  (Fs.exists_ (disk st) (upload_path u b f) = true -> st' = st).
Proof.
  intros Hrm Hupd H.
  destruct (UploadErrors.upload_error_keeps_collections flt now st u b f ct
              data Hupd) as [E1 E2]; [now rewrite H|].
  rewrite H in E1, E2. cbn [snd] in E1, E2.
  split; [exact E1|]. split; [exact E2|]. split.
  - intros He.
    exact (UploadErrors.upload_failure_leaves_no_blob flt now st u b f ct data
             e st' Hrm He H).
  - intros He.
    destruct (UploadSuccess.upload_refused_when_blob_exists flt now st u b f
                ct data He) as (_ & Hsame & _).
    now rewrite H in Hsame.
Qed.

(** ** The further theorems at concrete runs *)

Lemma bucket_names_unique_per_owner_witness :
  reachable after_example_run /\
  NoDup (map bucket_key (buckets_collection after_example_run)).
Proof.
  assert (reachable after_example_run) as H
    by exact (run_reachable example_run initial_state reachable_initial).
  split; [exact H|].
  exact (proj1 (bucket_names_unique_per_owner after_example_run H)).
Defined.

Lemma usage_within_quota_witness :
  Forall valid_request example_run /\
  valid_oid bob /\
  exists usage,
    get_user_storage_usage (files_collection after_example_run) (str_oid bob)
    = Some usage /\
    0 <= usage <= STORAGE_LIMIT_BYTES.
Proof.
  assert (Forall valid_request example_run) as H by (repeat constructor).
  assert (valid_oid bob) as Hb by reflexivity.
  split; [exact H|]. split; [exact Hb|].
  exact (usage_within_quota example_run bob H Hb).
Defined.

Lemma filenames_unique_per_bucket_witness :
  Forall admissible example_run /\
  NoDup (map file_key (files_collection after_example_run)).
Proof.
  assert (Forall admissible example_run) as H by (repeat constructor).
  split; [exact H|].
  exact (proj1 (filenames_unique_per_bucket example_run H)).
Defined.

Lemma storage_used_is_sum_of_bucket_totals_witness :
  Forall admissible example_run /\
  valid_oid (usr_id bob_doc) /\
  exists info buckets,
    get_current_user_info after_example_run bob_doc = Granted 200 info /\
    list_buckets after_example_run (usr_id bob_doc) = Success 200 buckets /\
    ui_storage_used info = sum_Z (map bi_total_size (bl_buckets buckets)) /\
    sum_Z (map bi_file_count (bl_buckets buckets))
    = Z.of_nat (List.length
                  (filter (fun f => N.eqb (f_user_id f) (usr_id bob_doc))
                     (files_collection after_example_run))).
Proof.
  assert (Forall admissible example_run) as H by (repeat constructor).
  assert (valid_oid (usr_id bob_doc)) as Hb by reflexivity.
  split; [exact H|]. split; [exact Hb|].
  exact (storage_used_is_sum_of_bucket_totals example_run bob_doc H Hb).
Defined.

Lemma admin_stats_agree_with_counters_witness :
  Forall admissible example_run /\
  usr_is_admin admin_doc = true /\
  exists stats,
    get_admin_stats with_carol after_example_run admin_doc
    = Granted 200 stats /\
    total_buckets stats
    = Z.of_nat (List.length (buckets_collection after_example_run)) /\
    total_files stats
    = sum_Z (map b_file_count (buckets_collection after_example_run)) /\
    total_storage_bytes stats
    = sum_Z (map b_total_size (buckets_collection after_example_run)).
Proof.
  assert (Forall admissible example_run) as H by (repeat constructor).
  split; [exact H|]. split; [reflexivity|].
  exact (admin_stats_agree_with_counters example_run with_carol admin_doc
           H eq_refl).
Defined.

Lemma listed_files_are_downloadable_witness :
  Forall admissible example_run /\
  exists data,
    download_file after_example_run bob "pics" "y.png" = Success 200 data /\
    Z.of_nat (List.length data) = 10.
Proof.
  assert (Forall admissible example_run) as H by (repeat constructor).
  split; [exact H|].
  pose (fi := mkFileInfo "000000000000000000000004" "y.png"
                "000000000000000000000002" 10 "application/octet-stream"
                "t5").
  pose (listing := mkFileList
                     [mkFileInfo "000000000000000000000003" "x.png"
                        "000000000000000000000002" 3 "image/png" "t4"; fi] 2).
  assert (list_files after_example_run bob "pics" = Success 200 listing)
    as Hl by reflexivity.
  assert (In fi (fl_files listing)) as Hin by (right; left; reflexivity).
  exact (listed_files_are_downloadable example_run bob "pics" 200 listing fi
           H Hl Hin).
Defined.

Lemma list_files_agrees_with_get_bucket_witness :
  Forall admissible example_run /\
  exists listing,
    list_files after_example_run bob "pics" = Success 200 listing /\
    fl_count listing = 2 /\
    Z.of_nat (List.length (fl_files listing)) = 2 /\
    sum_Z (map fi_size (fl_files listing)) = 13.
Proof.
  assert (Forall admissible example_run) as H by (repeat constructor).
  split; [exact H|].
  exact (list_files_agrees_with_get_bucket example_run bob "pics" 200
           (mkBucketInfo "000000000000000000000002" "pics" (Some "pictures")
              "t2" 2 13) H eq_refl).
Defined.

Lemma download_after_delete_file_is_404_witness :
  reachable after_example_run /\
  fst (delete_file no_faults after_example_run bob "pics" "x.png")
  = Success 200 tt /\
  http_status
    (download_file
       (snd (delete_file no_faults after_example_run bob "pics" "x.png"))
       bob "pics" "x.png") = 404.
Proof.
  assert (reachable after_example_run) as H
    by exact (run_reachable example_run initial_state reachable_initial).
  split; [exact H|]. split; [reflexivity|].
  exact (proj1 (download_after_delete_file_is_404 no_faults after_example_run
                  bob "pics" "x.png" 200
                  (snd (delete_file no_faults after_example_run bob "pics"
                          "x.png")) H eq_refl)).
Defined.

Lemma get_bucket_after_create_bucket_witness :
  http_status
    (fst (create_bucket no_faults "t6" after_example_run bob "music" None))
  = 201 /\
  get_bucket
    (snd (create_bucket no_faults "t6" after_example_run bob "music" None))
    bob "music"
  = Success 200
      (mkBucketInfo "000000000000000000000005" "music" None "t6" 0 0).
Proof.
  split; [reflexivity|].
  exact (proj1 (get_bucket_after_create_bucket no_faults "t6"
                  after_example_run bob "music" None 201
                  (mkBucketDoc 5%N "music" None bob "t6" 0 0)
                  (snd (create_bucket no_faults "t6" after_example_run bob
                          "music" None)) eq_refl)).
Defined.

Lemma bucket_gone_after_delete_bucket_witness :
  reachable after_example_run /\
  fst (delete_bucket no_faults after_example_run bob "pics") = Success 200 tt /\
  get_bucket (snd (delete_bucket no_faults after_example_run bob "pics"))
    bob "pics" = Failure BucketNotFound.
Proof.
  assert (reachable after_example_run) as H
    by exact (run_reachable example_run initial_state reachable_initial).
  split; [exact H|]. split; [reflexivity|].
  exact (proj1 (bucket_gone_after_delete_bucket no_faults after_example_run
                  bob "pics" 200
                  (snd (delete_bucket no_faults after_example_run bob "pics"))
                  H eq_refl)).
Defined.

Lemma every_record_has_its_bucket_witness :
  let f := mkFileDoc 4%N "y.png" 2%N "pics" bob 10 "application/octet-stream"
             "t5" (upload_path bob "pics" "y.png") in
  reachable after_example_run /\
  In f (files_collection after_example_run) /\
  exists b,
    In b (buckets_collection after_example_run) /\
    b_id b = f_bucket_id f /\
    b_name b = f_bucket_name f /\
    b_user_id b = f_user_id f /\
    f_file_path f = upload_path (b_user_id b) (b_name b) (f_filename f) /\
    0 <= f_size f.
Proof.
  intros f.
  assert (reachable after_example_run) as H
    by exact (run_reachable example_run initial_state reachable_initial).
  assert (In f (files_collection after_example_run)) as Hf
    by (vm_compute; right; right; left; reflexivity).
  split; [exact H|]. split; [exact Hf|].
  exact (every_record_has_its_bucket after_example_run f H Hf).
Defined.

Lemma create_bucket_directory_location_witness :
  http_status
    (fst (create_bucket no_faults "t6" after_example_run bob "music" None))
  = 201 /\
  Fs.lookup (disk after_example_run) (bucket_loc bob "music") = None /\
  Fs.is_dir
    (disk (snd (create_bucket no_faults "t6" after_example_run bob "music"
                  None)))
    (bucket_loc bob "music") = true.
Proof.
  split; [reflexivity|].
  destruct (create_bucket_directory_location no_faults "t6" after_example_run
              bob "music" None 201
              (mkBucketDoc 5%N "music" None bob "t6" 0 0)
              (snd (create_bucket no_faults "t6" after_example_run bob
                      "music" None)) eq_refl) as (H1 & H2 & _).
  split; [exact H1 | exact H2].
Defined.

Lemma delete_file_in_settled_state_witness :
  Forall admissible example_run /\
  fst (delete_file no_faults after_example_run bob "pics" "x.png")
  = Success 200 tt /\
  map (fun b => (b_name b, b_file_count b, b_total_size b))
    (buckets_collection
       (snd (delete_file no_faults after_example_run bob "pics" "x.png")))
  = [("docs", 1, 5); ("pics", 1, 10)] /\
  download_file
    (snd (delete_file no_faults after_example_run bob "pics" "x.png"))
    bob "pics" "x.png" = Failure FileNotFound.
Proof.
  assert (Forall admissible example_run) as H by (repeat constructor).
  split; [exact H|]. split; [reflexivity|]. split; [reflexivity|].
  destruct (delete_file_in_settled_state example_run no_faults bob "pics"
              "x.png" 200
              (snd (delete_file no_faults after_example_run bob "pics"
                      "x.png")) H eq_refl)
    as (bucket & fd & data & _ & _ & _ & _ & _ & _ & _ & Hdl).
  exact Hdl.
Defined.

Lemma list_files_after_upload_witness :
  let up := upload_file no_faults "t6" after_example_run bob "pics" "z.png"
              None (bytes_of "zz") in
  http_status (fst up) = 200 /\
  exists listing,
    list_files (snd up) bob "pics" = Success 200 listing /\
    map fi_filename (fl_files listing) = ["x.png"; "y.png"; "z.png"] /\
    fl_count listing = 3.
Proof.
  intros up. split; [reflexivity|].
  pose (doc := mkFileDoc 5%N "z.png" 2%N "pics" bob 2
                 "application/octet-stream" "t6"
                 (upload_path bob "pics" "z.png")).
  pose (before := mkFileList
                    [mkFileInfo "000000000000000000000003" "x.png"
                       "000000000000000000000002" 3 "image/png" "t4";
                     mkFileInfo "000000000000000000000004" "y.png"
                       "000000000000000000000002" 10
                       "application/octet-stream" "t5"] 2).
  assert (upload_file no_faults "t6" after_example_run bob "pics" "z.png"
            None (bytes_of "zz") = (Success 200 doc, snd up))
    as Hup by reflexivity.
  assert (list_files after_example_run bob "pics" = Success 200 before)
    as Hl by reflexivity.
  eexists. split.
  - exact (proj1 (list_files_after_upload no_faults "t6" after_example_run bob
                    "pics" "z.png" None (bytes_of "zz") 200 doc (snd up) 200
                    before Hup Hl)).
  - split; reflexivity.
Defined.

Lemma requests_leave_other_owners_documents_witness :
  reachable after_example_run /\
  alice <> request_user (DeleteBucket bob "pics") /\
  list_buckets
    (serve no_faults "t6" after_example_run (DeleteBucket bob "pics")) alice
  = list_buckets after_example_run alice /\
  current_usage
    (files_collection
       (serve no_faults "t6" after_example_run (DeleteBucket bob "pics")))
    alice
  = current_usage (files_collection after_example_run) alice.
Proof.
  assert (reachable after_example_run) as H
    by exact (run_reachable example_run initial_state reachable_initial).
  assert (alice <> request_user (DeleteBucket bob "pics")) as Hne
    by discriminate.
  split; [exact H|]. split; [exact Hne|].
  destruct (requests_leave_other_owners_documents no_faults "t6"
              after_example_run (DeleteBucket bob "pics") alice H Hne)
    as (_ & _ & Hl & Hu).
  split; [exact Hl | exact Hu].
Defined.

Lemma client_errors_change_nothing_witness :
  client_error
    (answer no_faults "t6" after_example_run
       (UploadFile bob "pics" "x.png" None (bytes_of "again"))) = true /\
  serve no_faults "t6" after_example_run
    (UploadFile bob "pics" "x.png" None (bytes_of "again"))
  = after_example_run.
Proof.
  split; [reflexivity|].
  exact (client_errors_change_nothing no_faults "t6" after_example_run
           (UploadFile bob "pics" "x.png" None (bytes_of "again")) eq_refl).
Defined.

Lemma usernames_and_emails_unique_witness :
  reachable_users example_hashpw with_carol /\
  NoDup (map usr_username (users_collection with_carol)) /\
  NoDup (map usr_email (users_collection with_carol)) /\
  NoDup (map usr_id (users_collection with_carol)).
Proof.
  assert (reachable_users example_hashpw with_carol) as H.
  { exact (reachable_serve_user example_hashpw no_faults "t1" "s1" with_admin
             (Register "carol" "carol@example.com" "secret" None)
             (reachable_serve_user example_hashpw no_faults "t0" "s0" no_users
                Startup (reachable_no_users example_hashpw))). }
  split; [exact H|].
  exact (usernames_and_emails_unique example_hashpw with_carol H).
Defined.

Lemma registered_users_are_refused_admin_witness :
  let carol := mkUserDoc 1%N "carol" "carol@example.com" "s1secret" false
                 "t1" "carol" in
  reachable_users example_hashpw with_carol /\
  In carol (users_collection with_carol) /\
  usr_username carol <> "admin" /\
  auth_http_status (get_admin_stats with_carol after_example_run carol) = 403.
Proof.
  intros carol.
  assert (reachable_users example_hashpw with_carol) as H.
  { exact (reachable_serve_user example_hashpw no_faults "t1" "s1" with_admin
             (Register "carol" "carol@example.com" "secret" None)
             (reachable_serve_user example_hashpw no_faults "t0" "s0" no_users
                Startup (reachable_no_users example_hashpw))). }
  assert (In carol (users_collection with_carol)) as Hin
    by (vm_compute; right; left; reflexivity).
  assert (usr_username carol <> "admin") as Hne by discriminate.
  split; [exact H|]. split; [exact Hin|]. split; [exact Hne|].
  destruct (registered_users_are_refused_admin example_hashpw with_carol
              after_example_run carol H Hin Hne) as (_ & _ & _ & H403).
  exact H403.
Defined.

Lemma register_then_authenticate_witness :
  (forall p sl, example_checkpw p (example_hashpw p sl) = true) /\
  fst (register example_hashpw no_faults "t1" "s1" with_admin "carol"
         "carol@example.com" "secret" None)
  = Granted 201 (mkRegistered "000000000000000000000001" "carol") /\
  exists user,
    authenticate_user example_checkpw (users_collection with_carol) "carol"
      "secret" = Some user /\
    usr_username user = "carol" /\
    usr_email user = "carol@example.com" /\
    usr_is_admin user = false.
Proof.
  split; [exact Users.example_checkpw_hashpw|]. split; [reflexivity|].
  destruct (register_then_authenticate example_hashpw example_checkpw
              no_faults "t1" "s1" with_admin "carol" "carol@example.com"
              "secret" None 201
              (mkRegistered "000000000000000000000001" "carol") with_carol
              Users.example_checkpw_hashpw eq_refl)
    as (user & H1 & H2 & H3 & H4 & _).
  exists user. auto.
Defined.

Lemma register_duplicate_answers_witness :
  In "carol" (map usr_username (users_collection with_carol)) /\
  register example_hashpw no_faults "t2" "s2" with_carol "carol"
    "other@example.com" "pw" None
  = (Denied UsernameAlreadyRegistered, with_carol).
Proof.
  assert (In "carol" (map usr_username (users_collection with_carol))) as H
    by (vm_compute; right; left; reflexivity).
  split; [exact H|].
  exact (proj1 (proj2 (register_duplicate_answers example_hashpw no_faults
                         "t2" "s2" with_carol "carol" "other@example.com"
                         "pw" None)) H).
Defined.

Lemma init_admin_idempotent_witness :
  init_admin example_hashpw no_faults "t0" "s0" no_users = Some with_admin /\
  init_admin example_hashpw insert_one_fails "t9" "s9" with_admin
  = Some with_admin.
Proof.
  split; [reflexivity|].
  exact (proj1 (init_admin_idempotent example_hashpw no_faults
                  insert_one_fails "t0" "s0" "t9" "s9" no_users with_admin
                  eq_refl)).
Defined.

Lemma upload_plain_filename_location_witness :
  name_rejected "docs" = false /\
  Py.all_chars Py.not_sep "a.txt" = true /\
  plain "a.txt" /\
  http_status
    (fst (upload_file no_faults "t1" with_bucket alice "docs" "a.txt" None
            (bytes_of "hello"))) = 200 /\
  Fs.lookup (disk with_upload) (bucket_loc alice "docs" ++ ["a.txt"])%list
  = Some (Fs.File (bytes_of "hello")).
Proof.
  assert (plain "a.txt") as Hp by (split; reflexivity).
  split; [reflexivity|]. split; [reflexivity|]. split; [exact Hp|].
  split; [reflexivity|].
  exact (proj2 (upload_plain_filename_location no_faults "t1" with_bucket
                  alice "docs" "a.txt" None (bytes_of "hello") 200
                  (mkFileDoc 1%N "a.txt" 0%N "docs" alice 5
                     "application/octet-stream" "t1"
                     (upload_path alice "docs" "a.txt"))
                  with_upload eq_refl eq_refl Hp eq_refl)).
Defined.

Lemma upload_of_listed_name_is_refused_witness :
  let r := upload_file no_faults "t6" after_example_run bob "pics" "x.png"
             None (bytes_of "again") in
  Forall admissible example_run /\
  snd r = after_example_run /\
  (fst r = Failure FileAlreadyExists \/ fst r = Failure StorageLimitExceeded).
Proof.
  intros r.
  assert (Forall admissible example_run) as H by (repeat constructor).
  split; [exact H|].
  pose (fi := mkFileInfo "000000000000000000000003" "x.png"
                "000000000000000000000002" 3 "image/png" "t4").
  pose (listing := mkFileList
                     [fi;
                      mkFileInfo "000000000000000000000004" "y.png"
                        "000000000000000000000002" 10
                        "application/octet-stream" "t5"] 2).
  assert (list_files after_example_run bob "pics" = Success 200 listing)
    as Hl by reflexivity.
  assert (In fi (fl_files listing)) as Hin by (left; reflexivity).
  exact (upload_of_listed_name_is_refused example_run no_faults "t6" bob
           "pics" 200 listing fi None (bytes_of "again") H Hl Hin).
Defined.

Lemma failed_upload_leaves_nothing_witness :
  let r := upload_file insert_one_fails "t6" after_example_run bob "pics"
             "z.png" None (bytes_of "zz") in
  remove_raises insert_one_fails = false /\
  update_one_raises insert_one_fails = false /\
  fst r = Failure ErrorUploadingFile /\
  Fs.exists_ (disk after_example_run) (upload_path bob "pics" "z.png")
  = false /\
  files_collection (snd r) = files_collection after_example_run /\
  Fs.exists_ (disk (snd r)) (upload_path bob "pics" "z.png") = false.
Proof.
  intros r.
  assert (Fs.exists_ (disk after_example_run) (upload_path bob "pics" "z.png")
          = false) as He by reflexivity.
  split; [reflexivity|]. split; [reflexivity|]. split; [reflexivity|].
  split; [exact He|].
  destruct (failed_upload_leaves_nothing insert_one_fails "t6"
              after_example_run bob "pics" "z.png" None (bytes_of "zz")
              ErrorUploadingFile (snd r) eq_refl eq_refl eq_refl)
    as (_ & Hf & Hgone & _).
  split; [exact Hf | exact (Hgone He)].
Defined.
